(** * Transform3x3: temporal sampling and region propagation

    A shallow embedding of the computational core of
    [ofxsTransform3x3.cpp] (openfx-supportext): the bounding box of a
    projected rectangle, the two temporal samplers
    ([getInverseTransforms], [getInverseTransformsBlur]), the region
    propagator ([transformRegion]) and the three entry points that feed
    them ([setupAndProcess], [getRegionOfDefinition],
    [getRegionsOfInterest]).

    Conventions of the embedding.
    - A C++ [double] is an IEEE-754 binary64 value, [spec_float] of the
      Standard Library with [prec = 53] and [emax = 1024]; [<], [>], [==]
      are the IEEE comparisons, so every comparison with a NaN is false.
    - The virtual method [getInverseTransformCanonical] is a function to
      [option Matrix3x3]; every invocation is recorded, in order, in a
      list of [Call]s that the embedded functions return beside their
      result.
    - Helpers that live in other headers (matrix products, coordinate
      conversions, [shutterRange], [rectBoundingBox], the filter
      expansion routines) are parameters of the [Plugin] section.
    - The [while] loop of [transformRegion] takes a step budget; [None]
      means the budget was exhausted.
    - A parameter handle is an [option]; where the source reads a handle
      that it has not tested and that the constructor can leave null, the
      embedded method does not return. *)

From Stdlib Require Import ZArith List Bool Lia SpecFloat.
From stdpp Require Import base list.
Import ListNotations.

Set Default Proof Using "Type".

(** ** IEEE-754 binary64 *)

Module Double.

Definition prec : Z := 53.
Definition emax : Z := 1024.

Definition double : Type := spec_float.

(** Conversion of an integer ([int], [size_t]) to [double]. *)
Definition of_Z (z : Z) : double := binary_normalize prec emax z 0 false.
Definition of_nat (n : nat) : double := of_Z (Z.of_nat n).

Definition zero : double := S754_zero false.
Definition one : double := of_Z 1.
Definition nan : double := S754_nan.
Definition pinf : double := S754_infinity false.
Definition ninf : double := S754_infinity true.

Definition add : double -> double -> double := SFadd prec emax.
Definition sub : double -> double -> double := SFsub prec emax.
Definition mul : double -> double -> double := SFmul prec emax.
Definition div : double -> double -> double := SFdiv prec emax.

Definition ltb (a b : double) : bool := SFltb a b.
Definition leb (a b : double) : bool := SFleb a b.
Definition gtb (a b : double) : bool := ltb b a.
Definition geb (a b : double) : bool := leb b a.
Definition eqb (a b : double) : bool := SFeqb a b.
Definition neb (a b : double) : bool := negb (SFeqb a b).

Definition is_nan (a : double) : bool :=
  match a with S754_nan => true | _ => false end.

(** Neither an infinity nor a NaN. *)
Definition is_finite (a : double) : bool :=
  match a with S754_zero _ | S754_finite _ _ _ => true | _ => false end.

(** [std::fabs]. *)
Definition fabs (a : double) : double := SFabs a.

(** [std::max(a, b)] is [(a < b) ? b : a]; [std::min(a, b)] is
    [(b < a) ? b : a]. *)
Definition max (a b : double) : double := if ltb a b then b else a.
Definition min (a b : double) : double := if ltb b a then b else a.

(** [std::floor]: the largest integral value not above the argument;
    zeros, infinities and NaN are returned unchanged. *)
Definition floor (a : double) : double :=
  match a with
  | S754_finite s m e =>
      if (0 <=? e)%Z then a
      else match Z.shiftr (cond_Zopp s (Zpos m)) (- e) with
           | Z0 => S754_zero s
           | q => binary_normalize prec emax q 0 s
           end
  | _ => a
  end.

End Double.

Export Double (double).

Declare Scope double_scope.
Delimit Scope double_scope with D.
Bind Scope double_scope with double.
Infix "+" := Double.add : double_scope.
Infix "-" := Double.sub : double_scope.
Infix "*" := Double.mul : double_scope.
Infix "/" := Double.div : double_scope.
Infix "<?" := Double.ltb : double_scope.
Infix "<=?" := Double.leb : double_scope.
Infix ">?" := Double.gtb : double_scope.
Infix ">=?" := Double.geb : double_scope.
Infix "==?" := Double.eqb (at level 70) : double_scope.
Infix "!=?" := Double.neb (at level 70) : double_scope.

(** ** Geometry types *)

(** [OFX::Matrix3x3]: coefficients [a b c / d e f / g h i]. *)
Record Matrix3x3 : Type := mkMatrix3x3 {
  m_a : double; m_b : double; m_c : double;
  m_d : double; m_e : double; m_f : double;
  m_g : double; m_h : double; m_i : double
}.

(** [OFX::Point3D]. *)
Record Point3D : Type := mkPoint3D { p_x : double; p_y : double; p_z : double }.

(** [OfxPointD]. *)
Record OfxPointD : Type := mkPointD { pt_x : double; pt_y : double }.

(** [OfxRectD]. *)
Record OfxRectD : Type := mkRectD {
  x1 : double; y1 : double; x2 : double; y2 : double
}.

(** [OfxRangeD]. *)
Record OfxRangeD : Type := mkRangeD { range_min : double; range_max : double }.

(** A C array of four elements, [p[0] .. p[3]]. *)
Record Array4 (A : Type) : Type := mkArray4 {
  at0 : A; at1 : A; at2 : A; at3 : A
}.
Arguments mkArray4 {A} _ _ _ _.
Arguments at0 {A} _.
Arguments at1 {A} _.
Arguments at2 {A} _.
Arguments at3 {A} _.

Definition elems {A} (p : Array4 A) : list A := [at0 p; at1 p; at2 p; at3 p].
Definition map4 {A B} (f : A -> B) (p : Array4 A) : Array4 B :=
  mkArray4 (f (at0 p)) (f (at1 p)) (f (at2 p)) (f (at3 p)).

(** Modelled from the spec: the "designated min/max sentinel values" of the
    infinite rectangle, [kOfxFlagInfiniteMin] and [kOfxFlagInfiniteMax] of
    ofxCore.h, which are [INT_MIN] and [INT_MAX]. *)
Definition kOfxFlagInfiniteMax : double := Double.of_Z 2147483647.
Definition kOfxFlagInfiniteMin : double := Double.of_Z (-2147483648).

(** The unbounded rectangle written by every "return infinite region"
    branch. *)
Definition infiniteRect : OfxRectD :=
  {| x1 := kOfxFlagInfiniteMin; y1 := kOfxFlagInfiniteMin;
     x2 := kOfxFlagInfiniteMax; y2 := kOfxFlagInfiniteMax |}.

(** The dummy transform written when no transform is available: every
    coefficient is [0.] except [i = 1.]. *)
Definition dummyTransform : Matrix3x3 :=
  let z := Double.zero in mkMatrix3x3 z z z z z z z z Double.one.

Definition identityMatrix : Matrix3x3 :=
  let z := Double.zero in let o := Double.one in mkMatrix3x3 o z z z o z z z o.

(** The nine [==] comparisons of the samplers. *)
Definition coeffs_eq (m n : Matrix3x3) : bool :=
  (m_a m ==? m_a n)%D && (m_b m ==? m_b n)%D && (m_c m ==? m_c n)%D &&
  (m_d m ==? m_d n)%D && (m_e m ==? m_e n)%D && (m_f m ==? m_f n)%D &&
  (m_g m ==? m_g n)%D && (m_h m ==? m_h n)%D && (m_i m ==? m_i n)%D.

(** ** Bounding box of four projected points *)

(** One round of the [for (i = 1; i < 4; ++i)] loop of
    [ofxsTransformRegionFromPoints], on the quadruple [(x1, y1, x2, y2)]. *)
Definition bounds_step (r : OfxRectD) (q : OfxPointD) : OfxRectD :=
  let '(nx1, nx2) :=
    if (pt_x q <? x1 r)%D then (pt_x q, x2 r)
    else if (pt_x q >? x2 r)%D then (x1 r, pt_x q)
    else (x1 r, x2 r) in
  let '(ny1, ny2) :=
    if (pt_y q <? y1 r)%D then (pt_y q, y2 r)
    else if (pt_y q >? y2 r)%D then (y1 r, pt_y q)
    else (y1 r, y2 r) in
  {| x1 := nx1; y1 := ny1; x2 := nx2; y2 := ny2 |}.

Definition dehomogenize (p : Point3D) : OfxPointD :=
  {| pt_x := (p_x p / p_z p)%D; pt_y := (p_y p / p_z p)%D |}.

Definition ofxsTransformRegionFromPoints (p : Array4 Point3D) : OfxRectD :=
  let allnegative := forallb (fun pi => (p_z pi <? Double.zero)%D) (elems p) in
  let allpositive := forallb (fun pi => (p_z pi >? Double.zero)%D) (elems p) in
  if negb allpositive && negb allnegative then
    infiniteRect
  else
    let q := map4 dehomogenize p in
    let r0 := {| x1 := pt_x (at0 q); y1 := pt_y (at0 q);
                 x2 := pt_x (at0 q); y2 := pt_y (at0 q) |} in
    fold_left bounds_step [at1 q; at2 q; at3 q] r0.

(** The condition of the [assert] that ends
    [ofxsTransformRegionFromPoints]. *)
Definition rod_assertion (rod : OfxRectD) : bool :=
  (x1 rod <=? x2 rod)%D && (y1 rod <=? y2 rod)%D.

(** ** Calls of the virtual transform method *)

(** One invocation [getInverseTransformCanonical(time, amount, invert, &m)]. *)
Record Call : Type := mkCall {
  call_time : double; call_amount : double; call_invert : bool
}.

(** A clip, as far as the region actions look at it. *)
Record Clip : Type := mkClip {
  getRegionOfDefinition_clip : double -> OfxRectD;
  getPixelAspectRatio : double;
  isConnected : bool
}.

(** The parameter handles of [Transform3x3Plugin]; [None] is a null
    handle.  Each [Some f] gives the value of the parameter at a time. *)
Record Params : Type := mkParams {
  _srcClip : option Clip;
  _dstClip : Clip;
  _maskClip : option Clip;
  _invert : option (double -> bool);
  _filter : option (double -> Z);
  _blackOutside : option (double -> bool);
  _motionblur : option (double -> double);
  _amount : option (double -> double);
  _centered : option (double -> bool);
  _fading : option (double -> double);
  _directionalBlur : option (double -> bool);
  _shutter : option (double -> double);
  _shutteroffset : option (double -> Z);
  _shuttercustomoffset : option (double -> double);
  _masked : bool;
  _mix : option (double -> double);
  _maskApply : option (double -> bool)
}.

(** [if (h) { h->getValueAtTime(time, v); }]: [v] keeps its previous value
    when the handle is null.  The reads of [_shutter], [_shutteroffset] and
    [_shuttercustomoffset] that the code performs under a test of
    [_directionalBlur] alone are on handles that the constructor fetches
    together with it; they are read the same way.  The reads of [_mix] in
    [getRegionsOfInterest] and of [_maskInvert] in the identity action,
    which the constructor can leave null on a masked plugin, are not: see
    [roi_dereferences_null] and [NullDereference]. *)
Definition getValueAtTime {A} (h : option (double -> A)) (time : double) (v : A) : A :=
  match h with Some f => f time | None => v end.

Definition isNull {A} (h : option A) : bool :=
  match h with Some _ => false | None => true end.

#[global] Instance Matrix3x3_inhabited : Inhabited Matrix3x3 := populate dummyTransform.
#[global] Instance double_inhabited : Inhabited double := populate Double.zero.

(** [#define kTransform3x3MotionBlurCount 1000] *)
Definition kTransform3x3MotionBlurCount : nat := 1000.

(** What [setupAndProcess] hands to [processor.setValues]. *)
Record ProcessorValues : Type := mkProcessorValues {
  pv_invtransform : list Matrix3x3;
  pv_invtransformalpha : list double;
  pv_invtransformsize : nat;
  pv_blackOutside : bool;
  pv_motionblur : double;
  pv_mix : double
}.

(** The fetched source image, as far as [setupAndProcess] reads it. *)
Record SrcImage : Type := mkSrcImage {
  src_sameDepthAndComponents : bool;
  src_pixelAspectRatio : double;
  src_transformIsIdentity : bool;
  src_transform : Matrix3x3
}.

Record RenderArguments : Type := mkRenderArguments {
  ra_time : double;
  ra_renderScale : OfxPointD;
  ra_fielded : bool
}.

(** State of the sampler loops: the caller's arrays, the running flag
    and count, and the calls made so far.  The arrays are lists; the callers
    size them to [invtransformsizealloc], and the statements below assume
    at least that length.  (Beyond the end, where C++ leaves the access
    undefined, a write is dropped and a read yields [dummyTransform].) *)
Record Samples : Type := mkSamples {
  s_invtransform : list Matrix3x3;
  s_amount : option (list double);
  s_size : nat;
  s_allequal : bool;
  s_calls : list Call
}.

(** The helpers that other headers of the library provide. *)
Class Support : Type := {
  (** [operator*] on two matrices and on a matrix and a point
      (ofxsMatrix2D.h). *)
  mat_mul : Matrix3x3 -> Matrix3x3 -> Matrix3x3;
  mat_apply : Matrix3x3 -> Point3D -> Point3D;
  ofxsMatCanonicalToPixel : double -> double -> double -> bool -> Matrix3x3;
  ofxsMatPixelToCanonical : double -> double -> double -> bool -> Matrix3x3;
  ofxsMatDeterminant : Matrix3x3 -> double;
  ofxsMatInverse : Matrix3x3 -> double -> Matrix3x3;
  (** The value of a default-constructed [Matrix3x3], which fills
      [invtransform] on [resize]. *)
  Matrix3x3_default : Matrix3x3;
  (** [std::pow]. *)
  pow : double -> double -> double;
  (** ofxsShutter.h and ofxsCoords.h. *)
  shutterRange : double -> double -> Z -> double -> OfxRangeD;
  rectBoundingBox : OfxRectD -> OfxRectD -> OfxRectD;
  rectIsInfinite : OfxRectD -> bool;
  (** ofxsFilter.h. *)
  eFilterCubic : Z;
  ofxsFilterExpandRoD : double -> OfxPointD -> bool -> OfxRectD -> OfxRectD;
  ofxsFilterExpandRoI :
    OfxRectD -> double -> OfxPointD -> Z -> bool -> double -> OfxRectD -> OfxRectD;
  getProjectSize : OfxPointD;
  getProjectOffset : OfxPointD
}.

(** The two virtual methods that a concrete effect implements. *)
Class Effect : Type := {
  getInverseTransformCanonical : double -> double -> bool -> option Matrix3x3;
  isIdentity : double -> bool
}.

Section Plugin.

Context {support : Support} {effect : Effect}.

Local Notation "A ** B" := (mat_mul A B) (at level 40, left associativity).

(** *** Shutter sampler *)

(** The time of sample [i] in [getInverseTransforms]. *)
Definition shutter_sample_time (t_start t_end : double) (alloc i : nat) : double :=
  if Nat.eqb i 0 then t_start
  else (t_start + Double.of_nat i * (t_end - t_start) / Double.of_nat (alloc - 1))%D.

(** Body of [for (size_t i = 0; i < invtransformsize; ++i)]. *)
Definition getInverseTransforms_body
    (t_start t_end : double) (canonicalToPixel pixelToCanonical : Matrix3x3)
    (invert : bool) (invtransformsizealloc : nat)
    (st : Samples) (i : nat) : Samples :=
  let t := shutter_sample_time t_start t_end invtransformsizealloc i in
  let success := getInverseTransformCanonical t Double.one invert in
  let invtransform :=
    match success with
    | Some invtransformCanonical =>
        <[i := canonicalToPixel ** invtransformCanonical ** pixelToCanonical]>
          (s_invtransform st)
    | None => <[i := dummyTransform]> (s_invtransform st)
    end in
  {| s_invtransform := invtransform;
     s_amount := s_amount st;
     s_size := s_size st;
     s_allequal := s_allequal st && coeffs_eq (invtransform !!! i) (invtransform !!! 0%nat);
     s_calls := s_calls st ++ [mkCall t Double.one invert] |}.

(** [getInverseTransforms]: the array after the call, the returned size
    and the calls made. *)
Definition getInverseTransforms
    (time : double) (renderscale : OfxPointD) (fielded : bool)
    (pixelaspectratio : double) (invert : bool)
    (shutter : double) (shutteroffset : Z) (shuttercustomoffset : double)
    (invtransform : list Matrix3x3) (invtransformsizealloc : nat)
    : list Matrix3x3 * nat * list Call :=
  let range := shutterRange time shutter shutteroffset shuttercustomoffset in
  let t_start := range_min range in
  let t_end := range_max range in
  let canonicalToPixel :=
    ofxsMatCanonicalToPixel pixelaspectratio (pt_x renderscale) (pt_y renderscale) fielded in
  let pixelToCanonical :=
    ofxsMatPixelToCanonical pixelaspectratio (pt_x renderscale) (pt_y renderscale) fielded in
  let st :=
    fold_left
      (getInverseTransforms_body t_start t_end canonicalToPixel pixelToCanonical
         invert invtransformsizealloc)
      (seq 0 invtransformsizealloc)
      {| s_invtransform := invtransform; s_amount := None;
         s_size := invtransformsizealloc; s_allequal := true; s_calls := [] |} in
  let invtransformsize := if s_allequal st then 1%nat else s_size st in
  (s_invtransform st, invtransformsize, s_calls st).

(** *** Directional-blur sampler *)

(** The blend fraction [a] and the amount [amt] of iteration [i]. *)
Definition blur_fraction (alloc i : nat) : double :=
  (Double.one - Double.of_nat (i + 1) / Double.of_nat alloc)%D.

Definition blur_amount (amountFrom amountTo : double) (alloc i : nat) : double :=
  (amountFrom + (amountTo - amountFrom) * blur_fraction alloc i)%D.

(** Body of [for (size_t i = 0; i < invtransformsizealloc; ++i)]. *)
Definition getInverseTransformsBlur_body
    (time : double) (canonicalToPixel pixelToCanonical : Matrix3x3)
    (invert : bool) (amountFrom amountTo : double) (invtransformsizealloc : nat)
    (st : Samples) (i : nat) : Samples :=
  let amt := blur_amount amountFrom amountTo invtransformsizealloc i in
  let calls := s_calls st ++ [mkCall time amt invert] in
  match getInverseTransformCanonical time amt invert with
  | Some invtransformCanonical =>
      let invtransformsize := s_size st in
      let amount :=
        match s_amount st with
        | Some amount => Some (<[invtransformsize := amt]> amount)
        | None => None
        end in
      let invtransform :=
        <[invtransformsize := canonicalToPixel ** invtransformCanonical ** pixelToCanonical]>
          (s_invtransform st) in
      {| s_invtransform := invtransform;
         s_amount := amount;
         s_size := S invtransformsize;
         s_allequal :=
           s_allequal st && coeffs_eq (invtransform !!! i) (invtransform !!! 0%nat);
         s_calls := calls |}
  | None =>
      {| s_invtransform := s_invtransform st; s_amount := s_amount st;
         s_size := s_size st; s_allequal := s_allequal st; s_calls := calls |}
  end.

(** [getInverseTransformsBlur]: both arrays after the call, the returned
    size and the calls made. *)
Definition getInverseTransformsBlur
    (time : double) (renderscale : OfxPointD) (fielded : bool)
    (pixelaspectratio : double) (invert : bool) (amountFrom amountTo : double)
    (invtransform : list Matrix3x3) (amount : option (list double))
    (invtransformsizealloc : nat)
    : list Matrix3x3 * option (list double) * nat * list Call :=
  let canonicalToPixel :=
    ofxsMatCanonicalToPixel pixelaspectratio (pt_x renderscale) (pt_y renderscale) fielded in
  let pixelToCanonical :=
    ofxsMatPixelToCanonical pixelaspectratio (pt_x renderscale) (pt_y renderscale) fielded in
  let st :=
    fold_left
      (getInverseTransformsBlur_body time canonicalToPixel pixelToCanonical
         invert amountFrom amountTo invtransformsizealloc)
      (seq 0 invtransformsizealloc)
      {| s_invtransform := invtransform; s_amount := amount;
         s_size := 0; s_allequal := true; s_calls := [] |} in
  let invtransformsize :=
    if negb (Nat.eqb (s_size st) 0) && s_allequal st then 1%nat else s_size st in
  (s_invtransform st, s_amount st, invtransformsize, s_calls st).

(** *** The transforms of a render call *)

(** [amountFrom] and [amountTo] as the three entry points compute them. *)
Definition amountRange (P : Params) (time : double) : double * double :=
  let amountTo := getValueAtTime (_amount P) time Double.one in
  let amountFrom :=
    match _centered P with
    | Some centered => if centered time then SFopp amountTo else Double.zero
    | None => Double.zero
    end in
  (amountFrom, amountTo).

(** "normalize alpha, and apply gamma". *)
Definition normalizeAlpha (fading amountTo : double) (alpha : list double) : list double :=
  if (fading <=? Double.zero)%D then map (fun _ => Double.one) alpha
  else map (fun a => pow (Double.one - Double.fabs a / amountTo)%D fading) alpha.

(** "compose with the input transform": the first [invtransformsize]
    entries are multiplied on the left by the inverse of the source
    transform, when its determinant is not [0.]. *)
Definition composeWithSrcTransform
    (src : SrcImage) (invtransformsize : nat) (invtransform : list Matrix3x3)
    : list Matrix3x3 :=
  if src_transformIsIdentity src then invtransform
  else
    let srcTransformMat := src_transform src in
    let det := ofxsMatDeterminant srcTransformMat in
    if (det !=? Double.zero)%D then
      let srcTransformInverse := ofxsMatInverse srcTransformMat det in
      fold_left
        (fun inv i => <[i := srcTransformInverse ** (inv !!! i)]> inv)
        (seq 0 invtransformsize) invtransform
    else invtransform.

(** [setupAndProcess], from the fetch of the source image to
    [processor.setValues]: [src] is the fetched source image (null when
    the clip is not connected); the result is [None] when the call throws
    [kOfxStatFailed].  The checks on the destination image come before
    and the mask set-up after; neither touches the transforms. *)
Definition setupAndProcess (P : Params) (args : RenderArguments) (src : option SrcImage)
    : option ProcessorValues * list Call :=
  let time := ra_time args in
  let directionalBlur0 := isNull (_directionalBlur P) in
  let '(amountFrom, amountTo) := amountRange P time in
  match src with
  | None =>
      (Some {| pv_invtransform := [dummyTransform]; pv_invtransformalpha := [];
               pv_invtransformsize := 1; pv_blackOutside := false;
               pv_motionblur := Double.zero; pv_mix := Double.one |}, [])
  | Some src =>
      if negb (src_sameDepthAndComponents src) then (None, [])
      else
        let invert := getValueAtTime (_invert P) time false in
        let blackOutside := getValueAtTime (_blackOutside P) time false in
        let mix := if _masked P then getValueAtTime (_mix P) time Double.one else Double.one in
        let motionblur := getValueAtTime (_motionblur P) time Double.zero in
        let directionalBlur := getValueAtTime (_directionalBlur P) time directionalBlur0 in
        let shutter :=
          if negb directionalBlur then getValueAtTime (_shutter P) time Double.zero
          else Double.zero in
        let fielded := ra_fielded args in
        let pixelAspectRatio := src_pixelAspectRatio src in
        let '(invtransform, invtransformalpha, invtransformsize, calls) :=
          if (shutter !=? Double.zero)%D && (motionblur !=? Double.zero)%D then
            let invtransformsizealloc := kTransform3x3MotionBlurCount in
            let shutteroffset_i := getValueAtTime (_shutteroffset P) time 0%Z in
            let shuttercustomoffset :=
              getValueAtTime (_shuttercustomoffset P) time Double.zero in
            let '(inv, size, calls) :=
              getInverseTransforms time (ra_renderScale args) fielded pixelAspectRatio
                invert shutter shutteroffset_i shuttercustomoffset
                (replicate invtransformsizealloc Matrix3x3_default)
                invtransformsizealloc in
            (inv, [], size, calls)
          else if directionalBlur then
            let invtransformsizealloc := kTransform3x3MotionBlurCount in
            let '(inv, alpha, size, calls) :=
              getInverseTransformsBlur time (ra_renderScale args) fielded pixelAspectRatio
                invert amountFrom amountTo
                (replicate invtransformsizealloc Matrix3x3_default)
                (Some (replicate invtransformsizealloc Double.zero))
                invtransformsizealloc in
            let fading := getValueAtTime (_fading P) time Double.zero in
            (inv, normalizeAlpha fading amountTo (default [] alpha), size, calls)
          else
            let inv0 :=
              match getInverseTransformCanonical time Double.one invert with
              | None => dummyTransform
              | Some m =>
                  ofxsMatCanonicalToPixel pixelAspectRatio (pt_x (ra_renderScale args))
                    (pt_y (ra_renderScale args)) fielded
                  ** m **
                  ofxsMatPixelToCanonical pixelAspectRatio (pt_x (ra_renderScale args))
                    (pt_y (ra_renderScale args)) fielded
              end in
            ([inv0], [], 1%nat, [mkCall time Double.one invert]) in
        let motionblur := if Nat.eqb invtransformsize 1 then Double.zero else motionblur in
        (Some {| pv_invtransform := composeWithSrcTransform src invtransformsize invtransform;
                 pv_invtransformalpha := invtransformalpha;
                 pv_invtransformsize := invtransformsize;
                 pv_blackOutside := blackOutside;
                 pv_motionblur := motionblur;
                 pv_mix := mix |}, calls)
  end.

(** *** Region propagation *)

(** [ofxsTransformRegionFromRoD]: the four transformed corners and their
    bounding box. *)
Definition ofxsTransformRegionFromRoD (srcRoD : OfxRectD) (transform : Matrix3x3)
    : Array4 Point3D * OfxRectD :=
  let p := mkArray4
    (mat_apply transform (mkPoint3D (x1 srcRoD) (y1 srcRoD) Double.one))
    (mat_apply transform (mkPoint3D (x1 srcRoD) (y2 srcRoD) Double.one))
    (mat_apply transform (mkPoint3D (x2 srcRoD) (y2 srcRoD) Double.one))
    (mat_apply transform (mkPoint3D (x2 srcRoD) (y1 srcRoD) Double.one)) in
  (p, ofxsTransformRegionFromPoints p).

(** The eight [expand = std::max(expand, std::fabs(...))] statements. *)
Definition corner_displacements (p_prev p : Array4 Point3D) : list double :=
  flat_map
    (fun '(a, b) => [Double.fabs (p_x a - p_x b)%D; Double.fabs (p_y a - p_y b)%D])
    (combine (elems p_prev) (elems p)).

Definition update_expand (expand : double) (p_prev p : Array4 Point3D) : double :=
  fold_left Double.max (corner_displacements p_prev p) expand.

(** "expand to take into account errors due to motion blur". *)
Definition expandRegion (rectTo : OfxRectD) (expand : double) : OfxRectD :=
  {| x1 := if (x1 rectTo >? kOfxFlagInfiniteMin)%D then (x1 rectTo - expand)%D else x1 rectTo;
     y1 := if (y1 rectTo >? kOfxFlagInfiniteMin)%D then (y1 rectTo - expand)%D else y1 rectTo;
     x2 := if (x2 rectTo <? kOfxFlagInfiniteMax)%D then (x2 rectTo + expand)%D else x2 rectTo;
     y2 := if (y2 rectTo <? kOfxFlagInfiniteMax)%D then (y2 rectTo + expand)%D else y2 rectTo |}.

(** The local variables of [transformRegion] that say where the walk
    is: the time, the blend fraction, the directional-blur counter and
    whether this iteration is the last one. *)
Record Cursor : Type := mkCursor {
  c_t : double;
  c_amount : double;
  c_dirBlurIter : Z;
  c_last : bool
}.

(** The other locals that live across the iterations of the [while]
    loop, and the calls made so far. *)
Record RegionState : Type := mkRegionState {
  rs_cursor : Cursor;
  rs_rectTo : OfxRectD;
  rs_first : bool;
  rs_finished : bool;
  rs_expand : double;
  rs_p_prev : Array4 Point3D;
  rs_calls : list Call
}.

(** What one iteration does: leave the function with a rectangle, or go
    on with a new state. *)
Inductive Iteration : Type :=
| Return (rectTo : OfxRectD) (calls : list Call)
| Continue (st : RegionState).

Definition dirBlurIterMax : Z := 8.

(** "next quarter-frame". *)
Definition next_quarter_frame (t : double) : double :=
  (Double.floor (t * Double.of_Z 4 + Double.of_Z 1) / Double.of_Z 4)%D.

(** "prepare for next iteration": the [else] branch of [if (last)],
    without the copy of [p] to [p_prev]. *)
Definition advance (directionalBlur : bool) (range : OfxRangeD) (c : Cursor) : Cursor :=
  if directionalBlur then
    let dirBlurIter := (c_dirBlurIter c + 1)%Z in
    {| c_t := c_t c;
       c_amount := (Double.one - Double.of_Z dirBlurIter / Double.of_Z dirBlurIterMax)%D;
       c_dirBlurIter := dirBlurIter;
       c_last := (dirBlurIter =? dirBlurIterMax)%Z |}
  else
    let t := next_quarter_frame (c_t c) in
    if (t >=? range_max range)%D then
      {| c_t := range_max range; c_amount := c_amount c;
         c_dirBlurIter := c_dirBlurIter c; c_last := true |}
    else
      {| c_t := t; c_amount := c_amount c;
         c_dirBlurIter := c_dirBlurIter c; c_last := c_last c |}.

(** The amount handed to the callback for the loop variable [amount]. *)
Definition region_amount (amountFrom amountTo amount : double) : double :=
  (amountFrom + amount * (amountTo - amountFrom))%D.

(** The call that an iteration at cursor [c] makes. *)
Definition call_at (invert : bool) (amountFrom amountTo : double) (c : Cursor) : Call :=
  mkCall (c_t c) (region_amount amountFrom amountTo (c_amount c)) invert.

(** Body of [while (!finished)]. *)
Definition transformRegion_body
    (rectFrom : OfxRectD) (invert directionalBlur : bool)
    (amountFrom amountTo : double) (range : OfxRangeD)
    (st : RegionState) : Iteration :=
  let c := rs_cursor st in
  let call := call_at invert amountFrom amountTo c in
  let calls := rs_calls st ++ [call] in
  match getInverseTransformCanonical (call_time call) (call_amount call) invert with
  | None => Return infiniteRect calls
  | Some transform =>
      let '(p, thisRoD) := ofxsTransformRegionFromRoD rectFrom transform in
      let rectTo := rectBoundingBox (rs_rectTo st) thisRoD in
      let expand :=
        if rs_first st then rs_expand st
        else update_expand (rs_expand st) (rs_p_prev st) p in
      if c_last c then
        Continue {| rs_cursor := c; rs_rectTo := rectTo; rs_first := false;
                    rs_finished := true; rs_expand := expand;
                    rs_p_prev := rs_p_prev st; rs_calls := calls |}
      else
        Continue {| rs_cursor := advance directionalBlur range c;
                    rs_rectTo := rectTo; rs_first := false;
                    rs_finished := false; rs_expand := expand;
                    rs_p_prev := p; rs_calls := calls |}
  end.

(** [while (!finished) { ... }] with a budget of iterations, followed by
    the final expansion.  [None]: the budget ran out. *)
Fixpoint transformRegion_loop
    (budget : nat) (rectFrom : OfxRectD) (invert directionalBlur : bool)
    (amountFrom amountTo : double) (range : OfxRangeD)
    (st : RegionState) : option (OfxRectD * list Call) :=
  if rs_finished st then Some (expandRegion (rs_rectTo st) (rs_expand st), rs_calls st)
  else
    match budget with
    | O => None
    | S budget' =>
        match transformRegion_body rectFrom invert directionalBlur amountFrom amountTo range st with
        | Return rectTo calls => Some (rectTo, calls)
        | Continue st' =>
            transformRegion_loop budget' rectFrom invert directionalBlur
              amountFrom amountTo range st'
        end
    end.

(** "a super-empty RoD (note that max and min are reversed)". *)
Definition superEmptyRect : OfxRectD :=
  {| x1 := kOfxFlagInfiniteMax; y1 := kOfxFlagInfiniteMax;
     x2 := kOfxFlagInfiniteMin; y2 := kOfxFlagInfiniteMin |}.

Definition hasMotionBlur (shutter motionblur : double) (directionalBlur : bool) : bool :=
  ((shutter !=? Double.zero)%D || directionalBlur) && (motionblur !=? Double.zero)%D.

(** The state on entry of the loop.  [p_prev] is not initialised in the
    source and is not read before the first iteration has written it. *)
Definition initial_cursor (range : OfxRangeD) (hasmotionblur : bool) : Cursor :=
  {| c_t := range_min range; c_amount := Double.one; c_dirBlurIter := 0;
     c_last := negb hasmotionblur |}.

Definition transformRegion_init (range : OfxRangeD) (hasmotionblur : bool) : RegionState :=
  let o := mkPoint3D Double.zero Double.zero Double.zero in
  {| rs_cursor := initial_cursor range hasmotionblur;
     rs_rectTo := superEmptyRect; rs_first := true; rs_finished := false;
     rs_expand := Double.zero; rs_p_prev := mkArray4 o o o o; rs_calls := [] |}.

(** [transformRegion]: the rectangle written to [*rectTo] and the calls
    made, or [None] when the loop did not finish within [budget]
    iterations. *)
Definition transformRegion
    (budget : nat) (rectFrom : OfxRectD) (time : double) (invert : bool)
    (motionblur : double) (directionalBlur : bool) (amountFrom amountTo : double)
    (shutter : double) (shutteroffset_i : Z) (shuttercustomoffset : double)
    (isIdentity : bool) : option (OfxRectD * list Call) :=
  let hasmotionblur := hasMotionBlur shutter motionblur directionalBlur in
  if hasmotionblur && negb directionalBlur then
    let range := shutterRange time shutter shutteroffset_i shuttercustomoffset in
    transformRegion_loop budget rectFrom invert directionalBlur amountFrom amountTo range
      (transformRegion_init range hasmotionblur)
  else if isIdentity then
    Some (rectFrom, [])
  else
    let range := {| range_min := time; range_max := time |} in
    transformRegion_loop budget rectFrom invert directionalBlur amountFrom amountTo range
      (transformRegion_init range hasmotionblur).

(** *** Region actions *)

Record RegionOfDefinitionArguments : Type := mkRoDArgs {
  rod_time : double; rod_renderScale : OfxPointD
}.

Record RegionsOfInterestArguments : Type := mkRoIArgs {
  roi_time : double; roi_renderScale : OfxPointD; regionOfInterest : OfxRectD
}.

Definition doMasking (P : Params) (time : double) : bool :=
  (isNull (_maskApply P) || getValueAtTime (_maskApply P) time false) &&
  match _maskClip P with Some c => isConnected c | None => false end.

(** The parameter values that both region actions evaluate before they
    call [transformRegion]: motion blur, directional blur, amounts and
    shutter. *)
Definition regionParams (P : Params) (time : double)
    : double * bool * double * double * double * Z * double :=
  let motionblur := getValueAtTime (_motionblur P) time Double.one in
  let '(amountFrom, amountTo) := amountRange P time in
  let directionalBlur := getValueAtTime (_directionalBlur P) time (isNull (_directionalBlur P)) in
  let '(shutter, shutteroffset_i, shuttercustomoffset) :=
    if isNull (_directionalBlur P) then (Double.zero, 0%Z, Double.zero)
    else (getValueAtTime (_shutter P) time Double.zero,
          getValueAtTime (_shutteroffset P) time 0%Z,
          getValueAtTime (_shuttercustomoffset P) time Double.zero) in
  (motionblur, directionalBlur, amountFrom, amountTo, shutter, shutteroffset_i,
   shuttercustomoffset).

(** [getRegionOfDefinition].  Outer [None]: the loop of [transformRegion]
    ran out of budget; inner [None]: the method returned [false]. *)
Definition getRegionOfDefinition (budget : nat) (P : Params)
    (args : RegionOfDefinitionArguments) : option (option OfxRectD * list Call) :=
  match _srcClip P with
  | None => Some (None, [])
  | Some srcClip =>
      let time := rod_time args in
      let srcRoD := getRegionOfDefinition_clip srcClip time in
      if rectIsInfinite srcRoD then Some (Some infiniteRect, [])
      else
        let doMasking := doMasking P time in
        let mix :=
          if doMasking then getValueAtTime (_mix P) time Double.one else Double.one in
        if doMasking && negb (isNull (_mix P)) && (mix ==? Double.zero)%D then
          Some (Some srcRoD, [])
        else
          let invert := getValueAtTime (_invert P) time false in
          let invert := negb invert in
          let '(motionblur, directionalBlur, amountFrom, amountTo, shutter,
                shutteroffset_i, shuttercustomoffset) := regionParams P time in
          let identity := isIdentity time in
          match transformRegion budget srcRoD time invert motionblur directionalBlur
                  amountFrom amountTo shutter shutteroffset_i shuttercustomoffset identity with
          | None => None
          | Some (rod, calls) =>
              let rod :=
                if negb identity then
                  let blackOutside := getValueAtTime (_blackOutside P) time false in
                  ofxsFilterExpandRoD (getPixelAspectRatio (_dstClip P))
                    (rod_renderScale args) blackOutside rod
                else rod in
              let rod :=
                if doMasking &&
                   ((mix !=? Double.one)%D ||
                    match _maskClip P with Some c => isConnected c | None => false end)
                then rectBoundingBox rod srcRoD
                else rod in
              Some (Some rod, calls)
          end
  end.

(** The replacement of infinite sides by the project extent in
    [getRegionsOfInterest]. *)
Definition clampToProject (srcRoI : OfxRectD) : OfxRectD :=
  if rectIsInfinite srcRoI then
    let size := getProjectSize in
    let offset := getProjectOffset in
    {| x1 := if (x1 srcRoI <=? kOfxFlagInfiniteMin)%D then pt_x offset else x1 srcRoI;
       y1 := if (y1 srcRoI <=? kOfxFlagInfiniteMin)%D then pt_y offset else y1 srcRoI;
       x2 := if (x2 srcRoI >=? kOfxFlagInfiniteMax)%D then (pt_x offset + pt_x size)%D
             else x2 srcRoI;
       y2 := if (y2 srcRoI >=? kOfxFlagInfiniteMax)%D then (pt_y offset + pt_y size)%D
             else y2 srcRoI |}
  else srcRoI.

(** [if (doMasking) { _mix->getValueAtTime(time, mix); ...] in
    [getRegionsOfInterest] reads [_mix] without testing it: under masking
    with a null [_mix] the method dereferences a null pointer. *)
Definition roi_dereferences_null (P : Params) (time : double) : bool :=
  doMasking P time && isNull (_mix P).

(** [getRegionsOfInterest]: the rectangle set on the source clip.  Outer
    [None]: the method does not return, because it dereferences the null
    [_mix] ([roi_dereferences_null]) or because the loop of
    [transformRegion] ran out of budget; inner [None]: nothing was set. *)
Definition getRegionsOfInterest (budget : nat) (P : Params)
    (args : RegionsOfInterestArguments) : option (option OfxRectD * list Call) :=
  match _srcClip P with
  | None => Some (None, [])
  | Some srcClip =>
      let time := roi_time args in
      let roi := regionOfInterest args in
      let doMasking := doMasking P time in
      if roi_dereferences_null P time then None
      else
      let mix :=
        if doMasking then getValueAtTime (_mix P) time Double.one else Double.one in
      if doMasking && (mix ==? Double.zero)%D then Some (Some roi, [])
      else
        let invert := getValueAtTime (_invert P) time false in
        let '(motionblur, directionalBlur, amountFrom, amountTo, shutter,
              shutteroffset_i, shuttercustomoffset) := regionParams P time in
        match transformRegion budget roi time invert motionblur directionalBlur
                amountFrom amountTo shutter shutteroffset_i shuttercustomoffset
                (isIdentity time) with
        | None => None
        | Some (srcRoI, calls) =>
            let filter := getValueAtTime (_filter P) time eFilterCubic in
            let srcRoI :=
              ofxsFilterExpandRoI roi (getPixelAspectRatio srcClip) (roi_renderScale args)
                filter doMasking mix srcRoI in
            let srcRoI := clampToProject srcRoI in
            let srcRoI :=
              if _masked P && (mix !=? Double.one)%D
              then rectBoundingBox srcRoI (regionOfInterest args)
              else srcRoI in
            Some (Some srcRoI, calls)
        end
  end.

End Plugin.

(** ** Reference collaborators

    The properties below hold for every [Support] and every [Effect].
    The instances of this section make them run on concrete inputs. *)

Module Reference.

Import Double.

(** Modelled from the spec: the matrix product of ofxsMatrix2D.h, "standard
    3x3 matrix product". *)
Definition mul (A B : Matrix3x3) : Matrix3x3 :=
  {| m_a := (m_a A * m_a B + m_b A * m_d B + m_c A * m_g B)%D;
     m_b := (m_a A * m_b B + m_b A * m_e B + m_c A * m_h B)%D;
     m_c := (m_a A * m_c B + m_b A * m_f B + m_c A * m_i B)%D;
     m_d := (m_d A * m_a B + m_e A * m_d B + m_f A * m_g B)%D;
     m_e := (m_d A * m_b B + m_e A * m_e B + m_f A * m_h B)%D;
     m_f := (m_d A * m_c B + m_e A * m_f B + m_f A * m_i B)%D;
     m_g := (m_g A * m_a B + m_h A * m_d B + m_i A * m_g B)%D;
     m_h := (m_g A * m_b B + m_h A * m_e B + m_i A * m_h B)%D;
     m_i := (m_g A * m_c B + m_h A * m_f B + m_i A * m_i B)%D |}.

(** Modelled from the spec: the product of a matrix and a homogeneous
    point of ofxsMatrix2D.h, "applies transform to the 4 corners". *)
Definition apply (A : Matrix3x3) (p : Point3D) : Point3D :=
  {| p_x := (m_a A * p_x p + m_b A * p_y p + m_c A * p_z p)%D;
     p_y := (m_d A * p_x p + m_e A * p_y p + m_f A * p_z p)%D;
     p_z := (m_g A * p_x p + m_h A * p_y p + m_i A * p_z p)%D |}.

Definition scale (sx sy : double) : Matrix3x3 :=
  mkMatrix3x3 sx zero zero zero sy zero zero zero one.

Definition half : double := (one / of_Z 2)%D.

(** Modelled from the spec: [ofxsMatCanonicalToPixel] and
    [ofxsMatPixelToCanonical] of ofxsMatrix2D.h, "pure functions of the
    four scalar inputs", where "fielded selects a half-height variant of
    the vertical scale component". *)
Definition canonicalToPixel (par sx sy : double) (fielded : bool) : Matrix3x3 :=
  scale (sx / par)%D (sy * (if fielded then half else one))%D.
Definition pixelToCanonical (par sx sy : double) (fielded : bool) : Matrix3x3 :=
  scale (par / sx)%D (one / (sy * (if fielded then half else one)))%D.

(** Modelled from the spec: [shutterRange] of ofxsShutter.h, which derives
    "a [t_start, t_end] time range" from "shutter duration, an offset mode
    (symmetric/start/end/custom), and a custom offset value". *)
Definition range (time shutter : double) (shutteroffset : Z)
    (shuttercustomoffset : double) : OfxRangeD :=
  match shutteroffset with
  | 0%Z => {| range_min := (time - shutter / of_Z 2)%D;
              range_max := (time + shutter / of_Z 2)%D |}
  | 1%Z => {| range_min := time; range_max := (time + shutter)%D |}
  | 2%Z => {| range_min := (time - shutter)%D; range_max := time |}
  | _ => {| range_min := (time + shuttercustomoffset)%D;
            range_max := (time + shuttercustomoffset + shutter)%D |}
  end.

Definition rectIsEmpty (r : OfxRectD) : bool :=
  (x2 r <=? x1 r)%D || (y2 r <=? y1 r)%D.

(** Modelled from the spec: [rectBoundingBox] of ofxsCoords.h, "the
    standard rectangle-union rule": an empty rectangle contributes
    nothing. *)
Definition boundingBox (a b : OfxRectD) : OfxRectD :=
  if rectIsEmpty a then b
  else if rectIsEmpty b then a
  else
    let bx1 := min (x1 a) (x1 b) in
    let by1 := min (y1 a) (y1 b) in
    {| x1 := bx1; y1 := by1;
       x2 := max bx1 (max (x2 a) (x2 b));
       y2 := max by1 (max (y2 a) (y2 b)) |}.

(** Modelled from the spec: [rectIsInfinite] of ofxsCoords.h, a rectangle
    with a side at a sentinel. *)
Definition isInfinite (r : OfxRectD) : bool :=
  (x1 r <=? kOfxFlagInfiniteMin)%D || (x2 r >=? kOfxFlagInfiniteMax)%D ||
  (y1 r <=? kOfxFlagInfiniteMin)%D || (y2 r >=? kOfxFlagInfiniteMax)%D.

(** The filter expansions, the determinant, the inverse and [std::pow] are
    stand-ins: no example below depends on their value. *)
Definition support : Support :=
  {| mat_mul := mul;
     mat_apply := apply;
     ofxsMatCanonicalToPixel := canonicalToPixel;
     ofxsMatPixelToCanonical := pixelToCanonical;
     ofxsMatDeterminant := fun _ => zero;
     ofxsMatInverse := fun m _ => m;
     Matrix3x3_default := identityMatrix;
     pow := fun x _ => x;
     shutterRange := range;
     rectBoundingBox := boundingBox;
     rectIsInfinite := isInfinite;
     eFilterCubic := 2;
     ofxsFilterExpandRoD := fun _ _ _ r => r;
     ofxsFilterExpandRoI := fun _ _ _ _ _ _ r => r;
     getProjectSize := mkPointD zero zero;
     getProjectOffset := mkPointD zero zero |}.

(** An effect that never has a transform. *)
Definition failing : Effect :=
  {| getInverseTransformCanonical := fun _ _ _ => None;
     isIdentity := fun _ => false |}.

(** An effect with the same transform at every time and amount. *)
Definition constant (m : Matrix3x3) : Effect :=
  {| getInverseTransformCanonical := fun _ _ _ => Some m;
     isIdentity := fun _ => false |}.

(** A translation by [(time * amount, 0)], or its opposite when
    [invert] is set. *)
Definition translation (t amount : double) (invert : bool) : Matrix3x3 :=
  let d := (t * amount)%D in
  mkMatrix3x3 one zero (if invert then SFopp d else d) zero one zero zero zero one.

Definition moving : Effect :=
  {| getInverseTransformCanonical := fun t amount invert => Some (translation t amount invert);
     isIdentity := fun _ => false |}.

(** An effect that has a transform only for amounts at or below one half. *)
Definition partial (m : Matrix3x3) : Effect :=
  {| getInverseTransformCanonical :=
       fun _ amount _ => if (amount <=? half)%D then Some m else None;
     isIdentity := fun _ => false |}.

(** An effect that has a transform only before time [t0]. *)
Definition until (t0 : double) : Effect :=
  {| getInverseTransformCanonical :=
       fun t amount invert => if (t <? t0)%D then Some (translation t amount invert) else None;
     isIdentity := fun _ => false |}.

Definition unitScale : OfxPointD := mkPointD one one.

Definition rect (a b c d : Z) : OfxRectD :=
  mkRectD (of_Z a) (of_Z b) (of_Z c) (of_Z d).

Definition clip (r : OfxRectD) : Clip :=
  {| getRegionOfDefinition_clip := fun _ => r; getPixelAspectRatio := one;
     isConnected := true |}.

(** A plugin of the directional-blur kind ([eTransform3x3ParamsTypeDirBlur]):
    no [directionalBlur] and no shutter parameters. *)
Definition dirBlurPlugin (amount : double) (centered : bool) : Params :=
  {| _srcClip := Some (clip (rect 0 0 100 100));
     _dstClip := clip (rect 0 0 100 100);
     _maskClip := None;
     _invert := Some (fun _ => false);
     _filter := Some (fun _ => 2%Z);
     _blackOutside := Some (fun _ => false);
     _motionblur := Some (fun _ => one);
     _amount := Some (fun _ => amount);
     _centered := Some (fun _ => centered);
     _fading := Some (fun _ => zero);
     _directionalBlur := None;
     _shutter := None;
     _shutteroffset := None;
     _shuttercustomoffset := None;
     _masked := false;
     _mix := None;
     _maskApply := None |}.

(** A plugin of the motion-blur kind ([eTransform3x3ParamsTypeMotionBlur]),
    with the shutter starting at the frame. *)
Definition motionBlurPlugin (invert directionalBlur : bool) (motionblur shutter : double)
    : Params :=
  {| _srcClip := Some (clip (rect 0 0 100 100));
     _dstClip := clip (rect 0 0 100 100);
     _maskClip := None;
     _invert := Some (fun _ => invert);
     _filter := Some (fun _ => 2%Z);
     _blackOutside := Some (fun _ => false);
     _motionblur := Some (fun _ => motionblur);
     _amount := None;
     _centered := None;
     _fading := None;
     _directionalBlur := Some (fun _ => directionalBlur);
     _shutter := Some (fun _ => shutter);
     _shutteroffset := Some (fun _ => 1%Z);
     _shuttercustomoffset := Some (fun _ => zero);
     _masked := false;
     _mix := None;
     _maskApply := None |}.

Definition srcImage : SrcImage :=
  {| src_sameDepthAndComponents := true; src_pixelAspectRatio := one;
     src_transformIsIdentity := true; src_transform := identityMatrix |}.

Definition renderArguments (time : double) : RenderArguments :=
  {| ra_time := time; ra_renderScale := unitScale; ra_fielded := false |}.

(** A matrix with a NaN coefficient. *)
Definition nanMatrix : Matrix3x3 :=
  mkMatrix3x3 nan zero zero zero one zero zero zero one.

End Reference.

(** ** Notions used in the statements *)

(** The least and the greatest of four values, folded with [std::min] and
    [std::max] from the first one. *)
Definition min4 (v : Array4 double) : double :=
  fold_left Double.min [at1 v; at2 v; at3 v] (at0 v).
Definition max4 (v : Array4 double) : double :=
  fold_left Double.max [at1 v; at2 v; at3 v] (at0 v).

(** The axis-aligned bounds of four 2D points. *)
Definition boundingBoxOf (q : Array4 OfxPointD) : OfxRectD :=
  {| x1 := min4 (map4 pt_x q); y1 := min4 (map4 pt_y q);
     x2 := max4 (map4 pt_x q); y2 := max4 (map4 pt_y q) |}.

(** All four [z] are [> 0], or all four are [< 0]. *)
Definition sameSignZ (p : Array4 Point3D) : bool :=
  forallb (fun pi => (p_z pi >? Double.zero)%D) (elems p) ||
  forallb (fun pi => (p_z pi <? Double.zero)%D) (elems p).

(** The four corners of a rectangle, lifted to [(x, y, 1)], in the order
    of [ofxsTransformRegionFromRoD]. *)
Definition corners (r : OfxRectD) : Array4 Point3D :=
  mkArray4 (mkPoint3D (x1 r) (y1 r) Double.one) (mkPoint3D (x1 r) (y2 r) Double.one)
           (mkPoint3D (x2 r) (y2 r) Double.one) (mkPoint3D (x2 r) (y1 r) Double.one).

Definition no_nan (l : list double) : Prop := Forall (fun d => Double.is_nan d = false) l.

Definition coords (q : Array4 OfxPointD) : list double :=
  map pt_x (elems q) ++ map pt_y (elems q).

(** Every entry of the first [n] of an array compares equal to entry 0. *)
Definition allEqualToFirst (n : nat) (inv : list Matrix3x3) : bool :=
  forallb (fun i => coeffs_eq (inv !!! i) (inv !!! 0%nat)) (seq 0 n).

(** The point of the plane that a homogeneous point stands for: its [x]
    and its [y], each divided by its [z]. *)
Definition projected (p : Point3D) : OfxPointD :=
  {| pt_x := (p_x p / p_z p)%D; pt_y := (p_y p / p_z p)%D |}.

(** A homogeneous point that is its own position in the plane: dividing
    by its [z] changes neither [x] nor [y], as when [z] is [1.]. *)
Definition normalised (p : Point3D) : Prop :=
  (p_x p / p_z p)%D = p_x p /\ (p_y p / p_z p)%D = p_y p.

(** How far the four corners move in the plane between two steps: for
    each corner, the distances [|x - x'|] and [|y - y'|] between its
    projected positions. *)
Definition corner_moves (p p' : Array4 Point3D) : list double :=
  [ Double.fabs (pt_x (projected (at0 p)) - pt_x (projected (at0 p')))%D;
    Double.fabs (pt_y (projected (at0 p)) - pt_y (projected (at0 p')))%D;
    Double.fabs (pt_x (projected (at1 p)) - pt_x (projected (at1 p')))%D;
    Double.fabs (pt_y (projected (at1 p)) - pt_y (projected (at1 p')))%D;
    Double.fabs (pt_x (projected (at2 p)) - pt_x (projected (at2 p')))%D;
    Double.fabs (pt_y (projected (at2 p)) - pt_y (projected (at2 p')))%D;
    Double.fabs (pt_x (projected (at3 p)) - pt_x (projected (at3 p')))%D;
    Double.fabs (pt_y (projected (at3 p)) - pt_y (projected (at3 p')))%D ].

(** The moves between consecutive entries of a list of steps, and the
    largest of them, from [0.]. *)
Fixpoint consecutive_moves (ps : list (Array4 Point3D)) : list double :=
  match ps with
  | p :: ((p' :: _) as rest) => corner_moves p p' ++ consecutive_moves rest
  | _ => []
  end.

Definition largest_move (ps : list (Array4 Point3D)) : double :=
  fold_left Double.max (consecutive_moves ps) Double.zero.

(** No value lies strictly below [lo] and strictly above [hi]. *)
Definition ordered (lo hi : double) : Prop :=
  forall q, Double.ltb q lo = true -> Double.ltb hi q = false.

(** An array filled by a sampler that stores only what succeeds: slot [j]
    holds what the [j]-th entry of [succs] produced, and the slots from
    [length succs] on are as before. *)
Definition filled_by {A} (succs : list nat) (f : nat -> A) (before after : list A) : Prop :=
  length after = length before /\
  (forall j i, succs !! j = Some i -> after !! j = Some (f i)) /\
  (forall j, (length succs <= j)%nat -> after !! j = before !! j).

Section Notions.

Context {support : Support} {effect : Effect}.

(** The matrix that the samplers store for a canonical transform. *)
Definition toPixel (renderscale : OfxPointD) (fielded : bool) (pixelaspectratio : double)
    (m : Matrix3x3) : Matrix3x3 :=
  mat_mul
    (mat_mul
       (ofxsMatCanonicalToPixel pixelaspectratio (pt_x renderscale) (pt_y renderscale) fielded)
       m)
    (ofxsMatPixelToCanonical pixelaspectratio (pt_x renderscale) (pt_y renderscale) fielded).

(** What a sampler stores for the outcome of a call in shutter mode. *)
Definition stored_for (renderscale : OfxPointD) (fielded : bool) (pixelaspectratio : double)
    (outcome : option Matrix3x3) : Matrix3x3 :=
  match outcome with
  | Some m => toPixel renderscale fielded pixelaspectratio m
  | None => dummyTransform
  end.

Definition outcome_of (c : Call) : option Matrix3x3 :=
  getInverseTransformCanonical (call_time c) (call_amount c) (call_invert c).

(** The call of iteration [i] of each sampler. *)
Definition shutter_call (range : OfxRangeD) (invert : bool) (alloc i : nat) : Call :=
  mkCall (shutter_sample_time (range_min range) (range_max range) alloc i) Double.one invert.

Definition blur_call (time : double) (invert : bool) (amountFrom amountTo : double)
    (alloc i : nat) : Call :=
  mkCall time (blur_amount amountFrom amountTo alloc i) invert.

(** The iterations of the directional-blur sampler whose call succeeds. *)
Definition blur_successes (time : double) (invert : bool) (amountFrom amountTo : double)
    (alloc : nat) : list nat :=
  filter
    (fun i => is_Some (getInverseTransformCanonical time
                         (blur_amount amountFrom amountTo alloc i) invert))
    (seq 0 alloc).

Definition blur_failures (time : double) (invert : bool) (amountFrom amountTo : double)
    (alloc : nat) : list nat :=
  filter
    (fun i => getInverseTransformCanonical time
                (blur_amount amountFrom amountTo alloc i) invert = None)
    (seq 0 alloc).

(** The cursor of iteration [j] of the walk of [transformRegion], if the
    walk gets that far. *)
Definition cursor_at (directionalBlur : bool) (range : OfxRangeD) (hasmotionblur : bool)
    (j : nat) : Cursor :=
  Nat.iter j (advance directionalBlur range) (initial_cursor range hasmotionblur).

(** What the iteration at a cursor computes: the projected corners and
    their bounding box, or nothing when the call fails. *)
Definition sample_at (rectFrom : OfxRectD) (invert : bool) (amountFrom amountTo : double)
    (c : Cursor) : option (Array4 Point3D * OfxRectD) :=
  let call := call_at invert amountFrom amountTo c in
  match getInverseTransformCanonical (call_time call) (call_amount call) invert with
  | Some transform => Some (ofxsTransformRegionFromRoD rectFrom transform)
  | None => None
  end.

(** The displacements of the four corners between consecutive entries of
    a list of projected corners. *)
Fixpoint consecutive_displacements (ps : list (Array4 Point3D)) : list double :=
  match ps with
  | p :: ((p' :: _) as rest) => corner_displacements p p' ++ consecutive_displacements rest
  | _ => []
  end.

(** The largest of them, from [0.]. *)
Definition max_displacement (ps : list (Array4 Point3D)) : double :=
  fold_left Double.max (consecutive_displacements ps) Double.zero.

(** The union of a list of rectangles, from the super-empty one. *)
Definition union_of (rs : list OfxRectD) : OfxRectD :=
  fold_left rectBoundingBox rs superEmptyRect.

(** The cursors [0 .. n] of a walk. *)
Definition cursors (directionalBlur : bool) (range : OfxRangeD) (hasmotionblur : bool)
    (n : nat) : list Cursor :=
  map (cursor_at directionalBlur range hasmotionblur) (seq 0 (S n)).

(** The walk stops at iteration [n] and not before. *)
Definition stops_at (directionalBlur : bool) (range : OfxRangeD) (hasmotionblur : bool)
    (n : nat) : Prop :=
  c_last (cursor_at directionalBlur range hasmotionblur n) = true /\
  forall j, (j < n)%nat -> c_last (cursor_at directionalBlur range hasmotionblur j) = false.

(** [c :: rest] is a walk that stops on its last cursor. *)
Fixpoint is_walk (directionalBlur : bool) (range : OfxRangeD) (c : Cursor)
    (rest : list Cursor) : Prop :=
  match rest with
  | [] => c_last c = true
  | c' :: rest' =>
      c_last c = false /\ c' = advance directionalBlur range c /\
      is_walk directionalBlur range c' rest'
  end.

(** [c :: rest] is the beginning of a walk: no cursor before the last
    one of the list stops it. *)
Fixpoint is_walk_prefix (directionalBlur : bool) (range : OfxRangeD) (c : Cursor)
    (rest : list Cursor) : Prop :=
  match rest with
  | [] => True
  | c' :: rest' =>
      c_last c = false /\ c' = advance directionalBlur range c /\
      is_walk_prefix directionalBlur range c' rest'
  end.

(** The projected corners that the loop holds in [p_prev]: none before
    the first iteration. *)
Definition previous (st : RegionState) : list (Array4 Point3D) :=
  if rs_first st then [] else [rs_p_prev st].

(** The times of a shutter walk before the clamp to the end of the
    range: [range.min] and its successive next quarter frames. *)
Definition quarter_frame (range : OfxRangeD) (j : nat) : double :=
  Nat.iter j next_quarter_frame (range_min range).

(** The blend fraction of iteration [k] of a directional-blur walk. *)
Definition region_fraction (k : nat) : double :=
  (Double.one - Double.of_nat k / Double.of_Z dirBlurIterMax)%D.

(** The calls of a schedule that a walk gets to make: those up to and
    including the first one that fails. *)
Fixpoint until_failure (cs : list Call) : list Call :=
  match cs with
  | [] => []
  | c :: cs' =>
      c :: match outcome_of c with
           | Some _ => until_failure cs'
           | None => []
           end
  end.

(** The time range that [transformRegion] walks. *)
Definition region_range (time shutter : double) (shutteroffset_i : Z)
    (shuttercustomoffset : double) (motionblur : double) (directionalBlur : bool)
    : OfxRangeD :=
  if hasMotionBlur shutter motionblur directionalBlur && negb directionalBlur
  then shutterRange time shutter shutteroffset_i shuttercustomoffset
  else {| range_min := time; range_max := time |}.

(** Region propagation as both region actions invoke it: on the values of
    [regionParams] and the effect's identity test, for a rectangle and a
    flag of the caller's. *)
Definition region_propagation (budget : nat) (P : Params) (rect : OfxRectD)
    (time : double) (flag : bool) : option (OfxRectD * list Call) :=
  let '(motionblur, directionalBlur, amountFrom, amountTo, shutter,
        shutteroffset_i, shuttercustomoffset) := regionParams P time in
  transformRegion budget rect time flag motionblur directionalBlur amountFrom amountTo
    shutter shutteroffset_i shuttercustomoffset (isIdentity time).

End Notions.

(** ** Further actions of the plugin *)

(** [OfxRectI]. *)
Record OfxRectI : Type := mkRectI { ix1 : Z; iy1 : Z; ix2 : Z; iy2 : Z }.

(** The two handles of [Transform3x3Plugin] that only the identity action
    reads, beside the others. *)
Record IdentityParams : Type := mkIdentityParams {
  ip_params : Params;
  _clamp : option (double -> bool);
  _maskInvert : option (double -> bool)
}.

Record IsIdentityArguments : Type := mkIsIdentityArguments {
  ia_time : double;
  ia_renderScale : OfxPointD;
  ia_renderWindow : OfxRectI
}.

Record TransformArguments : Type := mkTransformArguments {
  ta_time : double;
  ta_renderScale : OfxPointD;
  ta_fielded : bool
}.

(** What the identity action answers: [false], or [true] with the values
    it wrote to [identityClip] and [identityTime] ([None]: not written);
    or no answer, when it dereferences a null handle. *)
Inductive IdentityAnswer : Type :=
| NotIdentity
| Identity (identityClip : option Clip) (identityTime : option double)
| NullDereference.

(** The helpers of ofxsCoords.h that the identity action calls. *)
Class CoordsSupport : Type := {
  toPixelEnclosing : OfxRectD -> OfxPointD -> double -> OfxRectI;
  rectIntersection : OfxRectI -> OfxRectI -> bool
}.

Section Actions.

Context {support : Support} {effect : Effect} {coords : CoordsSupport}.

(** [assert(invtransform.size() && invtransformsize)], before
    [processor.setValues] in [setupAndProcess]. *)
Definition setValues_assertion (pv : ProcessorValues) : bool :=
  negb (Nat.eqb (length (pv_invtransform pv)) 0) &&
  negb (Nat.eqb (pv_invtransformsize pv) 0).

(** [getTransform]: [None] when the method returns [false], else the clip
    and the matrix it wrote; and the calls made.  The method starts with
    [assert(!_masked)] and then tests [_masked] again; the test is what is
    modelled. *)
Definition getTransform (P : Params) (args : TransformArguments)
    : option (option Clip * Matrix3x3) * list Call :=
  if _masked P then (None, [])
  else
    let time := ta_time args in
    let invert := getValueAtTime (_invert P) time false in
    let calls := [mkCall time Double.one invert] in
    match getInverseTransformCanonical time Double.one invert with
    | None => (None, calls)
    | Some invtransform =>
        let det := ofxsMatDeterminant invtransform in
        if (det ==? Double.zero)%D then (None, calls)
        else
          let transformCanonical := ofxsMatInverse invtransform det in
          let pixelaspectratio :=
            match _srcClip P with
            | Some srcClip => getPixelAspectRatio srcClip
            | None => Double.one
            end in
          let fielded := ta_fielded args in
          let transformPixel :=
            mat_mul
              (mat_mul
                 (ofxsMatCanonicalToPixel pixelaspectratio (pt_x (ta_renderScale args))
                    (pt_y (ta_renderScale args)) fielded)
                 transformCanonical)
              (ofxsMatPixelToCanonical pixelaspectratio (pt_x (ta_renderScale args))
                 (pt_y (ta_renderScale args)) fielded) in
          (Some (_srcClip P, transformPixel), calls)
    end.

(** "if there is motion blur, we suppose the transform is not identity":
    the test of the identity action. *)
Definition identity_hasmotionblur (P : Params) (time : double) : bool :=
  let motionblur :=
    getValueAtTime (_motionblur P) time
      (if isNull (_invert P) then Double.zero else Double.one) in
  let shutter := getValueAtTime (_shutter P) time Double.zero in
  (shutter !=? Double.zero)%D && (motionblur !=? Double.zero)%D.

(** The identity action, [isIdentity(args, identityClip, identityTime)],
    after its call of [clearPersistentMessage], which acts on the host
    only.  [_maskInvert->getValueAtTime] under [if (doMasking)] is on a
    handle that the source does not test: with a null [_maskInvert] the
    method dereferences a null pointer.  The branch without a mask clip
    under masking cannot be reached, since masking requires the clip. *)
Definition isIdentity_action (IP : IdentityParams) (args : IsIdentityArguments)
    : IdentityAnswer :=
  let P := ip_params IP in
  let time := ia_time args in
  if match _amount P with
     | Some amount => (amount time ==? Double.zero)%D
     | None => false
     end
  then Identity (_srcClip P) (Some time)
  else if identity_hasmotionblur P time then NotIdentity
  else if getValueAtTime (_clamp IP) time false then NotIdentity
  else if isIdentity time then Identity (_srcClip P) (Some time)
  else if _masked P then
    let mix := getValueAtTime (_mix P) time Double.one in
    if (mix ==? Double.zero)%D then Identity (_srcClip P) (Some time)
    else if doMasking P time then
      match _maskInvert IP with
      | None => NullDereference
      | Some maskInvert =>
          if negb (maskInvert time) then
            match _maskClip P with
            | Some maskClip =>
                let maskRoD :=
                  toPixelEnclosing (getRegionOfDefinition_clip maskClip time)
                    (ia_renderScale args) (getPixelAspectRatio maskClip) in
                if negb (rectIntersection (ia_renderWindow args) maskRoD)
                then Identity (_srcClip P) None
                else NotIdentity
            | None => NotIdentity
            end
          else NotIdentity
      end
    else NotIdentity
  else NotIdentity.

End Actions.

(** The test of both region actions for a walk over the shutter range:
    [hasmotionblur && !directionalBlur] of [transformRegion], on the values
    that they evaluate. *)
Definition region_shutter_sampling (P : Params) (time : double) : bool :=
  let '(motionblur, directionalBlur, _, _, shutter, _, _) := regionParams P time in
  hasMotionBlur shutter motionblur directionalBlur && negb directionalBlur.

(** The three ways in which [setupAndProcess] obtains its transforms when
    there is a source image.  The source zeroes [shutter] when the
    evaluated [directionalBlur] is set, so that the test on the shutter,
    which comes first, then fails. *)
Inductive RenderMode : Type :=
| ShutterMode
| DirectionalMode
| SingleMode.

Definition render_mode (P : Params) (time : double) : RenderMode :=
  if getValueAtTime (_directionalBlur P) time (isNull (_directionalBlur P)) then DirectionalMode
  else if (getValueAtTime (_shutter P) time Double.zero !=? Double.zero)%D &&
          (getValueAtTime (_motionblur P) time Double.zero !=? Double.zero)%D
  then ShutterMode
  else SingleMode.

(** The four tests of [getRegionsOfInterest] on the sides of a rectangle:
    some side is at or beyond its sentinel. *)
Definition at_sentinel (r : OfxRectD) : bool :=
  (x1 r <=? kOfxFlagInfiniteMin)%D || (x2 r >=? kOfxFlagInfiniteMax)%D ||
  (y1 r <=? kOfxFlagInfiniteMin)%D || (y2 r >=? kOfxFlagInfiniteMax)%D.

(** A call without its [invert] flag. *)
Definition sample_point (c : Call) : double * double := (call_time c, call_amount c).

(** ** Construction *)

(** [Transform3x3ParamsTypeEnum]: the two values that the constructor
    tests, and any other. *)
Inductive Transform3x3ParamsTypeEnum : Type :=
| eTransform3x3ParamsTypeNone
| eTransform3x3ParamsTypeDirBlur
| eTransform3x3ParamsTypeMotionBlur.

(** The contexts that the constructor tests, and any other. *)
Inductive ContextEnum : Type :=
| eContextGenerator
| eContextPaint
| eContextGeneral.

(** The clip names that the constructor fetches. *)
Inductive ClipName : Type :=
| kOfxImageEffectOutputClipName
| kOfxImageEffectSimpleSourceClipName
| Brush
| Mask.

(** The parameter names that the constructor looks up. *)
Inductive ParamName : Type :=
| kParamTransform3x3Invert
| kParamFilterType
| kParamFilterClamp
| kParamFilterBlackOutside
| kParamTransform3x3MotionBlur
| kParamTransform3x3Amount
| kParamTransform3x3Centered
| kParamTransform3x3Fading
| kParamTransform3x3DirectionalBlur
| kParamShutter
| kParamShutterOffset
| kParamShutterCustomOffset
| kParamMix
| kParamMaskInvert.

(** The methods of [ImageEffect] that the constructor calls.  A fetched
    parameter is its value at each time. *)
Class Host : Type := {
  getContext : ContextEnum;
  fetchClip : ClipName -> Clip;
  paramExists : ParamName -> bool;
  fetchBooleanParam : ParamName -> double -> bool;
  fetchDoubleParam : ParamName -> double -> double;
  fetchChoiceParam : ParamName -> double -> Z
}.

(** The constructor [Transform3x3Plugin::Transform3x3Plugin]: every handle
    starts null and is fetched under the tests of the source.  The
    [setEnabled] calls on the shutter parameters act on the host's
    interface only. *)
Definition Transform3x3Plugin {host : Host} (masked : bool)
    (paramsType : Transform3x3ParamsTypeEnum) : IdentityParams :=
  let generic := paramExists kParamTransform3x3Invert in
  let dirBlur :=
    generic &&
    match paramsType with eTransform3x3ParamsTypeDirBlur => true | _ => false end in
  let motionBlur :=
    generic &&
    match paramsType with eTransform3x3ParamsTypeMotionBlur => true | _ => false end in
  {| ip_params :=
       {| _srcClip :=
            match getContext with
            | eContextGenerator => None
            | _ => Some (fetchClip kOfxImageEffectSimpleSourceClipName)
            end;
          _dstClip := fetchClip kOfxImageEffectOutputClipName;
          _maskClip :=
            if masked then
              Some (fetchClip match getContext with eContextPaint => Brush | _ => Mask end)
            else None;
          _invert :=
            if generic then Some (fetchBooleanParam kParamTransform3x3Invert) else None;
          _filter := if generic then Some (fetchChoiceParam kParamFilterType) else None;
          _blackOutside :=
            if generic then Some (fetchBooleanParam kParamFilterBlackOutside) else None;
          _motionblur :=
            if generic && paramExists kParamTransform3x3MotionBlur
            then Some (fetchDoubleParam kParamTransform3x3MotionBlur) else None;
          _amount := if dirBlur then Some (fetchDoubleParam kParamTransform3x3Amount) else None;
          _centered :=
            if dirBlur then Some (fetchBooleanParam kParamTransform3x3Centered) else None;
          _fading := if dirBlur then Some (fetchDoubleParam kParamTransform3x3Fading) else None;
          _directionalBlur :=
            if motionBlur then Some (fetchBooleanParam kParamTransform3x3DirectionalBlur)
            else None;
          _shutter := if motionBlur then Some (fetchDoubleParam kParamShutter) else None;
          _shutteroffset :=
            if motionBlur then Some (fetchChoiceParam kParamShutterOffset) else None;
          _shuttercustomoffset :=
            if motionBlur then Some (fetchDoubleParam kParamShutterCustomOffset) else None;
          _masked := masked;
          _mix := if generic && masked then Some (fetchDoubleParam kParamMix) else None;
          _maskApply := None |};
     _clamp := if generic then Some (fetchBooleanParam kParamFilterClamp) else None;
     _maskInvert :=
       if generic && masked then Some (fetchBooleanParam kParamMaskInvert) else None |}.

(** ** Reference collaborators of the further actions *)

Module ReferenceActions.

Import Double.

(** Modelled from the spec: "determinant(A)" of ofxsMatrix2D.h. *)
Definition determinant (M : Matrix3x3) : double :=
  (m_a M * (m_e M * m_i M - m_h M * m_f M)
   - m_b M * (m_d M * m_i M - m_g M * m_f M)
   + m_c M * (m_d M * m_h M - m_g M * m_e M))%D.

(** Modelled from the spec: "invert(A, det)" of ofxsMatrix2D.h, "division
    by the supplied determinant, no internal re-check". *)
Definition inverse (M : Matrix3x3) (det : double) : Matrix3x3 :=
  {| m_a := ((m_e M * m_i M - m_h M * m_f M) / det)%D;
     m_b := ((m_c M * m_h M - m_b M * m_i M) / det)%D;
     m_c := ((m_b M * m_f M - m_c M * m_e M) / det)%D;
     m_d := ((m_f M * m_g M - m_d M * m_i M) / det)%D;
     m_e := ((m_a M * m_i M - m_c M * m_g M) / det)%D;
     m_f := ((m_d M * m_c M - m_a M * m_f M) / det)%D;
     m_g := ((m_d M * m_h M - m_g M * m_e M) / det)%D;
     m_h := ((m_g M * m_b M - m_a M * m_h M) / det)%D;
     m_i := ((m_a M * m_e M - m_d M * m_b M) / det)%D |}.

(** [Reference.support] with this determinant and this inverse. *)
Definition support : Support :=
  {| mat_mul := Reference.mul;
     mat_apply := Reference.apply;
     ofxsMatCanonicalToPixel := Reference.canonicalToPixel;
     ofxsMatPixelToCanonical := Reference.pixelToCanonical;
     ofxsMatDeterminant := determinant;
     ofxsMatInverse := inverse;
     Matrix3x3_default := identityMatrix;
     pow := fun x _ => x;
     shutterRange := Reference.range;
     rectBoundingBox := Reference.boundingBox;
     rectIsInfinite := Reference.isInfinite;
     eFilterCubic := 2;
     ofxsFilterExpandRoD := fun _ _ _ r => r;
     ofxsFilterExpandRoI := fun _ _ _ _ _ _ r => r;
     getProjectSize := mkPointD zero zero;
     getProjectOffset := mkPointD zero zero |}.

(** An effect that is the identity at every time. *)
Definition still : Effect :=
  {| getInverseTransformCanonical := fun _ _ _ => Some identityMatrix;
     isIdentity := fun _ => true |}.

(** A shear that grows with time: [(x, y)] goes to [(x + t*y, y + 2t)],
    so that the corners move by different amounts, in [x] and in [y]. *)
Definition shearing : Effect :=
  {| getInverseTransformCanonical :=
       fun t _ _ => Some (mkMatrix3x3 one t zero zero one (of_Z 2 * t)%D zero zero one);
     isIdentity := fun _ => false |}.

(** A projective transform that leaves [x] and [y] of the homogeneous
    image as they are and lets [z] go from [1.] at frame 10 down with
    time: the position in the plane, [(x/z, y/z)], moves away. *)
Definition receding : Effect :=
  {| getInverseTransformCanonical :=
       fun t _ _ => Some (mkMatrix3x3 one zero zero zero one zero zero zero (of_Z 11 - t)%D);
     isIdentity := fun _ => false |}.

(** An effect without a transform at the amount 3/4, with the identity at
    the amount 1/2 and a translation by the amount elsewhere. *)
Definition patchy : Effect :=
  {| getInverseTransformCanonical :=
       fun _ amount _ =>
         if (amount ==? of_Z 3 / of_Z 4)%D then None
         else if (amount ==? Reference.half)%D then Some identityMatrix
         else Some (Reference.translation one amount false);
     isIdentity := fun _ => false |}.

(** An effect that translates by the amount, and has no transform for
    amounts above one half. *)
Definition fading : Effect :=
  {| getInverseTransformCanonical :=
       fun _ amount invert =>
         if (amount <=? Reference.half)%D then Some (Reference.translation one amount invert)
         else None;
     isIdentity := fun _ => false |}.

(** Stand-ins for the helpers of ofxsCoords.h: no example below depends on
    their value. *)
Definition coords : CoordsSupport :=
  {| toPixelEnclosing := fun _ _ _ => mkRectI 0 0 0 0;
     rectIntersection := fun _ _ => true |}.

(** A host whose effect has every parameter, with a shutter of half a
    frame and no directional blur. *)
Definition host : Host :=
  {| getContext := eContextGeneral;
     fetchClip := fun _ => Reference.clip (Reference.rect 0 0 100 100);
     paramExists := fun _ => true;
     fetchBooleanParam := fun _ _ => false;
     fetchDoubleParam :=
       fun name _ =>
         match name with
         | kParamShutter => Reference.half
         | kParamTransform3x3MotionBlur => zero
         | _ => one
         end;
     fetchChoiceParam := fun _ _ => 1%Z |}.

(** A host whose effect has none of the parameters. *)
Definition bareHost : Host :=
  {| getContext := eContextGeneral;
     fetchClip := fun _ => Reference.clip (Reference.rect 0 0 100 100);
     paramExists := fun _ => false;
     fetchBooleanParam := fun _ _ => false;
     fetchDoubleParam := fun _ _ => one;
     fetchChoiceParam := fun _ _ => 1%Z |}.

(** A source image that carries a transform: a scale by 2. *)
Definition scaledSrcImage : SrcImage :=
  {| src_sameDepthAndComponents := true; src_pixelAspectRatio := one;
     src_transformIsIdentity := false;
     src_transform := Reference.scale (of_Z 2) (of_Z 2) |}.

End ReferenceActions.

(** * Properties *)

(** ** Order on [double] *)

Module DoubleFacts.

Import Double.

Ltac sf_cases :=
  repeat match goal with
  | x : spec_float |- _ => destruct x as [[]|[]| |[] ? ?]
  | x : double |- _ => destruct x as [[]|[]| |[] ? ?]
  end.

Ltac sf_order :=
  unfold max, min, gtb, geb, neb, ltb, leb, eqb, is_nan, SFltb, SFleb, SFeqb, SFcompare in *;
  sf_cases; simpl in *;
  try discriminate; try reflexivity; try tauto;
  repeat match goal with
  | |- context [Z.compare ?a ?b] => destruct (Z.compare_spec a b); subst; simpl in *
  | H : context [Z.compare ?a ?b] |- _ => destruct (Z.compare_spec a b); subst; simpl in *
  | |- context [Pos.compare_cont Eq ?a ?b] =>
      change (Pos.compare_cont Eq a b) with (Pos.compare a b);
      destruct (Pos.compare_spec a b); subst; simpl in *
  | H : context [Pos.compare_cont Eq ?a ?b] |- _ =>
      change (Pos.compare_cont Eq a b) with (Pos.compare a b) in H;
      destruct (Pos.compare_spec a b); subst; simpl in *
  end;
  try discriminate; try reflexivity; try lia; try tauto.

Lemma ltb_trans a b c : ltb a b = true -> ltb b c = true -> ltb a c = true.
Proof. sf_order. Qed.

Lemma ltb_asym a b : ltb a b = true -> ltb b a = false.
Proof. sf_order. Qed.

Lemma leb_trans a b c : leb a b = true -> leb b c = true -> leb a c = true.
Proof. sf_order. Qed.

Lemma leb_refl a : is_nan a = false -> leb a a = true.
Proof. sf_order. Qed.

Lemma ltb_leb a b : ltb a b = true -> leb a b = true.
Proof. sf_order. Qed.

Lemma nlt_leb a b :
  is_nan a = false -> is_nan b = false -> ltb a b = false -> leb b a = true.
Proof. sf_order. Qed.

Lemma eqb_nan_l a : eqb nan a = false.
Proof. reflexivity. Qed.

Lemma eqb_refl a : is_nan a = false -> eqb a a = true.
Proof. sf_order. Qed.

Lemma leb_nan_l a : leb nan a = false.
Proof. reflexivity. Qed.

(** Adding a finite value times [0.] leaves a finite value unchanged, up
    to the sign of a zero. *)
Lemma add_mul_zero a d :
  is_finite a = true -> is_finite d = true -> eqb (add a (mul d zero)) a = true.
Proof.
  destruct a as [[]|[]| |[] ma ea], d as [[]|[]| |[] md ed]; try discriminate; intros _ _;
    cbn; try reflexivity;
    unfold eqb, SFeqb, SFcompare; rewrite Z.compare_refl;
    change (Pos.compare_cont Eq ma ma) with (Pos.compare ma ma);
    now rewrite Pos.compare_refl.
Qed.

Lemma min_cases a b : min a b = a \/ min a b = b.
Proof. unfold min. destruct (ltb b a); auto. Qed.

Lemma max_cases a b : max a b = a \/ max a b = b.
Proof. unfold max. destruct (ltb a b); auto. Qed.

Lemma min_le_l a b : is_nan a = false -> is_nan b = false -> leb (min a b) a = true.
Proof.
  intros Ha Hb. unfold min. destruct (ltb b a) eqn:E.
  - now apply ltb_leb.
  - now apply leb_refl.
Qed.

Lemma min_le_r a b : is_nan a = false -> is_nan b = false -> leb (min a b) b = true.
Proof.
  intros Ha Hb. unfold min. destruct (ltb b a) eqn:E.
  - now apply leb_refl.
  - now apply nlt_leb.
Qed.

Lemma max_ge_l a b : is_nan a = false -> is_nan b = false -> leb a (max a b) = true.
Proof.
  intros Ha Hb. unfold max. destruct (ltb a b) eqn:E.
  - now apply ltb_leb.
  - now apply leb_refl.
Qed.

Lemma max_ge_r a b : is_nan a = false -> is_nan b = false -> leb b (max a b) = true.
Proof.
  intros Ha Hb. unfold max. destruct (ltb a b) eqn:E.
  - now apply leb_refl.
  - now apply nlt_leb.
Qed.

(** A fold of [std::max] never goes down, whatever is folded: a NaN in
    the list is skipped. *)
Lemma max_keeps_lower_bound a b d :
  is_nan a = false -> leb d a = true -> leb d (max a b) = true.
Proof.
  intros Ha Hd. unfold max. destruct (ltb a b) eqn:E; [|exact Hd].
  eapply leb_trans; [exact Hd|]. now apply ltb_leb.
Qed.

Lemma max_not_nan a b : is_nan a = false -> is_nan (max a b) = false.
Proof. sf_order. Qed.

Lemma min_not_nan a b : is_nan a = false -> is_nan (min a b) = false.
Proof. sf_order. Qed.

Lemma fold_max_not_nan l a : is_nan a = false -> is_nan (fold_left max l a) = false.
Proof.
  revert a. induction l as [|b l IH]; intros a Ha; simpl; [exact Ha|].
  apply IH. now apply max_not_nan.
Qed.

Lemma fold_min_not_nan l a : is_nan a = false -> is_nan (fold_left min l a) = false.
Proof.
  revert a. induction l as [|b l IH]; intros a Ha; simpl; [exact Ha|].
  apply IH. now apply min_not_nan.
Qed.

Lemma fold_max_ge_init l a d :
  is_nan a = false -> leb d a = true -> leb d (fold_left max l a) = true.
Proof.
  revert a. induction l as [|b l IH]; intros a Ha Hd; simpl; [exact Hd|].
  apply IH; [now apply max_not_nan | now apply max_keeps_lower_bound].
Qed.

Lemma fold_min_le_init l a d :
  is_nan a = false -> leb a d = true -> leb (fold_left min l a) d = true.
Proof.
  revert a. induction l as [|b l IH]; intros a Ha Hd; simpl; [exact Hd|].
  apply IH; [now apply min_not_nan|].
  unfold min. destruct (ltb b a) eqn:E; [|exact Hd].
  eapply leb_trans; [|exact Hd]. now apply ltb_leb.
Qed.

(** The fold is above every element that is not a NaN. *)
Lemma fold_max_ge l : forall a d,
  is_nan a = false -> In d l -> is_nan d = false -> leb d (fold_left max l a) = true.
Proof.
  induction l as [|b l IH]; intros a d Ha Hin Hd; simpl in *; [contradiction|].
  destruct Hin as [->|Hin].
  - apply fold_max_ge_init; [now apply max_not_nan | now apply max_ge_r].
  - apply IH; auto. now apply max_not_nan.
Qed.

Lemma fold_min_le l : forall a d,
  is_nan a = false -> In d l -> is_nan d = false -> leb (fold_left min l a) d = true.
Proof.
  induction l as [|b l IH]; intros a d Ha Hin Hd; simpl in *; [contradiction|].
  destruct Hin as [->|Hin].
  - apply fold_min_le_init; [now apply min_not_nan | now apply min_le_r].
  - apply IH; auto. now apply min_not_nan.
Qed.

(** The fold is its start value or one of the elements. *)
Lemma fold_max_attained l : forall a, In (fold_left max l a) (a :: l).
Proof.
  induction l as [|b l IH]; intros a; simpl; [now left|].
  destruct (IH (max a b)) as [H|H]; [|now right; right].
  rewrite <- H. destruct (max_cases a b) as [-> | ->]; auto.
Qed.

Lemma fold_min_attained l : forall a, In (fold_left min l a) (a :: l).
Proof.
  induction l as [|b l IH]; intros a; simpl; [now left|].
  destruct (IH (min a b)) as [H|H]; [|now right; right].
  rewrite <- H. destruct (min_cases a b) as [-> | ->]; auto.
Qed.

End DoubleFacts.

(** ** Bounding box of four projected points *)

Section BoundingBox.

Import Double DoubleFacts.

Lemma ordered_refl a : ordered a a.
Proof. intros q Hq. now apply ltb_asym. Qed.

(** On one axis, a round of the loop is a [std::min] and a [std::max]:
    the [else] of the source never hides an update of the upper bound. *)
Lemma axis_step lo hi q :
  ordered lo hi ->
  (if ltb q lo then (q, hi) else if gtb q hi then (lo, q) else (lo, hi))
  = (min lo q, max hi q) /\ ordered (min lo q) (max hi q).
Proof.
  intros Hord. unfold min, max, gtb.
  destruct (ltb q lo) eqn:E1.
  - rewrite (Hord q E1). split; [reflexivity|].
    intros q' Hq'. apply Hord. eapply ltb_trans; eauto.
  - destruct (ltb hi q) eqn:E2; (split; [reflexivity|]); [|exact Hord].
    intros q' Hq'. destruct (ltb q q') eqn:E3; [|reflexivity].
    rewrite (ltb_trans _ _ _ E3 Hq') in E1. discriminate.
Qed.

Lemma bounds_step_minmax r q :
  ordered (x1 r) (x2 r) -> ordered (y1 r) (y2 r) ->
  bounds_step r q =
    {| x1 := min (x1 r) (pt_x q); y1 := min (y1 r) (pt_y q);
       x2 := max (x2 r) (pt_x q); y2 := max (y2 r) (pt_y q) |}.
Proof.
  intros Hx Hy. unfold bounds_step.
  destruct (axis_step _ _ (pt_x q) Hx) as [-> _].
  destruct (axis_step _ _ (pt_y q) Hy) as [-> _]. reflexivity.
Qed.

Lemma bounds_fold qs : forall r,
  ordered (x1 r) (x2 r) -> ordered (y1 r) (y2 r) ->
  fold_left bounds_step qs r =
    {| x1 := fold_left min (map pt_x qs) (x1 r);
       y1 := fold_left min (map pt_y qs) (y1 r);
       x2 := fold_left max (map pt_x qs) (x2 r);
       y2 := fold_left max (map pt_y qs) (y2 r) |}.
Proof.
  induction qs as [|q qs IH]; intros r Hx Hy; simpl.
  - now destruct r.
  - rewrite (bounds_step_minmax r q Hx Hy).
    rewrite IH; simpl; [reflexivity| |].
    + exact (proj2 (axis_step _ _ (pt_x q) Hx)).
    + exact (proj2 (axis_step _ _ (pt_y q) Hy)).
Qed.

Lemma sameSignZ_branch p :
  negb (forallb (fun pi => (p_z pi >? zero)%D) (elems p)) &&
  negb (forallb (fun pi => (p_z pi <? zero)%D) (elems p)) = negb (sameSignZ p).
Proof. unfold sameSignZ. now rewrite negb_orb. Qed.

Lemma regionFromPoints_sameSign p :
  sameSignZ p = true ->
  ofxsTransformRegionFromPoints p = boundingBoxOf (map4 dehomogenize p).
Proof.
  intros H. unfold ofxsTransformRegionFromPoints.
  rewrite sameSignZ_branch, H. simpl negb. cbv iota.
  rewrite bounds_fold; simpl; try apply ordered_refl. reflexivity.
Qed.

Lemma regionFromPoints_mixed p :
  sameSignZ p = false -> ofxsTransformRegionFromPoints p = infiniteRect.
Proof.
  intros H. unfold ofxsTransformRegionFromPoints.
  now rewrite sameSignZ_branch, H.
Qed.

(** Without a NaN among them, [min4] and [max4] are the least and the
    greatest of the four values. *)
Lemma min4_max4_bounds (v : Array4 double) :
  no_nan (elems v) ->
  Forall (fun d => leb (min4 v) d = true /\ leb d (max4 v) = true) (elems v) /\
  In (min4 v) (elems v) /\ In (max4 v) (elems v).
Proof.
  intros Hn. unfold min4, max4.
  assert (H0 : is_nan (at0 v) = false) by (inversion Hn; assumption).
  split; [|split].
  - apply List.Forall_forall. intros d Hd.
    assert (Hdn : is_nan d = false) by (eapply List.Forall_forall in Hn; eauto).
    destruct Hd as [<-|Hd].
    + split.
      * apply fold_min_le_init; [assumption | now apply leb_refl].
      * apply fold_max_ge_init; [assumption | now apply leb_refl].
    + split; [apply fold_min_le | apply fold_max_ge]; assumption.
  - apply fold_min_attained.
  - apply fold_max_attained.
Qed.

Lemma no_nan_app l l' : no_nan (l ++ l') <-> no_nan l /\ no_nan l'.
Proof. apply Forall_app. Qed.

(** The assertion that ends [ofxsTransformRegionFromPoints] holds as soon
    as no quotient is a NaN. *)
Lemma rod_assertion_without_nan p :
  sameSignZ p = false \/ no_nan (coords (map4 dehomogenize p)) ->
  rod_assertion (ofxsTransformRegionFromPoints p) = true.
Proof.
  destruct (sameSignZ p) eqn:E.
  - intros [H|H]; [discriminate|].
    rewrite (regionFromPoints_sameSign p E).
    apply no_nan_app in H. destruct H as [Hx Hy].
    destruct (min4_max4_bounds (map4 pt_x (map4 dehomogenize p)) Hx) as [Bx _].
    destruct (min4_max4_bounds (map4 pt_y (map4 dehomogenize p)) Hy) as [By _].
    inversion Bx as [|? ? [Bx1 Bx2] _]. inversion By as [|? ? [By1 By2] _].
    unfold rod_assertion, boundingBoxOf. cbn [x1 x2 y1 y2].
    change (Double.leb ?a ?b) with (leb a b).
    rewrite (leb_trans _ _ _ Bx1 Bx2), (leb_trans _ _ _ By1 By2). reflexivity.
  - intros _. rewrite (regionFromPoints_mixed p E). reflexivity.
Qed.

End BoundingBox.

(** A value that compares equal to [0.] is neither [> 0.] nor [< 0.]. *)
Lemma zero_has_no_sign (z : double) :
  (z ==? Double.zero)%D = true ->
  (z >? Double.zero)%D = false /\ (z <? Double.zero)%D = false.
Proof. unfold Double.zero. intros H. split; DoubleFacts.sf_order. Qed.

(** C2 (amended).  For every rectangle and every matrix,
    [ofxsTransformRegionFromRoD] sends the four corners [(x, y, 1)] through
    the matrix.  When the four [z] are all [> 0] or all [< 0], each point is
    divided by its [z] and the result is the fold of the four quotients from
    the first one, the lower bounds by [std::min] and the upper bounds by
    [std::max]; whenever no quotient is a NaN this is the axis-aligned
    bounds of the four points of the plane.  In every other case, of which
    a [z] that compares equal to [0.] is one, the result is the unbounded
    rectangle. *)
Theorem rect_projection_bounding_box {support : Support}
    (srcRoD : OfxRectD) (transform : Matrix3x3) :
  let p := map4 (mat_apply transform) (corners srcRoD) in
  let q := map4 projected p in
  let rod := snd (ofxsTransformRegionFromRoD srcRoD transform) in
  fst (ofxsTransformRegionFromRoD srcRoD transform) = p /\
  (sameSignZ p = true ->
   rod = {| x1 := fold_left Double.min [pt_x (at1 q); pt_x (at2 q); pt_x (at3 q)] (pt_x (at0 q));
            y1 := fold_left Double.min [pt_y (at1 q); pt_y (at2 q); pt_y (at3 q)] (pt_y (at0 q));
            x2 := fold_left Double.max [pt_x (at1 q); pt_x (at2 q); pt_x (at3 q)] (pt_x (at0 q));
            y2 := fold_left Double.max [pt_y (at1 q); pt_y (at2 q); pt_y (at3 q)] (pt_y (at0 q))
         |}) /\
  (sameSignZ p = false -> rod = infiniteRect) /\
  (forall pi, In pi (elems p) -> (p_z pi ==? Double.zero)%D = true -> rod = infiniteRect) /\
  (sameSignZ p = true -> no_nan (coords q) ->
   Forall (fun pt =>
             (x1 rod <=? pt_x pt)%D = true /\ (pt_x pt <=? x2 rod)%D = true /\
             (y1 rod <=? pt_y pt)%D = true /\ (pt_y pt <=? y2 rod)%D = true) (elems q) /\
   In (x1 rod) (map pt_x (elems q)) /\ In (x2 rod) (map pt_x (elems q)) /\
   In (y1 rod) (map pt_y (elems q)) /\ In (y2 rod) (map pt_y (elems q))).
Proof.
  intros p q rod. subst rod. unfold ofxsTransformRegionFromRoD. cbn [fst snd].
  fold (corners srcRoD). change (mkArray4 _ _ _ _) with p.
  assert (Hq : map4 dehomogenize p = q) by reflexivity.
  split; [reflexivity|].
  split; [intros Hs; now rewrite (regionFromPoints_sameSign p Hs), Hq|].
  split; [apply regionFromPoints_mixed|]. split.
  - intros pi Hin Hz. apply regionFromPoints_mixed. unfold sameSignZ.
    destruct (zero_has_no_sign (p_z pi) Hz) as [Hpos Hneg].
    apply orb_false_iff. split; apply not_true_is_false; intros Hall;
      pose proof (proj1 (forallb_forall _ _) Hall pi Hin) as Hsign;
      cbv beta in Hsign; congruence.
  - intros Hs Hn. rewrite (regionFromPoints_sameSign p Hs), Hq.
    apply no_nan_app in Hn. destruct Hn as [Hx Hy].
    destruct (min4_max4_bounds (map4 pt_x q) Hx) as (Bx & Ix1 & Ix2).
    destruct (min4_max4_bounds (map4 pt_y q) Hy) as (By & Iy1 & Iy2).
    cbn [boundingBoxOf x1 x2 y1 y2].
    split; [|tauto].
    inversion Bx as [|? ? [] Bx1]; subst. inversion Bx1 as [|? ? [] Bx2]; subst.
    inversion Bx2 as [|? ? [] Bx3]; subst. inversion Bx3 as [|? ? [] _]; subst.
    inversion By as [|? ? [] By1]; subst. inversion By1 as [|? ? [] By2]; subst.
    inversion By2 as [|? ? [] By3]; subst. inversion By3 as [|? ? [] _]; subst.
    repeat constructor; assumption.
Qed.

(** A projective matrix, [z = x + 1]: the corners of [(0, 0, 3, 4)] go to
    [(0, 0, 1)], [(0, 4, 1)], [(3, 4, 4)] and [(3, 0, 4)]; divided by their
    [z], to [(0, 0)], [(0, 4)], [(3/4, 1)] and [(3/4, 0)]. *)
Lemma rect_projection_bounding_box_witness :
  let srcRoD := Reference.rect 0 0 3 4 in
  let transform :=
    mkMatrix3x3 Double.one Double.zero Double.zero
                Double.zero Double.one Double.zero
                Double.one Double.zero Double.one in
  let rod := snd (@ofxsTransformRegionFromRoD Reference.support srcRoD transform) in
  rod = mkRectD Double.zero Double.zero (Double.of_Z 3 / Double.of_Z 4)%D (Double.of_Z 4) /\
  In (x2 rod) (map pt_x (elems (map4 projected
        (map4 (Reference.apply transform) (corners srcRoD))))).
Proof.
  intros srcRoD transform rod.
  destruct (@rect_projection_bounding_box Reference.support srcRoD transform)
    as (_ & Hsame & _ & _ & Hbounds).
  split.
  - subst rod. rewrite Hsame; reflexivity.
  - apply Hbounds; [reflexivity|]. vm_compute. repeat constructor.
Defined.

(** C2, as stated, fails on a NaN: with an infinite coefficient the corners
    at [x = 0] go to a NaN [x], all four [z] are [1.], and both bounds in
    [x] are that NaN, so that the rectangle holds none of the four points;
    the same four corners met in another order, as those of the rectangle
    [(100, 0, 0, 100)], give another rectangle.  The result is then not
    the bounds of the four points. *)
Lemma rect_projection_counterexample :
  let transform :=
    mkMatrix3x3 Double.pinf Double.zero Double.zero
                Double.zero Double.one Double.zero
                Double.zero Double.zero Double.one in
  let srcRoD := Reference.rect 0 0 100 100 in
  let p := map4 (Reference.apply transform) (corners srcRoD) in
  let rod := snd (@ofxsTransformRegionFromRoD Reference.support srcRoD transform) in
  let mirrored :=
    snd (@ofxsTransformRegionFromRoD Reference.support (Reference.rect 100 0 0 100) transform) in
  sameSignZ p = true /\
  map (fun pi => pt_x (projected pi)) (elems p)
    = [Double.nan; Double.nan; Double.pinf; Double.pinf] /\
  rod = mkRectD Double.nan Double.zero Double.nan (Double.of_Z 100) /\
  Forall (fun pi => (x1 rod <=? pt_x (projected pi))%D = false /\
                    (pt_x (projected pi) <=? x2 rod)%D = false) (elems p) /\
  mirrored = mkRectD Double.pinf Double.zero Double.pinf (Double.of_Z 100).
Proof. vm_compute. repeat split; repeat constructor. Qed.

(** C10.  The assertion [rod.x1 <= rod.x2 && rod.y1 <= rod.y2] that ends
    [ofxsTransformRegionFromPoints] does not hold for all inputs: it fails
    as soon as the first quotient is a NaN, which the overflow of a product
    of finite values suffices to produce.  (It holds whenever no quotient is
    a NaN, see [rod_assertion_without_nan].) *)
Theorem rod_assertion_fails_on_nan :
  let o := mkPoint3D Double.zero Double.zero Double.one in
  rod_assertion
    (ofxsTransformRegionFromPoints (mkArray4 (mkPoint3D Double.nan Double.zero Double.one) o o o))
  = false /\
  let big := Double.of_Z (2 ^ 600) in
  let transform :=
    mkMatrix3x3 big (SFopp big) Double.zero
                Double.zero Double.one Double.zero
                Double.zero Double.zero Double.one in
  let srcRoD := mkRectD big big big big in
  sameSignZ (fst (@ofxsTransformRegionFromRoD Reference.support srcRoD transform)) = true /\
  rod_assertion (snd (@ofxsTransformRegionFromRoD Reference.support srcRoD transform)) = false.
Proof. vm_compute. auto. Qed.

(** ** The samplers *)

Section Samplers.

Context {support : Support} {effect : Effect}.

Lemma forallb_ext_in {A} (f g : A -> bool) (l : list A) :
  (forall x, In x l -> f x = g x) -> forallb f l = forallb g l.
Proof.
  induction l as [|a l IH]; intros H; simpl; [reflexivity|].
  rewrite (H a) by now left. rewrite IH; [reflexivity|].
  intros x Hx. apply H. now right.
Qed.

Lemma forallb_seq_S {f : nat -> bool} n :
  forallb f (seq 0 (S n)) = forallb f (seq 0 n) && f n.
Proof. rewrite seq_S, forallb_app. simpl. now rewrite andb_true_r. Qed.

Lemma fold_left_seq_S {A} (f : A -> nat -> A) (a : A) n :
  fold_left f (seq 0 (S n)) a = f (fold_left f (seq 0 n) a) n.
Proof. now rewrite seq_S, fold_left_app. Qed.

Lemma map_seq_S {A} (f : nat -> A) n :
  map f (seq 0 (S n)) = map f (seq 0 n) ++ [f n].
Proof. now rewrite seq_S, map_app. Qed.

(** *** Shutter mode *)

Section Shutter.

Variables (range : OfxRangeD) (c2p p2c : Matrix3x3) (invert : bool) (alloc : nat).

Local Abbreviation stored i :=
  (match outcome_of (shutter_call range invert alloc i) with
   | Some m => mat_mul (mat_mul c2p m) p2c
   | None => dummyTransform
   end).

Local Abbreviation body :=
  (getInverseTransforms_body (range_min range) (range_max range) c2p p2c invert alloc).

Lemma shutter_body_spec st i :
  (i < length (s_invtransform st))%nat ->
  let st' := body st i in
  s_invtransform st' = <[i := stored i]> (s_invtransform st) /\
  s_allequal st' =
    s_allequal st && coeffs_eq (stored i) (<[i := stored i]> (s_invtransform st) !!! 0%nat) /\
  s_calls st' = s_calls st ++ [shutter_call range invert alloc i] /\
  s_size st' = s_size st /\ s_amount st' = s_amount st.
Proof.
  intros Hi. unfold getInverseTransforms_body, outcome_of, shutter_call.
  cbn [call_time call_amount call_invert].
  destruct (getInverseTransformCanonical _ _ _) as [m|];
    cbn [s_invtransform s_allequal s_calls s_size s_amount];
    rewrite list_lookup_total_insert_eq by exact Hi; auto.
Qed.

Lemma shutter_fold buf n :
  (n <= length buf)%nat ->
  let st :=
    fold_left body (seq 0 n)
      {| s_invtransform := buf; s_amount := None; s_size := alloc;
         s_allequal := true; s_calls := [] |} in
  length (s_invtransform st) = length buf /\
  (forall i, (i < n)%nat -> s_invtransform st !! i = Some (stored i)) /\
  (forall i, (n <= i)%nat -> s_invtransform st !! i = buf !! i) /\
  s_allequal st = forallb (fun i => coeffs_eq (stored i) (stored 0%nat)) (seq 0 n) /\
  s_calls st = map (shutter_call range invert alloc) (seq 0 n) /\
  s_size st = alloc.
Proof.
  induction n as [|n IH]; intros Hn.
  - simpl. repeat split; auto; intros; lia.
  - destruct IH as (Hlen & Hlt & Hge & Heq & Hcalls & Hsize); [lia|].
    cbv zeta. rewrite fold_left_seq_S, forallb_seq_S, map_seq_S.
    set (st := fold_left _ (seq 0 n) _) in *.
    destruct (shutter_body_spec st n) as (Ei & Ea & Ec & Es & _); [lia|].
    rewrite Ei, Ea, Ec, Es. clear Ei Ea Ec Es.
    split; [now rewrite length_insert|].
    split; [|split; [|split; [|split]]].
    + intros i Hi. destruct (decide (i = n)) as [->|Hne].
      * apply list_lookup_insert_eq. lia.
      * rewrite list_lookup_insert_ne by congruence. apply Hlt. lia.
    + intros i Hi. rewrite list_lookup_insert_ne by lia. apply Hge. lia.
    + rewrite Heq. f_equal. f_equal.
      destruct n as [|n'].
      * apply list_lookup_total_insert_eq. lia.
      * rewrite list_lookup_total_insert_ne by lia.
        apply list_lookup_total_correct. apply Hlt. lia.
    + rewrite Hcalls. reflexivity.
    + exact Hsize.
Qed.

End Shutter.


(** *** Directional-blur mode *)

Section Blur.

Variables (time : double) (c2p p2c : Matrix3x3) (invert : bool)
          (amountFrom amountTo : double) (alloc : nat).

Local Abbreviation call i := (blur_call time invert amountFrom amountTo alloc i).

Local Abbreviation storedb i :=
  (match outcome_of (call i) with
   | Some m => mat_mul (mat_mul c2p m) p2c
   | None => dummyTransform
   end).

Local Abbreviation succs n := (filter (fun i => is_Some (outcome_of (call i))) (seq 0 n)).

Local Abbreviation body :=
  (getInverseTransformsBlur_body time c2p p2c invert amountFrom amountTo alloc).

Lemma succs_S n :
  succs (S n) = succs n ++ match outcome_of (call n) with Some _ => [n] | None => [] end.
Proof.
  rewrite seq_S, filter_app. f_equal. cbn [Nat.add].
  destruct (outcome_of (call n)) eqn:E.
  - rewrite filter_cons_True by (rewrite E; eauto). reflexivity.
  - rewrite filter_cons_False by (rewrite E; intros []; discriminate). reflexivity.
Qed.

Lemma succs_length n : (length (succs n) <= n)%nat.
Proof. etransitivity; [apply length_filter|]. now rewrite length_seq. Qed.

(** What the two arrays hold after [n] iterations: slot [j] is written
    by the [j]-th iteration that succeeds; the slots from the count on
    are as the caller left them. *)
Local Abbreviation filled n f before after := (filled_by (succs n) f before after).

Lemma filled_skip {A} n (f : nat -> A) before after :
  outcome_of (call n) = None ->
  filled n f before after -> filled (S n) f before after.
Proof.
  intros E (Hl & Hs & Hr). unfold filled_by. rewrite succs_S, E, app_nil_r. auto.
Qed.

Lemma filled_store {A} n (f : nat -> A) before after m :
  outcome_of (call n) = Some m -> (n < length before)%nat ->
  filled n f before after ->
  filled (S n) f before (<[length (succs n) := f n]> after).
Proof.
  intros E Hn (Hl & Hs & Hr). unfold filled_by. rewrite succs_S, E.
  pose proof (succs_length n) as Hk.
  split; [now rewrite length_insert|]. split.
  - intros j i Hj. destruct (decide (j = length (succs n))) as [->|Hne].
    + rewrite lookup_app_r in Hj by lia. rewrite Nat.sub_diag in Hj.
      injection Hj as <-. apply list_lookup_insert_eq. lia.
    + rewrite list_lookup_insert_ne by congruence.
      apply Hs. destruct (decide (j < length (succs n))%nat) as [Hlt|Hge].
      * now rewrite lookup_app_l in Hj.
      * rewrite lookup_app_r in Hj by lia.
        destruct (j - length (succs n))%nat as [|d] eqn:Ed; [lia|].
        destruct d; discriminate.
  - intros j Hj. rewrite length_app in Hj. cbn [length] in Hj.
    rewrite list_lookup_insert_ne by lia. apply Hr. lia.
Qed.

Lemma blur_fold buf (amt : option (list double)) n :
  (n <= length buf)%nat ->
  (forall a, amt = Some a -> (n <= length a)%nat) ->
  let st :=
    fold_left body (seq 0 n)
      {| s_invtransform := buf; s_amount := amt; s_size := 0;
         s_allequal := true; s_calls := [] |} in
  s_size st = length (succs n) /\
  filled n (fun i => storedb i) buf (s_invtransform st) /\
  match amt, s_amount st with
  | Some a, Some a' => filled n (blur_amount amountFrom amountTo alloc) a a'
  | None, None => True
  | _, _ => False
  end /\
  s_calls st = map (fun i => call i) (seq 0 n).
Proof.
  induction n as [|n IH]; intros Hn Ha.
  - simpl. unfold filled_by. simpl.
    repeat split; auto; try (intros; discriminate).
    destruct amt; repeat split; auto; intros; discriminate.
  - destruct IH as (Hsize & Hinv & Hamt & Hcalls); [lia | intros a E; specialize (Ha a E); lia |].
    cbv zeta. rewrite fold_left_seq_S, map_seq_S.
    set (st := fold_left _ (seq 0 n) _) in *.
    unfold getInverseTransformsBlur_body.
    fold (call n). change (getInverseTransformCanonical time _ invert)
      with (outcome_of (call n)).
    destruct (outcome_of (call n)) as [m|] eqn:E;
      cbn [s_size s_invtransform s_amount s_calls].
    + split; [rewrite succs_S, E, length_app, Hsize; cbn [length]; lia|].
      rewrite Hsize. split; [|split].
      * pose proof (filled_store n (fun i => storedb i) buf _ m E Hn Hinv) as H.
        cbv beta in H. rewrite E in H at 1. exact H.
      * destruct amt as [a|], (s_amount st) as [a'|]; try contradiction; [|exact I].
        apply (filled_store n _ a a' m E); [|exact Hamt].
        specialize (Ha a eq_refl). lia.
      * now rewrite Hcalls.
    + split; [now rewrite succs_S, E, app_nil_r|]. split; [|split].
      * now apply filled_skip.
      * destruct amt as [a|], (s_amount st) as [a'|]; try contradiction; [|exact I].
        now apply filled_skip.
      * now rewrite Hcalls.
Qed.

(** The count is the number of successful iterations, whatever the
    arrays are. *)
Lemma blur_body_size (st : Samples) i :
  s_size (body st i) =
  (s_size st + length (match outcome_of (call i) with Some _ => [i] | None => [] end))%nat.
Proof.
  unfold getInverseTransformsBlur_body, outcome_of, blur_call.
  cbn [call_time call_amount call_invert].
  destruct (getInverseTransformCanonical _ _ _); cbn [s_size length]; lia.
Qed.

Lemma blur_fold_size (st0 : Samples) n :
  s_size (fold_left body (seq 0 n) st0) = (s_size st0 + length (succs n))%nat.
Proof.
  induction n as [|n IH]; [simpl; lia|].
  rewrite fold_left_seq_S, succs_S, length_app, blur_body_size, IH. lia.
Qed.

(** When no call fails, slot and iteration coincide and the running flag
    compares what was just written with the first sample. *)
Lemma blur_fold_no_failure buf (amt : option (list double)) n :
  (n <= length buf)%nat ->
  (forall i, (i < n)%nat -> is_Some (outcome_of (call i))) ->
  let st :=
    fold_left body (seq 0 n)
      {| s_invtransform := buf; s_amount := amt; s_size := 0;
         s_allequal := true; s_calls := [] |} in
  s_size st = n /\
  length (s_invtransform st) = length buf /\
  (forall i, (i < n)%nat -> s_invtransform st !! i = Some (storedb i)) /\
  s_allequal st = forallb (fun i => coeffs_eq (storedb i) (storedb 0%nat)) (seq 0 n).
Proof.
  induction n as [|n IH]; intros Hn Hok.
  - simpl. repeat split; auto; intros; lia.
  - destruct IH as (Hsize & Hlen & Hlt & Heq); [lia | intros i Hi; apply Hok; lia |].
    cbv zeta. rewrite fold_left_seq_S, forallb_seq_S.
    set (st := fold_left _ (seq 0 n) _) in *.
    unfold getInverseTransformsBlur_body.
    fold (call n). change (getInverseTransformCanonical time _ invert)
      with (outcome_of (call n)).
    destruct (Hok n ltac:(lia)) as [m E]. rewrite E.
    cbn [s_size s_invtransform s_allequal]. rewrite Hsize.
    split; [reflexivity|]. split; [now rewrite length_insert|]. split.
    * intros i Hi. destruct (decide (i = n)) as [->|Hne].
      -- rewrite E. apply list_lookup_insert_eq. lia.
      -- rewrite list_lookup_insert_ne by congruence. apply Hlt. lia.
    * rewrite Heq. f_equal.
      rewrite list_lookup_total_insert_eq by lia. f_equal.
      destruct n as [|n'].
      -- rewrite E. apply list_lookup_total_insert_eq. lia.
      -- rewrite list_lookup_total_insert_ne by lia.
         apply list_lookup_total_correct. apply Hlt. lia.
Qed.

End Blur.

(** The state of the array, the returned size and the calls of
    [getInverseTransforms]. *)
Lemma getInverseTransforms_spec
    time renderscale fielded par invert shutter shutteroffset shuttercustomoffset
    (invtransform : list Matrix3x3) alloc :
  (alloc <= length invtransform)%nat ->
  let range := shutterRange time shutter shutteroffset shuttercustomoffset in
  let stored i :=
    stored_for renderscale fielded par (outcome_of (shutter_call range invert alloc i)) in
  let '(inv, size, calls) :=
    getInverseTransforms time renderscale fielded par invert shutter shutteroffset
      shuttercustomoffset invtransform alloc in
  length inv = length invtransform /\
  (forall i, (i < alloc)%nat -> inv !! i = Some (stored i)) /\
  (forall i, (alloc <= i)%nat -> inv !! i = invtransform !! i) /\
  size = (if allEqualToFirst alloc inv then 1 else alloc)%nat /\
  calls = map (shutter_call range invert alloc) (seq 0 alloc).
Proof.
  intros Hlen range stored. unfold getInverseTransforms.
  fold range.
  set (c2p := ofxsMatCanonicalToPixel _ _ _ _).
  set (p2c := ofxsMatPixelToCanonical _ _ _ _).
  destruct (shutter_fold range c2p p2c invert alloc invtransform alloc Hlen)
    as (Hl & Hlt & Hge & Heq & Hcalls & Hsize).
  set (st := fold_left _ _ _) in *.
  split; [exact Hl|]. split; [exact Hlt|]. split; [exact Hge|]. split; [|exact Hcalls].
  rewrite Hsize. replace (allEqualToFirst alloc (s_invtransform st)) with (s_allequal st);
    [reflexivity|].
  rewrite Heq. unfold allEqualToFirst. apply forallb_ext_in.
  intros i Hi. apply in_seq in Hi.
  assert (H0 : (0 < alloc)%nat) by lia.
  rewrite (list_lookup_total_correct (s_invtransform st) i _ (Hlt i (proj2 Hi))).
  rewrite (list_lookup_total_correct (s_invtransform st) 0%nat _ (Hlt 0%nat H0)).
  reflexivity.
Qed.

(** The arrays, the returned size and the calls of
    [getInverseTransformsBlur]. *)
Lemma getInverseTransformsBlur_spec
    time renderscale fielded par invert amountFrom amountTo
    (invtransform : list Matrix3x3) (amount : option (list double)) alloc :
  (alloc <= length invtransform)%nat ->
  (forall a, amount = Some a -> (alloc <= length a)%nat) ->
  let succs := blur_successes time invert amountFrom amountTo alloc in
  let stored i :=
    stored_for renderscale fielded par
      (outcome_of (blur_call time invert amountFrom amountTo alloc i)) in
  let '(inv, amt, size, calls) :=
    getInverseTransformsBlur time renderscale fielded par invert amountFrom amountTo
      invtransform amount alloc in
  filled_by succs stored invtransform inv /\
  match amount, amt with
  | Some a, Some a' => filled_by succs (blur_amount amountFrom amountTo alloc) a a'
  | None, None => True
  | _, _ => False
  end /\
  (size = length succs \/ size = 1%nat /\ succs <> []) /\
  calls = map (blur_call time invert amountFrom amountTo alloc) (seq 0 alloc).
Proof.
  intros Hlen Hamt succs stored. unfold getInverseTransformsBlur.
  set (c2p := ofxsMatCanonicalToPixel _ _ _ _).
  set (p2c := ofxsMatPixelToCanonical _ _ _ _).
  destruct (blur_fold time c2p p2c invert amountFrom amountTo alloc invtransform amount
              alloc Hlen Hamt) as (Hsize & Hinv & Ha & Hcalls).
  set (st := fold_left _ _ _) in *.
  change (filter _ (seq 0 alloc)) with succs in *.
  split; [exact Hinv|]. split; [exact Ha|]. split; [|exact Hcalls].
  rewrite Hsize. destruct (length succs) eqn:E; cbn [Nat.eqb negb andb]; [now left|].
  destruct (s_allequal st); [right|now left].
  split; [reflexivity|]. intros ->. discriminate.
Qed.


Lemma no_failure_all_succeed time invert amountFrom amountTo alloc :
  blur_failures time invert amountFrom amountTo alloc = [] ->
  forall i, (i < alloc)%nat ->
    is_Some (outcome_of (blur_call time invert amountFrom amountTo alloc i)).
Proof.
  intros H i Hi. unfold outcome_of, blur_call. cbn [call_time call_amount call_invert].
  destruct (getInverseTransformCanonical _ _ _) eqn:E; [eauto|].
  assert (Hin : i ∈ blur_failures time invert amountFrom amountTo alloc).
  { apply list_elem_of_filter. split; [exact E|].
    apply list_elem_of_In, in_seq. lia. }
  rewrite H in Hin. inversion Hin.
Qed.

End Samplers.

(** ** Failure of the callback in the samplers *)

Section SamplerClaims.

Context {support : Support} {effect : Effect}.

Variables (time : double) (renderscale : OfxPointD) (fielded : bool) (par : double)
          (invert : bool).

Lemma getInverseTransformsBlur_no_failure amountFrom amountTo
    (invtransform : list Matrix3x3) (amount : option (list double)) alloc :
  (alloc <= length invtransform)%nat ->
  blur_failures time invert amountFrom amountTo alloc = [] ->
  let '(inv, _, size, _) :=
    getInverseTransformsBlur time renderscale fielded par invert amountFrom amountTo
      invtransform amount alloc in
  (forall i, (i < alloc)%nat ->
     inv !! i = Some (stored_for renderscale fielded par
                        (outcome_of (blur_call time invert amountFrom amountTo alloc i)))) /\
  size = (if negb (Nat.eqb alloc 0) && allEqualToFirst alloc inv then 1 else alloc)%nat.
Proof.
  intros Hlen Hnone. unfold getInverseTransformsBlur.
  set (c2p := ofxsMatCanonicalToPixel _ _ _ _).
  set (p2c := ofxsMatPixelToCanonical _ _ _ _).
  destruct (blur_fold_no_failure time c2p p2c invert amountFrom amountTo alloc
              invtransform amount alloc Hlen
              (no_failure_all_succeed _ _ _ _ _ Hnone)) as (Hsize & _ & Hlt & Heq).
  set (st := fold_left _ _ _) in *.
  split; [exact Hlt|]. rewrite Hsize.
  replace (allEqualToFirst alloc (s_invtransform st)) with (s_allequal st); [reflexivity|].
  rewrite Heq. unfold allEqualToFirst. apply forallb_ext_in.
  intros i Hi. apply in_seq in Hi.
  assert (H0 : (0 < alloc)%nat) by lia.
  rewrite (list_lookup_total_correct (s_invtransform st) i _ (Hlt i (proj2 Hi))).
  rewrite (list_lookup_total_correct (s_invtransform st) 0%nat _ (Hlt 0%nat H0)).
  reflexivity.
Qed.

Lemma getInverseTransformsBlur_all_fail amountFrom amountTo
    (invtransform : list Matrix3x3) (amount : option (list double)) alloc :
  blur_successes time invert amountFrom amountTo alloc = [] ->
  (getInverseTransformsBlur time renderscale fielded par invert amountFrom amountTo
     invtransform amount alloc).1.2 = 0%nat.
Proof.
  intros Hnone. unfold getInverseTransformsBlur. cbn [fst snd].
  rewrite blur_fold_size. cbn [s_size Nat.add].
  change (filter _ (seq 0 alloc)) with (blur_successes time invert amountFrom amountTo alloc).
  now rewrite Hnone.
Qed.

Lemma allEqualToFirst_constant (inv : list Matrix3x3) (alloc : nat) (R : Matrix3x3) :
  (forall i, (i < alloc)%nat -> inv !! i = Some R) ->
  coeffs_eq R R = true -> allEqualToFirst alloc inv = true.
Proof.
  intros Hinv HR. unfold allEqualToFirst. apply forallb_forall.
  intros i Hi. apply in_seq in Hi.
  assert (H0 : (0 < alloc)%nat) by lia.
  rewrite (list_lookup_total_correct inv i _ (Hinv i (proj2 Hi))).
  rewrite (list_lookup_total_correct inv 0%nat _ (Hinv 0%nat H0)). exact HR.
Qed.

End SamplerClaims.

Section OrderedBlurRuns.

Context {support : Support} {effect : Effect}.

Variables (time : double) (renderscale : OfxPointD) (fielded : bool) (par : double)
          (invert : bool) (amountFrom amountTo : double) (alloc : nat).




End OrderedBlurRuns.




(** After a failed call the directional-blur sampler compares the slot at
    the loop index, which it has not written yet, with the first slot: in a
    buffer of identity matrices, a failure followed by the identity, a
    translation and the identity returns size 1, though the second stored
    sample differs from the first. *)
Lemma blur_flag_collapses_distinct_samples :
  let r :=
    @getInverseTransformsBlur Reference.support ReferenceActions.patchy
      Double.zero Reference.unitScale false Double.one false Double.zero Double.one
      (replicate 4 identityMatrix) None 4 in
  map (fun i => @outcome_of ReferenceActions.patchy
                  (blur_call Double.zero false Double.zero Double.one 4 i)) (seq 0 4) =
    [None; Some identityMatrix;
     Some (Reference.translation Double.one (Double.one / Double.of_Z 4)%D false);
     Some (Reference.translation Double.one Double.zero false)] /\
  r.1.2 = 1%nat /\
  allEqualToFirst 3 r.1.1.1 = false /\
  (exists m, r.1.1.1 !! 1%nat = Some m /\ coeffs_eq m identityMatrix = false).
Proof.
  intros r.
  eassert (E : r = (_, _, _, _)) by (vm_compute; reflexivity).
  clearbody r. subst r. cbn [fst snd].
  split; [vm_compute; reflexivity|]. split; [reflexivity|]. split; [vm_compute; reflexivity|].
  eexists. split; [reflexivity|vm_compute; reflexivity].
Qed.

(** ** Collapse of equal samples *)

(** C3 (amended).  In shutter mode, and in directional-blur mode with a
    positive capacity when no call fails, the returned size is 1 as soon as
    every produced sample compares equal to the first one; in particular a
    callback that returns one matrix whose pixel-space image compares equal
    to itself (no NaN coefficient) yields a set of size 1, whatever the
    shutter and the capacity.  A directional-blur run in which every call
    fails returns size 0. *)
Theorem collapse_when_all_equal {support : Support} {effect : Effect}
    (time : double) (renderscale : OfxPointD) (fielded : bool) (par : double) (invert : bool)
    (shutter : double) (shutteroffset : Z) (shuttercustomoffset amountFrom amountTo : double)
    (invtransform : list Matrix3x3) (amount : option (list double)) (alloc : nat)
    (inv : list Matrix3x3) (size : nat) (calls : list Call)
    (invb : list Matrix3x3) (amtb : option (list double)) (sizeb : nat) (callsb : list Call) :
  (alloc <= length invtransform)%nat ->
  getInverseTransforms time renderscale fielded par invert shutter shutteroffset
    shuttercustomoffset invtransform alloc = (inv, size, calls) ->
  getInverseTransformsBlur time renderscale fielded par invert amountFrom amountTo
    invtransform amount alloc = (invb, amtb, sizeb, callsb) ->
  (allEqualToFirst alloc inv = true -> size = 1%nat) /\
  ((0 < alloc)%nat -> blur_failures time invert amountFrom amountTo alloc = [] ->
   allEqualToFirst alloc invb = true -> sizeb = 1%nat) /\
  (forall m,
     (forall t a v, getInverseTransformCanonical t a v = Some m) ->
     coeffs_eq (toPixel renderscale fielded par m) (toPixel renderscale fielded par m) = true ->
     size = 1%nat /\ ((0 < alloc)%nat -> sizeb = 1%nat)) /\
  (blur_successes time invert amountFrom amountTo alloc = [] -> sizeb = 0%nat).
Proof.
  intros Hlen E1 E2.
  pose proof (getInverseTransforms_spec time renderscale fielded par invert shutter
                shutteroffset shuttercustomoffset invtransform alloc Hlen) as H1.
  cbv zeta in H1. rewrite E1 in H1. destruct H1 as (_ & Hlt & _ & Hsize & _).
  pose proof (getInverseTransformsBlur_no_failure time renderscale fielded par invert
                amountFrom amountTo invtransform amount alloc Hlen) as H2.
  rewrite E2 in H2.
  split; [|split; [|split]]; cycle 3.
  - intros Hnone.
    pose proof (getInverseTransformsBlur_all_fail time renderscale fielded par invert
                  amountFrom amountTo invtransform amount alloc Hnone) as H0.
    now rewrite E2 in H0.
  - intros Heq. now rewrite Hsize, Heq.
  - intros Hpos Hnone Heq. destruct (H2 Hnone) as [_ ->].
    rewrite Heq. destruct alloc; [lia|reflexivity].
  - intros m Hconst HR. split.
    + rewrite Hsize,
        (allEqualToFirst_constant inv alloc (toPixel renderscale fielded par m));
        [reflexivity| |exact HR].
      intros i Hi. rewrite (Hlt i Hi). unfold outcome_of. now rewrite Hconst.
    + intros Hpos.
      assert (Hnone : blur_failures time invert amountFrom amountTo alloc = []).
      { unfold blur_failures. induction (seq 0 alloc) as [|i l IH]; [reflexivity|].
        rewrite filter_cons_False by (rewrite Hconst; discriminate). exact IH. }
      destruct (H2 Hnone) as [Hltb ->].
      rewrite (allEqualToFirst_constant invb alloc (toPixel renderscale fielded par m));
        [| |exact HR].
      * destruct alloc; [lia|reflexivity].
      * intros i Hi. rewrite (Hltb i Hi). unfold outcome_of. now rewrite Hconst.
Qed.

Lemma collapse_when_all_equal_witness :
  let M := Reference.translation (Double.of_Z 3) Double.one false in
  (@getInverseTransforms Reference.support (Reference.constant M)
     Double.zero Reference.unitScale false Double.one false (Double.of_Z 2) 1%Z Double.zero
     (replicate 3 identityMatrix) 3).1.2 = 1%nat /\
  (@getInverseTransformsBlur Reference.support (Reference.constant M)
     Double.zero Reference.unitScale false Double.one false Double.zero Double.one
     (replicate 3 identityMatrix) None 3).1.2 = 1%nat.
Proof.
  intros M.
  eassert (E1 : @getInverseTransforms Reference.support (Reference.constant M)
                  Double.zero Reference.unitScale false Double.one false (Double.of_Z 2) 1%Z
                  Double.zero (replicate 3 identityMatrix) 3 = (_, _, _))
    by (vm_compute; reflexivity).
  eassert (E2 : @getInverseTransformsBlur Reference.support (Reference.constant M)
                  Double.zero Reference.unitScale false Double.one false Double.zero
                  Double.one (replicate 3 identityMatrix) None 3 = (_, _, _, _))
    by (vm_compute; reflexivity).
  destruct (@collapse_when_all_equal Reference.support (Reference.constant M)
              Double.zero Reference.unitScale false Double.one false (Double.of_Z 2) 1%Z
              Double.zero Double.zero Double.one (replicate 3 identityMatrix) None 3
              _ _ _ _ _ _ _ ltac:(simpl; lia) E1 E2)
    as (Hshutter & Hblur & _ & _).
  rewrite E1, E2. split.
  - apply Hshutter. vm_compute. reflexivity.
  - apply Hblur; [lia | vm_compute; reflexivity | vm_compute; reflexivity].
Defined.

(** C3, as stated, fails: a directional-blur run in which every call fails
    produces no sample and returns size 0; a shutter run over a callback
    that returns one matrix with a NaN coefficient keeps its full size,
    since a NaN does not compare equal to itself. *)
Lemma collapse_counterexample :
  (@getInverseTransformsBlur Reference.support Reference.failing
     Double.zero Reference.unitScale false Double.one false Double.zero Double.one
     (replicate 2 identityMatrix) None 2).1.2 = 0%nat /\
  (@getInverseTransforms Reference.support (Reference.constant Reference.nanMatrix)
     Double.zero Reference.unitScale false Double.one false (Double.of_Z 2) 1%Z Double.zero
     (replicate 2 identityMatrix) 2).1.2 = 2%nat.
Proof. split; reflexivity. Qed.

(** In directional-blur mode the running flag compares the slot of the
    loop index with slot 0, not the slot that was just written.  After a
    failed call the two differ: here the first call fails, the three others
    return the same matrix, the three stored samples are equal, and the
    returned size is 3. *)
Lemma blur_flag_reads_unwritten_slot :
  let M := Reference.translation (Double.of_Z 3) Double.one false in
  let '(inv, _, size, _) :=
    @getInverseTransformsBlur Reference.support (Reference.partial M)
      Double.zero Reference.unitScale false Double.one false Double.zero Double.one
      (replicate 4 identityMatrix) None 4 in
  allEqualToFirst 3 inv = true /\ size = 3%nat.
Proof. split; reflexivity. Qed.

(** ** The schedule of the directional-blur sampler *)

Section RenderPath.

Context {support : Support} {effect : Effect}.

(** The render action reaches the directional-blur sampler exactly when
    the evaluated [directionalBlur] is set, and then with a capacity of
    [kTransform3x3MotionBlurCount]. *)
Lemma setupAndProcess_directionalBlur (P : Params) (args : RenderArguments) (src : SrcImage) :
  src_sameDepthAndComponents src = true ->
  getValueAtTime (_directionalBlur P) (ra_time args) (isNull (_directionalBlur P)) = true ->
  snd (setupAndProcess P args (Some src)) =
    map (blur_call (ra_time args) (getValueAtTime (_invert P) (ra_time args) false)
           (fst (amountRange P (ra_time args))) (snd (amountRange P (ra_time args)))
           kTransform3x3MotionBlurCount)
        (seq 0 kTransform3x3MotionBlurCount).
Proof.
  intros Hsame Hdir. unfold setupAndProcess.
  destruct (amountRange P (ra_time args)) as [amountFrom amountTo]. cbn [fst snd].
  rewrite Hsame, Hdir. cbn [negb].
  change ((Double.zero !=? Double.zero)%D) with false. cbn [andb].
  pose proof (getInverseTransformsBlur_spec (ra_time args) (ra_renderScale args)
                (ra_fielded args) (src_pixelAspectRatio src)
                (getValueAtTime (_invert P) (ra_time args) false) amountFrom amountTo
                (replicate kTransform3x3MotionBlurCount Matrix3x3_default)
                (Some (replicate kTransform3x3MotionBlurCount Double.zero))
                kTransform3x3MotionBlurCount) as H.
  cbv zeta in H.
  destruct (getInverseTransformsBlur _ _ _ _ _ _ _ _ _ _)
    as [[[inv alpha] size] calls] eqn:E.
  cbn [snd]. apply H.
  - apply Nat.eq_le_incl. symmetry. apply length_replicate.
  - intros a Ha.
    assert (Ea : a = replicate kTransform3x3MotionBlurCount Double.zero) by congruence.
    rewrite Ea. apply Nat.eq_le_incl. symmetry. apply length_replicate.
Qed.

End RenderPath.

(** C4 (amended).  The directional-blur sampler iterates as many times as
    its capacity, which is 1000 ([kTransform3x3MotionBlurCount]) on the
    render path; iteration [i] calls the effect with the amount
    [amountFrom + (amountTo - amountFrom) * a] for
    [a = 1 - (i+1)/capacity]; each stored sample carries that raw amount as
    its weight.  With 1000 iterations the fraction never is 1 and is 0 at
    the last iteration: the spacing leaves [amountTo] out and ends on
    [amountFrom] (for finite amounts whose difference is finite). *)
Theorem directional_blur_schedule {support : Support} {effect : Effect}
    (time : double) (renderscale : OfxPointD) (fielded : bool) (par : double) (invert : bool)
    (amountFrom amountTo : double)
    (invtransform : list Matrix3x3) (amount : list double) (alloc : nat)
    (inv : list Matrix3x3) (amt : option (list double)) (size : nat) (calls : list Call) :
  (alloc <= length invtransform)%nat ->
  (alloc <= length amount)%nat ->
  getInverseTransformsBlur time renderscale fielded par invert amountFrom amountTo
    invtransform (Some amount) alloc = (inv, amt, size, calls) ->
  calls =
    map (fun i =>
           mkCall time
             (amountFrom + (amountTo - amountFrom) *
                (Double.one - Double.of_nat (i + 1) / Double.of_nat alloc))%D
             invert)
        (seq 0 alloc) /\
  (exists alpha, amt = Some alpha /\
     forall j i, blur_successes time invert amountFrom amountTo alloc !! j = Some i ->
       alpha !! j = Some (blur_amount amountFrom amountTo alloc i) /\
       exists m, getInverseTransformCanonical time
                   (blur_amount amountFrom amountTo alloc i) invert = Some m /\
                 inv !! j = Some (toPixel renderscale fielded par m)) /\
  (forall P args src,
     src_sameDepthAndComponents src = true ->
     getValueAtTime (_directionalBlur P) (ra_time args) (isNull (_directionalBlur P)) = true ->
     length (snd (setupAndProcess P args (Some src))) = 1000%nat) /\
  blur_fraction 1000 999 = Double.zero /\
  forallb (fun i => (blur_fraction 1000 i !=? Double.one)%D) (seq 0 1000) = true /\
  (Double.is_finite amountFrom = true ->
   Double.is_finite (amountTo - amountFrom)%D = true ->
   (blur_amount amountFrom amountTo 1000 999 ==? amountFrom)%D = true).
Proof.
  intros Hlen Hamt E.
  pose proof (getInverseTransformsBlur_spec time renderscale fielded par invert
                amountFrom amountTo invtransform (Some amount) alloc Hlen
                ltac:(now intros a [= <-])) as H.
  cbv zeta in H. rewrite E in H. destruct H as ((_ & Hs & _) & Ha & _ & Hcalls).
  assert (Hlast : blur_fraction 1000 999 = Double.zero) by (vm_compute; reflexivity).
  split; [exact Hcalls|]. split; [|split; [|split; [|split]]]; cycle 4.
  - intros Hfrom Hdiff. unfold blur_amount. rewrite Hlast.
    now apply DoubleFacts.add_mul_zero.
  - destruct amt as [alpha|]; [|contradiction]. exists alpha. split; [reflexivity|].
    destruct Ha as (_ & Hal & _).
    intros j i Hj. split; [exact (Hal j i Hj)|].
    assert (Hin : i ∈ blur_successes time invert amountFrom amountTo alloc)
      by (eapply list_elem_of_lookup_2; eauto).
    apply list_elem_of_filter in Hin. destruct Hin as [[m Hm] _].
    exists m. split; [exact Hm|]. rewrite (Hs j i Hj).
    unfold outcome_of, blur_call. cbn [call_time call_amount call_invert].
    now rewrite Hm.
  - intros P args src Hsame Hdir.
    rewrite (setupAndProcess_directionalBlur P args src Hsame Hdir).
    now rewrite length_map, length_seq.
  - exact Hlast.
  - vm_compute. reflexivity.
Qed.

Lemma directional_blur_schedule_witness :
  let M := Reference.translation (Double.of_Z 3) Double.one false in
  let r :=
    @getInverseTransformsBlur Reference.support (Reference.partial M)
      Double.zero Reference.unitScale false Double.one false Double.zero Double.one
      (replicate 4 identityMatrix) (Some (replicate 4 Double.zero)) 4 in
  map call_amount r.2 =
    [ (Double.of_Z 3 / Double.of_Z 4)%D; (Double.of_Z 2 / Double.of_Z 4)%D;
      (Double.of_Z 1 / Double.of_Z 4)%D; Double.zero ] /\
  exists alpha, r.1.1.2 = Some alpha /\
    alpha !! 0%nat = Some (Double.of_Z 2 / Double.of_Z 4)%D.
Proof.
  intros M r.
  eassert (E : r = (_, _, _, _)) by (vm_compute; reflexivity).
  destruct (@directional_blur_schedule Reference.support (Reference.partial M)
              Double.zero Reference.unitScale false Double.one false Double.zero Double.one
              (replicate 4 identityMatrix) (replicate 4 Double.zero) 4
              _ _ _ _ ltac:(simpl; lia) ltac:(simpl; lia) E)
    as (Hcalls & (alpha & Halpha & Hweights) & _).
  rewrite E. cbn [fst snd]. split.
  - rewrite Hcalls. vm_compute. reflexivity.
  - exists alpha. split; [exact Halpha|].
    destruct (Hweights 0%nat 1%nat ltac:(vm_compute; reflexivity)) as [Hw _].
    rewrite Hw. vm_compute. reflexivity.
Defined.

(** C4, as stated, fails: on the render path the sampler makes 1000 calls,
    not 8, and its last call is at [amountFrom] itself (here [0.]), while no
    call is at [amountTo] (here [1.]). *)
Lemma directional_blur_schedule_counterexample :
  let calls :=
    snd (@setupAndProcess Reference.support (Reference.constant identityMatrix)
           (Reference.dirBlurPlugin Double.one false)
           (Reference.renderArguments Double.zero) (Some Reference.srcImage)) in
  length calls = 1000%nat /\
  last calls = Some (mkCall Double.zero Double.zero false) /\
  forallb (fun c => (call_amount c !=? Double.one)%D) calls = true.
Proof. vm_compute. auto. Qed.

(** ** Region propagation *)

Section Region.

Context {support : Support} {effect : Effect}.

Variables (rectFrom : OfxRectD) (invert directionalBlur : bool)
          (amountFrom amountTo : double) (range : OfxRangeD).

Local Abbreviation body :=
  (transformRegion_body rectFrom invert directionalBlur amountFrom amountTo range).
Local Abbreviation loop budget :=
  (transformRegion_loop budget rectFrom invert directionalBlur amountFrom amountTo range).
Local Abbreviation sample := (sample_at rectFrom invert amountFrom amountTo).
Local Abbreviation call := (call_at invert amountFrom amountTo).

Lemma body_failure st :
  sample (rs_cursor st) = None ->
  body st = Return infiniteRect (rs_calls st ++ [call (rs_cursor st)]).
Proof.
  unfold sample_at, transformRegion_body.
  destruct (getInverseTransformCanonical _ _ _); [discriminate|reflexivity].
Qed.

Lemma body_success st p thisRoD :
  sample (rs_cursor st) = Some (p, thisRoD) ->
  body st =
    Continue
      {| rs_cursor :=
           if c_last (rs_cursor st) then rs_cursor st
           else advance directionalBlur range (rs_cursor st);
         rs_rectTo := rectBoundingBox (rs_rectTo st) thisRoD;
         rs_first := false;
         rs_finished := c_last (rs_cursor st);
         rs_expand :=
           fold_left Double.max (consecutive_displacements (previous st ++ [p]))
             (rs_expand st);
         rs_p_prev := if c_last (rs_cursor st) then rs_p_prev st else p;
         rs_calls := rs_calls st ++ [call (rs_cursor st)] |}.
Proof.
  unfold sample_at, transformRegion_body, previous.
  destruct (getInverseTransformCanonical _ _ _) as [transform|]; [|discriminate].
  intros H.
  assert (E : ofxsTransformRegionFromRoD rectFrom transform = (p, thisRoD)) by congruence.
  rewrite E. clear H E.
  replace (fold_left Double.max _ (rs_expand st))
    with (if rs_first st then rs_expand st
          else update_expand (rs_expand st) (rs_p_prev st) p).
  - destruct (c_last (rs_cursor st)); reflexivity.
  - destruct (rs_first st); [reflexivity|].
    unfold update_expand. cbn [app consecutive_displacements].
    now rewrite app_nil_r.
Qed.

Lemma displacements_step prev p ps expand :
  (length prev <= 1)%nat ->
  fold_left Double.max (consecutive_displacements (prev ++ p :: ps)) expand =
  fold_left Double.max (consecutive_displacements (p :: ps))
    (fold_left Double.max (consecutive_displacements (prev ++ [p])) expand).
Proof.
  destruct prev as [|pp [|? ?]]; cbn [length app]; intros H; [reflexivity| |lia].
  destruct ps as [|p' ps].
  - cbn [consecutive_displacements fold_left]. reflexivity.
  - change (consecutive_displacements (pp :: p :: p' :: ps))
      with (corner_displacements pp p ++ consecutive_displacements (p :: p' :: ps)).
    rewrite fold_left_app. cbn [consecutive_displacements]. now rewrite app_nil_r.
Qed.

Lemma previous_length st : (length (previous st) <= 1)%nat.
Proof. unfold previous. destruct (rs_first st); simpl; lia. Qed.

(** A walk on which every call succeeds: the loop ends after its last
    cursor with the union of the boxes, expanded by the largest
    displacement. *)
Lemma loop_run rest : forall st ss budget,
  rs_finished st = false ->
  is_walk directionalBlur range (rs_cursor st) rest ->
  Forall2 (fun c s => sample c = Some s) (rs_cursor st :: rest) ss ->
  (length rest < budget)%nat ->
  loop budget st =
    Some (expandRegion
            (fold_left rectBoundingBox (map snd ss) (rs_rectTo st))
            (fold_left Double.max
               (consecutive_displacements (previous st ++ map fst ss)) (rs_expand st)),
          rs_calls st ++ map call (rs_cursor st :: rest)).
Proof.
  induction rest as [|c' rest IH]; intros st ss budget Hfin Hwalk Hss Hb.
  - cbn [is_walk] in Hwalk.
    inversion Hss as [|c [p r] ? ss' Hs Hnil]; subst. inversion Hnil; subst.
    destruct budget as [|budget]; [simpl in Hb; lia|].
    cbn [transformRegion_loop]. rewrite Hfin, (body_success st p r Hs), Hwalk.
    destruct budget; reflexivity.
  - cbn [is_walk] in Hwalk. destruct Hwalk as (Hlast & -> & Hwalk).
    inversion Hss as [|c [p r] ? ss' Hs Hrest]; subst.
    destruct budget as [|budget]; [simpl in Hb; lia|].
    cbn [transformRegion_loop]. rewrite Hfin, (body_success st p r Hs), Hlast.
    rewrite (IH _ ss' budget); cbn [rs_finished rs_cursor rs_rectTo rs_expand rs_calls];
      [|reflexivity|exact Hwalk|exact Hrest|simpl in Hb; lia].
    cbn [map snd fst fold_left]. f_equal. f_equal.
    + f_equal. unfold previous at 1. cbn [rs_first rs_p_prev app].
      symmetry. apply displacements_step, previous_length.
    + rewrite <- app_assoc. reflexivity.
Qed.

Lemma last_nonempty {A} (l : list A) : forall a d d',
  List.last (a :: l) d = List.last (a :: l) d'.
Proof.
  induction l as [|b l IH]; intros a d d'; [reflexivity|].
  change (List.last (b :: l) d = List.last (b :: l) d'). apply IH.
Qed.

(** A walk whose last call fails, after calls that succeed: the loop
    leaves the function with the unbounded rectangle. *)
Lemma loop_failure rest : forall st budget,
  rs_finished st = false ->
  is_walk_prefix directionalBlur range (rs_cursor st) rest ->
  Forall (fun c => is_Some (sample c)) (removelast (rs_cursor st :: rest)) ->
  sample (List.last rest (rs_cursor st)) = None ->
  (length rest < budget)%nat ->
  loop budget st = Some (infiniteRect, rs_calls st ++ map call (rs_cursor st :: rest)).
Proof.
  induction rest as [|c' rest IH]; intros st budget Hfin Hwalk Hok Hfail Hb.
  - cbn [List.last] in Hfail.
    destruct budget as [|budget]; [simpl in Hb; lia|].
    cbn [transformRegion_loop]. now rewrite Hfin, (body_failure st Hfail).
  - cbn [is_walk_prefix] in Hwalk. destruct Hwalk as (Hlast & -> & Hwalk).
    change (removelast (rs_cursor st :: advance directionalBlur range (rs_cursor st) :: rest))
      with (rs_cursor st :: removelast (advance directionalBlur range (rs_cursor st) :: rest))
      in Hok.
    inversion Hok as [|? ? [[p r] Hs] Hok']; subst.
    destruct budget as [|budget]; [simpl in Hb; lia|].
    cbn [transformRegion_loop]. rewrite Hfin, (body_success st p r Hs), Hlast.
    rewrite (IH _ budget); cbn [rs_finished rs_cursor rs_calls];
      [|reflexivity|exact Hwalk|exact Hok'| |simpl in Hb; lia].
    + rewrite <- app_assoc. reflexivity.
    + destruct rest as [|c rest]; [exact Hfail|].
      rewrite (last_nonempty rest c _ (rs_cursor st)). exact Hfail.
Qed.

(** On a walk, the loop returns within as many iterations as the walk has
    cursors, whatever the calls answer. *)
Lemma loop_terminates rest : forall st budget,
  rs_finished st = false ->
  is_walk directionalBlur range (rs_cursor st) rest ->
  (length rest < budget)%nat ->
  is_Some (loop budget st).
Proof.
  induction rest as [|c' rest IH]; intros st budget Hfin Hwalk Hb;
    (destruct budget as [|budget]; [simpl in Hb; lia|]);
    cbn [transformRegion_loop]; rewrite Hfin;
    (destruct (sample (rs_cursor st)) as [[p r]|] eqn:Hs;
       [rewrite (body_success st p r Hs) | rewrite (body_failure st Hs); eauto]).
  - cbn [is_walk] in Hwalk. rewrite Hwalk. destruct budget; cbn; eauto.
  - cbn [is_walk] in Hwalk. destruct Hwalk as (Hlast & -> & Hwalk). rewrite Hlast.
    apply IH; [reflexivity|exact Hwalk|simpl in Hb; lia].
Qed.

(** In shutter mode, a time that is its own next quarter frame and lies
    below the end of the range is never left: the loop does not finish. *)
Lemma loop_stalls budget : forall st,
  directionalBlur = false ->
  rs_finished st = false ->
  c_last (rs_cursor st) = false ->
  next_quarter_frame (c_t (rs_cursor st)) = c_t (rs_cursor st) ->
  (c_t (rs_cursor st) >=? range_max range)%D = false ->
  is_Some (sample (rs_cursor st)) ->
  loop budget st = None.
Proof.
  induction budget as [|budget IH]; intros st Hdir Hfin Hlast Hfix Hbelow [[p r] Hs];
    cbn [transformRegion_loop]; rewrite Hfin; [reflexivity|].
  rewrite (body_success st p r Hs), Hlast.
  assert (Hadv : advance directionalBlur range (rs_cursor st) = rs_cursor st).
  { unfold advance. rewrite Hdir, Hfix, Hbelow. now destruct (rs_cursor st). }
  rewrite Hadv. apply IH; cbn [rs_cursor rs_finished]; eauto.
Qed.

(** Every call of the loop carries the [invert] it was given. *)
Lemma loop_calls_invert budget : forall st rectTo calls,
  Forall (fun c => call_invert c = invert) (rs_calls st) ->
  loop budget st = Some (rectTo, calls) ->
  Forall (fun c => call_invert c = invert) calls.
Proof.
  induction budget as [|budget IH]; intros st rectTo calls Hst; cbn [transformRegion_loop].
  - destruct (rs_finished st); [|discriminate]. now intros [= _ <-].
  - destruct (rs_finished st); [now intros [= _ <-]|].
    assert (Hcalls : Forall (fun c => call_invert c = invert)
                       (rs_calls st ++ [call (rs_cursor st)])).
    { apply Forall_app. split; [exact Hst|]. now repeat constructor. }
    destruct (sample (rs_cursor st)) as [[p r]|] eqn:Hs.
    + rewrite (body_success st p r Hs). apply IH. exact Hcalls.
    + rewrite (body_failure st Hs). now intros [= _ <-].
Qed.

End Region.

Section Walk.

Context {support : Support} {effect : Effect}.

Variables (directionalBlur : bool) (range : OfxRangeD) (hasmotionblur : bool).

Local Abbreviation cursor j := (cursor_at directionalBlur range hasmotionblur j).

Lemma cursor_at_S j : cursor (S j) = advance directionalBlur range (cursor j).
Proof. reflexivity. Qed.

Lemma cursors_cons n :
  cursors directionalBlur range hasmotionblur n
  = cursor 0 :: map (fun j => cursor j) (seq 1 n).
Proof. reflexivity. Qed.

Lemma walk_from k n :
  c_last (cursor (k + n)) = true ->
  (forall j, (k <= j < k + n)%nat -> c_last (cursor j) = false) ->
  is_walk directionalBlur range (cursor k) (map (fun j => cursor j) (seq (S k) n)).
Proof.
  revert k. induction n as [|n IH]; intros k Hlast Hbefore; cbn [seq map is_walk].
  - now rewrite Nat.add_0_r in Hlast.
  - split; [apply Hbefore; lia|]. split; [reflexivity|].
    apply IH.
    + now rewrite Nat.add_succ_comm.
    + intros j Hj. apply Hbefore. lia.
Qed.

Lemma walk_prefix_from k n :
  (forall j, (k <= j < k + n)%nat -> c_last (cursor j) = false) ->
  is_walk_prefix directionalBlur range (cursor k) (map (fun j => cursor j) (seq (S k) n)).
Proof.
  revert k. induction n as [|n IH]; intros k Hbefore; cbn [seq map is_walk_prefix].
  - exact I.
  - split; [apply Hbefore; lia|]. split; [reflexivity|].
    apply IH. intros j Hj. apply Hbefore. lia.
Qed.

Lemma stops_at_walk n :
  stops_at directionalBlur range hasmotionblur n ->
  is_walk directionalBlur range (cursor 0) (map (fun j => cursor j) (seq 1 n)).
Proof.
  intros [Hlast Hbefore]. apply walk_from; [exact Hlast|].
  intros j Hj. apply Hbefore. lia.
Qed.

End Walk.

Section TransformRegion.

Context {support : Support} {effect : Effect}.

Variables (rectFrom : OfxRectD) (time : double) (invert : bool) (motionblur : double)
          (directionalBlur : bool) (amountFrom amountTo shutter : double)
          (shutteroffset_i : Z) (shuttercustomoffset : double) (identity : bool).

Local Abbreviation hasmotionblur := (hasMotionBlur shutter motionblur directionalBlur).
Local Abbreviation range :=
  (region_range time shutter shutteroffset_i shuttercustomoffset motionblur directionalBlur).
Local Abbreviation region budget :=
  (transformRegion budget rectFrom time invert motionblur directionalBlur amountFrom
     amountTo shutter shutteroffset_i shuttercustomoffset identity).

(** Unless the identity shortcut is taken, [transformRegion] is its loop,
    run from the initial state over [region_range]. *)
Lemma transformRegion_walks budget :
  hasmotionblur && negb directionalBlur || negb identity = true ->
  region budget =
    transformRegion_loop budget rectFrom invert directionalBlur amountFrom amountTo range
      (transformRegion_init range hasmotionblur).
Proof.
  unfold transformRegion, region_range.
  destruct (hasmotionblur && negb directionalBlur); [reflexivity|].
  destruct identity; [discriminate|reflexivity].
Qed.

Lemma transformRegion_shortcut budget :
  hasmotionblur && negb directionalBlur = false -> identity = true ->
  region budget = Some (rectFrom, []).
Proof. unfold transformRegion. now intros -> ->. Qed.

(** [transformRegion] returns as soon as the budget exceeds the index at
    which the walk stops. *)
Lemma transformRegion_terminates n budget :
  stops_at directionalBlur range hasmotionblur n ->
  (n < budget)%nat ->
  is_Some (region budget).
Proof.
  intros Hstop Hb.
  destruct (hasmotionblur && negb directionalBlur || negb identity) eqn:Hwalks.
  - rewrite (transformRegion_walks budget Hwalks).
    apply (loop_terminates rectFrom invert directionalBlur amountFrom amountTo range
             (map (fun j => cursor_at directionalBlur range hasmotionblur j) (seq 1 n))
             (transformRegion_init range hasmotionblur) budget eq_refl
             (stops_at_walk directionalBlur range hasmotionblur n Hstop)).
    now rewrite length_map, length_seq.
  - apply orb_false_iff in Hwalks. destruct Hwalks as [H1 H2].
    rewrite (transformRegion_shortcut budget H1); [eauto|].
    now destruct identity.
Qed.

Lemma transformRegion_run n ss budget :
  hasmotionblur && negb directionalBlur || negb identity = true ->
  stops_at directionalBlur range hasmotionblur n ->
  Forall2 (fun c s => sample_at rectFrom invert amountFrom amountTo c = Some s)
    (cursors directionalBlur range hasmotionblur n) ss ->
  (n < budget)%nat ->
  region budget =
    Some (expandRegion (union_of (map snd ss)) (max_displacement (map fst ss)),
          map (call_at invert amountFrom amountTo)
            (cursors directionalBlur range hasmotionblur n)).
Proof.
  intros Hwalks Hstop Hss Hb. rewrite (transformRegion_walks budget Hwalks).
  rewrite cursors_cons in *.
  assert (Hlen : (length (map (fun j => cursor_at directionalBlur range hasmotionblur j)
                            (seq 1 n)) < budget)%nat)
    by now rewrite length_map, length_seq.
  exact (loop_run rectFrom invert directionalBlur amountFrom amountTo range
           (map (fun j => cursor_at directionalBlur range hasmotionblur j) (seq 1 n))
           (transformRegion_init range hasmotionblur) ss budget eq_refl
           (stops_at_walk directionalBlur range hasmotionblur n Hstop) Hss Hlen).
Qed.

Lemma transformRegion_failure k budget :
  hasmotionblur && negb directionalBlur || negb identity = true ->
  (forall j, (j < k)%nat ->
     c_last (cursor_at directionalBlur range hasmotionblur j) = false /\
     is_Some (sample_at rectFrom invert amountFrom amountTo
                (cursor_at directionalBlur range hasmotionblur j))) ->
  sample_at rectFrom invert amountFrom amountTo
    (cursor_at directionalBlur range hasmotionblur k) = None ->
  (k < budget)%nat ->
  region budget =
    Some (infiniteRect,
          map (call_at invert amountFrom amountTo)
            (cursors directionalBlur range hasmotionblur k)).
Proof.
  intros Hwalks Hbefore Hfail Hb. rewrite (transformRegion_walks budget Hwalks).
  rewrite cursors_cons.
  apply (loop_failure rectFrom invert directionalBlur amountFrom amountTo range
           (map (fun j => cursor_at directionalBlur range hasmotionblur j) (seq 1 k))
           (transformRegion_init range hasmotionblur) budget eq_refl).
  - apply (walk_prefix_from directionalBlur range hasmotionblur 0 k).
    intros j Hj. apply Hbefore. lia.
  - change (transformRegion_init range hasmotionblur).(rs_cursor)
      with (cursor_at directionalBlur range hasmotionblur 0).
    change (cursor_at directionalBlur range hasmotionblur 0 :: map _ (seq 1 k))
      with (map (cursor_at directionalBlur range hasmotionblur) (seq 0 (S k))).
    rewrite seq_S, map_app. cbn [map Nat.add]. rewrite removelast_last.
    apply Forall_forall. intros c Hc. apply list_elem_of_In, in_map_iff in Hc.
    destruct Hc as (j & <- & Hj). apply in_seq in Hj. apply Hbefore. lia.
  - change (transformRegion_init range hasmotionblur).(rs_cursor)
      with (cursor_at directionalBlur range hasmotionblur 0).
    destruct k as [|k]; [exact Hfail|].
    rewrite seq_S, map_app. cbn [map]. rewrite last_last.
    replace (1 + k)%nat with (S k) by lia. exact Hfail.
  - now rewrite length_map, length_seq.
Qed.

End TransformRegion.

(** Between points that are their own position in the plane, the moves
    are the eight distances that the loop feeds to [expand]. *)
Lemma corner_moves_normalised (p p' : Array4 Point3D) :
  Forall normalised (elems p) -> Forall normalised (elems p') ->
  corner_moves p p' = corner_displacements p p'.
Proof.
  intros Hp Hp'. destruct p as [a0 a1 a2 a3], p' as [b0 b1 b2 b3].
  unfold elems in Hp, Hp'. cbn [at0 at1 at2 at3] in Hp, Hp'.
  repeat match goal with
         | H : Forall _ (_ :: _) |- _ =>
             let H1 := fresh in let H2 := fresh in
             apply Forall_cons in H; destruct H as [[H1 H2] H]
         end.
  unfold corner_moves, corner_displacements, projected, elems.
  cbn [at0 at1 at2 at3 pt_x pt_y combine flat_map app].
  congruence.
Qed.

Lemma consecutive_moves_normalised (ps : list (Array4 Point3D)) :
  Forall (fun p => Forall normalised (elems p)) ps ->
  consecutive_moves ps = consecutive_displacements ps.
Proof.
  induction ps as [|p [|p' rest] IH]; intros H; [reflexivity..|].
  apply Forall_cons in H. destruct H as [Hp H].
  change (consecutive_moves (p :: p' :: rest))
    with (corner_moves p p' ++ consecutive_moves (p' :: rest)).
  change (consecutive_displacements (p :: p' :: rest))
    with (corner_displacements p p' ++ consecutive_displacements (p' :: rest)).
  rewrite (IH H). f_equal.
  apply Forall_cons in H. destruct H as [Hp' _].
  now apply corner_moves_normalised.
Qed.

(** C5 (amended).  Over a walk on which every call succeeds and gives the
    four corners images that are their own position in the plane (dividing
    by [z] changes neither [x] nor [y], as under an affine transform),
    [transformRegion] returns the union of the bounding boxes of the steps,
    moved outward by [expand] on each side that is strictly inside its
    sentinel ([x1], [y1] above [kOfxFlagInfiniteMin], [x2], [y2] below
    [kOfxFlagInfiniteMax]), the other sides unchanged; [expand] is the
    greatest, from [0.] and skipping NaN, of the distances [|x - x'|] and
    [|y - y'|] between the projected position of each corner at a step and
    its projected position at the step before.  The corners of a step are
    the images of [(x1, y1)], [(x1, y2)], [(x2, y2)] and [(x2, y1)], lifted
    to [z = 1.], under the transform of the step. *)
Theorem region_expansion {support : Support} {effect : Effect}
    (rectFrom : OfxRectD) (time : double) (invert : bool) (motionblur : double)
    (directionalBlur : bool) (amountFrom amountTo shutter : double)
    (shutteroffset_i : Z) (shuttercustomoffset : double) (identity : bool)
    (n : nat) (ss : list (Array4 Point3D * OfxRectD)) (budget : nat) :
  let hasmotionblur := hasMotionBlur shutter motionblur directionalBlur in
  let range :=
    region_range time shutter shutteroffset_i shuttercustomoffset motionblur directionalBlur in
  hasmotionblur && negb directionalBlur || negb identity = true ->
  stops_at directionalBlur range hasmotionblur n ->
  Forall2 (fun c s => sample_at rectFrom invert amountFrom amountTo c = Some s)
    (cursors directionalBlur range hasmotionblur n) ss ->
  Forall (fun s => Forall normalised (elems (fst s))) ss ->
  (n < budget)%nat ->
  let box := union_of (map snd ss) in
  let moves := consecutive_moves (map fst ss) in
  let expand := fold_left Double.max moves Double.zero in
  Forall2
    (fun c s =>
       exists m,
         getInverseTransformCanonical (c_t c)
           (amountFrom + c_amount c * (amountTo - amountFrom))%D invert = Some m /\
         fst s =
           mkArray4
             (mat_apply m (mkPoint3D (x1 rectFrom) (y1 rectFrom) Double.one))
             (mat_apply m (mkPoint3D (x1 rectFrom) (y2 rectFrom) Double.one))
             (mat_apply m (mkPoint3D (x2 rectFrom) (y2 rectFrom) Double.one))
             (mat_apply m (mkPoint3D (x2 rectFrom) (y1 rectFrom) Double.one)) /\
         snd s = ofxsTransformRegionFromPoints (fst s))
    (cursors directionalBlur range hasmotionblur n) ss /\
  fst <$> transformRegion budget rectFrom time invert motionblur directionalBlur
            amountFrom amountTo shutter shutteroffset_i shuttercustomoffset identity
  = Some {| x1 := if (x1 box >? kOfxFlagInfiniteMin)%D then (x1 box - expand)%D else x1 box;
            y1 := if (y1 box >? kOfxFlagInfiniteMin)%D then (y1 box - expand)%D else y1 box;
            x2 := if (x2 box <? kOfxFlagInfiniteMax)%D then (x2 box + expand)%D else x2 box;
            y2 := if (y2 box <? kOfxFlagInfiniteMax)%D then (y2 box + expand)%D else y2 box |} /\
  (forall d, In d moves -> Double.is_nan d = false -> (d <=? expand)%D = true) /\
  In expand (Double.zero :: moves).
Proof.
  intros hasmotionblur range Hwalks Hstop Hss Hnorm Hb box moves expand.
  assert (Hmoves : moves = consecutive_displacements (map fst ss)).
  { apply consecutive_moves_normalised. apply List.Forall_map. exact Hnorm. }
  split; [|split; [|split]].
  - eapply List.Forall2_impl; [|exact Hss].
    intros c s Hs. unfold sample_at in Hs.
    cbn [call_at call_time call_amount call_invert] in Hs.
    unfold region_amount in Hs.
    destruct (getInverseTransformCanonical _ _ _) as [m|]; [|discriminate].
    exists m. split; [reflexivity|].
    injection Hs as <-. split; reflexivity.
  - rewrite (transformRegion_run rectFrom time invert motionblur directionalBlur amountFrom
               amountTo shutter shutteroffset_i shuttercustomoffset identity n ss budget
               Hwalks Hstop Hss Hb).
    unfold expand. rewrite Hmoves. reflexivity.
  - intros d Hd Hnan. now apply DoubleFacts.fold_max_ge.
  - apply DoubleFacts.fold_max_attained.
Qed.

Lemma region_expansion_witness :
  fst <$> @transformRegion Reference.support ReferenceActions.shearing 5
            (Reference.rect 0 0 100 100) (Double.of_Z 10) false Double.one false
            Double.zero Double.one Double.one 1%Z Double.zero false
  = Some (Reference.rect (-25) (-5) 1225 147).
Proof.
  eassert (E : map (@sample_at Reference.support ReferenceActions.shearing
                      (Reference.rect 0 0 100 100) false Double.zero Double.one)
                 (cursors false
                    (Reference.range (Double.of_Z 10) Double.one 1 Double.zero) true 4)
               = [Some _; Some _; Some _; Some _; Some _])
    by (vm_compute; reflexivity).
  match type of E with
  | _ = [Some ?s0; Some ?s1; Some ?s2; Some ?s3; Some ?s4] =>
      destruct (@region_expansion Reference.support ReferenceActions.shearing
                  (Reference.rect 0 0 100 100) (Double.of_Z 10) false Double.one false
                  Double.zero Double.one Double.one 1%Z Double.zero false 4
                  [s0; s1; s2; s3; s4] 5) as (_ & Hr & _ & _)
  end.
  - reflexivity.
  - split; [reflexivity|]. intros j Hj. do 4 (destruct j as [|j]; [reflexivity|]). lia.
  - unfold cursors. cbn [map seq].
    repeat (apply List.Forall2_cons; [vm_compute; reflexivity|]). apply List.Forall2_nil.
  - repeat (apply List.Forall_cons;
            [unfold elems; cbn [fst at0 at1 at2 at3];
             repeat (apply List.Forall_cons; [split; vm_compute; reflexivity|]);
             apply List.Forall_nil|]).
    apply List.Forall_nil.
  - apply Nat.lt_succ_diag_r.
  - etransitivity; [exact Hr|]. vm_compute. reflexivity.
Defined.

(** C5, as stated, fails on a side that is finite and beyond its sentinel:
    a rectangle whose left side is at [-3000000000], translated by the
    time over the frames 10 to 11, keeps the left side of the union of its
    steps, though the corners move by a quarter between steps and the three
    other sides are moved outward by that much. *)
Lemma region_expansion_counterexample :
  let r :=
    @transformRegion Reference.support Reference.moving 5
      (Reference.rect (-3000000000) 0 100 100) (Double.of_Z 10) false Double.one false
      Double.zero Double.one Double.one 1%Z Double.zero false in
  let quarter := (Double.one / Double.of_Z 4)%D in
  exists box calls,
    r = Some (box, calls) /\
    x1 box = Double.of_Z (-2999999990) /\
    Double.is_finite (x1 box) = true /\
    (x1 box ==? kOfxFlagInfiniteMin)%D = false /\
    (x1 box - quarter ==? x1 box)%D = false /\
    y1 box = (Double.zero - quarter)%D /\
    x2 box = (Double.of_Z 111 + quarter)%D /\
    y2 box = (Double.of_Z 100 + quarter)%D.
Proof.
  intros r quarter.
  eassert (E : r = Some (_, _)) by (vm_compute; reflexivity).
  do 2 eexists. split; [exact E|].
  cbn [x1 y1 x2 y2]. repeat split; vm_compute; reflexivity.
Qed.

(** The loop measures the moves on the homogeneous images, before any
    division by [z]: under a transform that only changes [z] the corners
    move in the plane, here by more than 66 between two steps, and the
    result is the bare union of the step boxes. *)
Lemma region_margin_before_division :
  let rectFrom := Reference.rect 0 0 100 100 in
  let times := [Double.of_Z 10; (Double.of_Z 41 / Double.of_Z 4)%D;
                (Double.of_Z 21 / Double.of_Z 2)%D] in
  let ps :=
    map (fun t =>
           fst (@ofxsTransformRegionFromRoD Reference.support rectFrom
                  (mkMatrix3x3 Double.one Double.zero Double.zero
                               Double.zero Double.one Double.zero
                               Double.zero Double.zero (Double.of_Z 11 - t)%D)))
        times in
  @transformRegion Reference.support ReferenceActions.receding 5 rectFrom
    (Double.of_Z 10) false Double.one false Double.zero Double.one
    Reference.half 1%Z Double.zero false
  = Some (Reference.rect 0 0 200 200,
          map (fun t => mkCall t Double.one false) times) /\
  max_displacement ps = Double.zero /\
  (Double.of_Z 66 <? largest_move ps)%D = true.
Proof. intros rectFrom times ps. repeat split; vm_compute; reflexivity. Qed.


(** C6.  When the callback fails at a sample that the walk reaches, after
    samples at which it succeeds, [transformRegion] returns the unbounded
    rectangle on all four sides, whatever the boxes of the earlier samples
    were. *)
Theorem region_failure_is_unbounded {support : Support} {effect : Effect}
    (rectFrom : OfxRectD) (time : double) (invert : bool) (motionblur : double)
    (directionalBlur : bool) (amountFrom amountTo shutter : double)
    (shutteroffset_i : Z) (shuttercustomoffset : double) (identity : bool)
    (k : nat) (budget : nat) :
  let hasmotionblur := hasMotionBlur shutter motionblur directionalBlur in
  let range :=
    region_range time shutter shutteroffset_i shuttercustomoffset motionblur directionalBlur in
  hasmotionblur && negb directionalBlur || negb identity = true ->
  (forall j, (j < k)%nat ->
     c_last (cursor_at directionalBlur range hasmotionblur j) = false /\
     is_Some (sample_at rectFrom invert amountFrom amountTo
                (cursor_at directionalBlur range hasmotionblur j))) ->
  sample_at rectFrom invert amountFrom amountTo
    (cursor_at directionalBlur range hasmotionblur k) = None ->
  (k < budget)%nat ->
  transformRegion budget rectFrom time invert motionblur directionalBlur
    amountFrom amountTo shutter shutteroffset_i shuttercustomoffset identity
  = Some ({| x1 := kOfxFlagInfiniteMin; y1 := kOfxFlagInfiniteMin;
             x2 := kOfxFlagInfiniteMax; y2 := kOfxFlagInfiniteMax |},
          map (call_at invert amountFrom amountTo)
            (cursors directionalBlur range hasmotionblur k)).
Proof.
  intros hasmotionblur range Hwalks Hbefore Hfail Hb.
  exact (transformRegion_failure rectFrom time invert motionblur directionalBlur amountFrom
           amountTo shutter shutteroffset_i shuttercustomoffset identity k budget
           Hwalks Hbefore Hfail Hb).
Qed.

Lemma region_failure_is_unbounded_witness :
  fst <$> @transformRegion Reference.support
            (Reference.until (Double.of_Z 21 / Double.of_Z 2)%D) 3
            (Reference.rect 0 0 100 100) (Double.of_Z 10) false Double.one false
            Double.zero Double.one Double.one 1%Z Double.zero false
  = Some infiniteRect.
Proof.
  rewrite (@region_failure_is_unbounded Reference.support
             (Reference.until (Double.of_Z 21 / Double.of_Z 2)%D)
             (Reference.rect 0 0 100 100) (Double.of_Z 10) false Double.one false
             Double.zero Double.one Double.one 1%Z Double.zero false 2 3).
  - reflexivity.
  - reflexivity.
  - intros j Hj. do 2 (destruct j as [|j]; [split; [reflexivity|vm_compute; eauto]|]). lia.
  - reflexivity.
  - apply Nat.lt_succ_diag_r.
Defined.

(** C7.  When the effect is the identity at the query time and the
    shutter-based sampling is not active, [transformRegion] returns the
    input rectangle itself, without a call to the effect: nothing is
    projected, accumulated or expanded. *)
Theorem region_identity_shortcut {support : Support} {effect : Effect}
    (budget : nat) (rectFrom : OfxRectD) (time : double) (invert : bool) (motionblur : double)
    (directionalBlur : bool) (amountFrom amountTo shutter : double)
    (shutteroffset_i : Z) (shuttercustomoffset : double) :
  hasMotionBlur shutter motionblur directionalBlur && negb directionalBlur = false ->
  transformRegion budget rectFrom time invert motionblur directionalBlur
    amountFrom amountTo shutter shutteroffset_i shuttercustomoffset true
  = Some (rectFrom, []).
Proof.
  intros H. now apply transformRegion_shortcut.
Qed.

Lemma region_identity_shortcut_witness :
  @transformRegion Reference.support Reference.moving 0
    (Reference.rect 0 0 100 100) (Double.of_Z 10) false Double.zero false
    Double.zero Double.one Double.one 1%Z Double.zero true
  = Some (Reference.rect 0 0 100 100, []).
Proof.
  apply (@region_identity_shortcut Reference.support Reference.moving). reflexivity.
Defined.

(** ** The schedule of the walk *)

Section Schedule.

Context {support : Support} {effect : Effect}.

(** Shutter mode: until a next quarter frame reaches the end of the
    range, the cursor is at the successive quarter frames. *)
Lemma shutter_cursor (range : OfxRangeD) (n : nat) :
  (forall j, (1 <= j <= n)%nat ->
     (quarter_frame range j >=? range_max range)%D = false) ->
  forall j, (j <= n)%nat ->
    cursor_at false range true j =
      {| c_t := quarter_frame range j; c_amount := Double.one;
         c_dirBlurIter := 0; c_last := false |}.
Proof.
  intros Hbelow. induction j as [|j IH]; intros Hj; [reflexivity|].
  rewrite cursor_at_S, IH by lia. unfold advance. cbn [c_t c_amount c_dirBlurIter c_last].
  change (next_quarter_frame (quarter_frame range j)) with (quarter_frame range (S j)).
  now rewrite (Hbelow (S j)) by lia.
Qed.

Lemma shutter_cursor_end (range : OfxRangeD) (n : nat) :
  (forall j, (1 <= j <= n)%nat ->
     (quarter_frame range j >=? range_max range)%D = false) ->
  (quarter_frame range (S n) >=? range_max range)%D = true ->
  cursor_at false range true (S n) =
    {| c_t := range_max range; c_amount := Double.one;
       c_dirBlurIter := 0; c_last := true |}.
Proof.
  intros Hbelow Hreach.
  rewrite cursor_at_S, (shutter_cursor range n Hbelow n) by lia.
  unfold advance. cbn [c_t c_amount c_dirBlurIter c_last].
  change (next_quarter_frame (quarter_frame range n)) with (quarter_frame range (S n)).
  now rewrite Hreach.
Qed.

(** Directional-blur mode: the cursor of iteration [k] is at the fraction
    [1 - k/8] and is the last one when [k] is 8. *)
Lemma directional_cursor (range : OfxRangeD) (k : nat) :
  cursor_at true range true k =
    {| c_t := range_min range; c_amount := region_fraction k;
       c_dirBlurIter := Z.of_nat k; c_last := (Z.of_nat k =? dirBlurIterMax)%Z |}.
Proof.
  induction k as [|k IH]; [reflexivity|].
  rewrite cursor_at_S, IH. unfold advance, region_fraction, Double.of_nat.
  cbn [c_t c_amount c_dirBlurIter c_last].
  now rewrite Nat2Z.inj_succ, <- Z.add_1_r.
Qed.

Lemma directional_stops (range : OfxRangeD) : stops_at true range true 8.
Proof.
  split; [now rewrite directional_cursor|].
  intros j Hj. rewrite directional_cursor. cbn [c_last]. unfold dirBlurIterMax.
  apply Z.eqb_neq. lia.
Qed.

Lemma shutter_stops (range : OfxRangeD) (n : nat) :
  (forall j, (1 <= j <= n)%nat ->
     (quarter_frame range j >=? range_max range)%D = false) ->
  (quarter_frame range (S n) >=? range_max range)%D = true ->
  stops_at false range true (S n).
Proof.
  intros Hbelow Hreach. split; [now rewrite shutter_cursor_end|].
  intros j Hj. now rewrite (shutter_cursor range n Hbelow j) by lia.
Qed.

(** Without motion blur the first iteration is the last one. *)
Lemma single_stops (range : OfxRangeD) (directionalBlur : bool) :
  stops_at directionalBlur range false 0.
Proof. split; [reflexivity|]. intros j Hj. lia. Qed.

(** The samples of a list of cursors at which every call succeeds. *)
Lemma samples_exist rectFrom invert amountFrom amountTo (cs : list Cursor) :
  Forall (fun c => is_Some (outcome_of (call_at invert amountFrom amountTo c))) cs ->
  exists ss,
    Forall2 (fun c s => sample_at rectFrom invert amountFrom amountTo c = Some s) cs ss.
Proof.
  induction 1 as [|c cs [m Hm] _ [ss IH]]; [exists []; constructor|].
  exists (ofxsTransformRegionFromRoD rectFrom m :: ss). constructor; [|exact IH].
  unfold sample_at. unfold outcome_of in Hm. cbn [call_at call_time call_amount call_invert] in *.
  now rewrite Hm.
Qed.

End Schedule.

Section ScheduleCalls.

Context {support : Support} {effect : Effect}.

Variables (rectFrom : OfxRectD) (time : double) (invert : bool) (motionblur : double)
          (amountFrom amountTo shutter : double)
          (shutteroffset_i : Z) (shuttercustomoffset : double) (identity : bool).

(** The calls of a walk on which every call succeeds. *)
Lemma transformRegion_calls directionalBlur n budget :
  let hasmotionblur := hasMotionBlur shutter motionblur directionalBlur in
  let range :=
    region_range time shutter shutteroffset_i shuttercustomoffset motionblur
      directionalBlur in
  hasmotionblur && negb directionalBlur || negb identity = true ->
  stops_at directionalBlur range hasmotionblur n ->
  Forall (fun c => is_Some (outcome_of c))
    (map (call_at invert amountFrom amountTo)
       (cursors directionalBlur range hasmotionblur n)) ->
  (n < budget)%nat ->
  snd <$> transformRegion budget rectFrom time invert motionblur directionalBlur
            amountFrom amountTo shutter shutteroffset_i shuttercustomoffset identity
  = Some (map (call_at invert amountFrom amountTo)
            (cursors directionalBlur range hasmotionblur n)).
Proof.
  intros hasmotionblur range Hwalks Hstop Hok Hb.
  pose proof (proj1 (List.Forall_map (call_at invert amountFrom amountTo)
                       (fun c => is_Some (outcome_of c)) _) Hok) as Hok'.
  destruct (samples_exist rectFrom invert amountFrom amountTo _ Hok') as [ss Hss].
  now rewrite (transformRegion_run rectFrom time invert motionblur directionalBlur
                 amountFrom amountTo shutter shutteroffset_i shuttercustomoffset identity
                 n ss budget Hwalks Hstop Hss Hb).
Qed.

Lemma shutter_calls (range : OfxRangeD) (n : nat) :
  (forall j, (1 <= j <= n)%nat ->
     (quarter_frame range j >=? range_max range)%D = false) ->
  (quarter_frame range (S n) >=? range_max range)%D = true ->
  map (call_at invert amountFrom amountTo) (cursors false range true (S n)) =
  map (fun t => mkCall t (region_amount amountFrom amountTo Double.one) invert)
    (range_min range :: map (quarter_frame range) (seq 1 n) ++ [range_max range]).
Proof.
  intros Hbelow Hreach.
  change (range_min range :: map (quarter_frame range) (seq 1 n) ++ [range_max range])
    with (map (quarter_frame range) (seq 0 (S n)) ++ [range_max range]).
  unfold cursors. rewrite (seq_S (S n)), !map_app. f_equal.
  - rewrite !map_map. apply map_ext_in. intros j Hj. apply in_seq in Hj.
    now rewrite (shutter_cursor range n Hbelow j) by lia.
  - cbn [map Nat.add]. now rewrite (shutter_cursor_end range n Hbelow Hreach).
Qed.

Lemma directional_calls (range : OfxRangeD) :
  map (call_at invert amountFrom amountTo) (cursors true range true 8) =
  map (fun k => mkCall (range_min range)
                  (region_amount amountFrom amountTo (region_fraction k)) invert)
    (seq 0 9).
Proof.
  unfold cursors. rewrite map_map. apply map_ext. intros k.
  now rewrite directional_cursor.
Qed.

(** Outside shutter mode [transformRegion] is total: nine iterations
    suffice in directional-blur mode, one without motion blur. *)
Lemma transformRegion_total_without_shutter directionalBlur budget :
  hasMotionBlur shutter motionblur directionalBlur && negb directionalBlur = false ->
  (8 < budget)%nat ->
  is_Some (transformRegion budget rectFrom time invert motionblur directionalBlur
             amountFrom amountTo shutter shutteroffset_i shuttercustomoffset identity).
Proof.
  intros Hmode Hb.
  destruct (hasMotionBlur shutter motionblur directionalBlur) eqn:Hmb.
  - destruct directionalBlur; [|discriminate].
    apply (transformRegion_terminates rectFrom time invert motionblur true amountFrom
             amountTo shutter shutteroffset_i shuttercustomoffset identity 8 budget);
      [|exact Hb].
    rewrite Hmb. apply directional_stops.
  - apply (transformRegion_terminates rectFrom time invert motionblur directionalBlur
             amountFrom amountTo shutter shutteroffset_i shuttercustomoffset identity 0 budget);
      [|lia].
    rewrite Hmb. apply single_stops.
Qed.

End ScheduleCalls.

Section WalkUntilFailure.

Context {support : Support} {effect : Effect}.

Variables (rectFrom : OfxRectD) (invert directionalBlur : bool)
          (amountFrom amountTo : double) (range : OfxRangeD).

Lemma sample_at_outcome (c : Cursor) :
  sample_at rectFrom invert amountFrom amountTo c =
  ofxsTransformRegionFromRoD rectFrom <$> outcome_of (call_at invert amountFrom amountTo c).
Proof.
  unfold sample_at, outcome_of. cbn [call_at call_time call_amount call_invert].
  now destruct (getInverseTransformCanonical _ _ _).
Qed.

(** On a walk the loop makes the calls of its cursors, in order, up to
    and including the first one that fails. *)
Lemma loop_calls_until_failure rest : forall st budget,
  rs_finished st = false ->
  is_walk directionalBlur range (rs_cursor st) rest ->
  (length rest < budget)%nat ->
  snd <$> transformRegion_loop budget rectFrom invert directionalBlur amountFrom amountTo
            range st
  = Some (rs_calls st ++
          until_failure (map (call_at invert amountFrom amountTo) (rs_cursor st :: rest))).
Proof.
  induction rest as [|c' rest IH]; intros st budget Hfin Hwalk Hb;
    (destruct budget as [|budget]; [simpl in Hb; lia|]);
    cbn [transformRegion_loop]; rewrite Hfin;
    pose proof (sample_at_outcome (rs_cursor st)) as Hs;
    change (map (call_at invert amountFrom amountTo) (rs_cursor st :: ?l))
      with (call_at invert amountFrom amountTo (rs_cursor st)
              :: map (call_at invert amountFrom amountTo) l);
    cbn [until_failure];
    destruct (outcome_of (call_at invert amountFrom amountTo (rs_cursor st))) as [m|];
    cbn [fmap option_fmap option_map] in Hs.
  - destruct (ofxsTransformRegionFromRoD rectFrom m) as [p r].
    rewrite (body_success rectFrom invert directionalBlur amountFrom amountTo range st p r Hs).
    cbn [is_walk] in Hwalk. rewrite Hwalk. destruct budget; reflexivity.
  - now rewrite (body_failure rectFrom invert directionalBlur amountFrom amountTo range st Hs).
  - destruct (ofxsTransformRegionFromRoD rectFrom m) as [p r].
    rewrite (body_success rectFrom invert directionalBlur amountFrom amountTo range st p r Hs).
    cbn [is_walk] in Hwalk. destruct Hwalk as (Hlast & -> & Hwalk). rewrite Hlast.
    rewrite (IH _ budget); cbn [rs_finished rs_cursor rs_calls];
      [|reflexivity|exact Hwalk|simpl in Hb; lia].
    now rewrite <- app_assoc.
  - now rewrite (body_failure rectFrom invert directionalBlur amountFrom amountTo range st Hs).
Qed.

End WalkUntilFailure.

Section ScheduleUntilFailure.

Context {support : Support} {effect : Effect}.

Lemma transformRegion_calls_until_failure
    (rectFrom : OfxRectD) (time : double) (invert : bool) (motionblur : double)
    (directionalBlur : bool) (amountFrom amountTo shutter : double)
    (shutteroffset_i : Z) (shuttercustomoffset : double) (identity : bool)
    (n budget : nat) :
  let hasmotionblur := hasMotionBlur shutter motionblur directionalBlur in
  let range :=
    region_range time shutter shutteroffset_i shuttercustomoffset motionblur
      directionalBlur in
  hasmotionblur && negb directionalBlur || negb identity = true ->
  stops_at directionalBlur range hasmotionblur n ->
  (n < budget)%nat ->
  snd <$> transformRegion budget rectFrom time invert motionblur directionalBlur
            amountFrom amountTo shutter shutteroffset_i shuttercustomoffset identity
  = Some (until_failure
            (map (call_at invert amountFrom amountTo)
               (cursors directionalBlur range hasmotionblur n))).
Proof.
  intros hasmotionblur range Hwalks Hstop Hb.
  rewrite (transformRegion_walks rectFrom time invert motionblur directionalBlur amountFrom
             amountTo shutter shutteroffset_i shuttercustomoffset identity budget Hwalks).
  rewrite cursors_cons.
  apply (loop_calls_until_failure rectFrom invert directionalBlur amountFrom amountTo range
           (map (fun j => cursor_at directionalBlur range hasmotionblur j) (seq 1 n))
           (transformRegion_init range hasmotionblur) budget eq_refl
           (stops_at_walk directionalBlur range hasmotionblur n Hstop)).
  now rewrite length_map, length_seq.
Qed.

(** A schedule is made in full when none of its calls fails, and up to
    its first failing call otherwise. *)
Lemma until_failure_all (cs : list Call) :
  Forall (fun c => is_Some (outcome_of c)) cs -> until_failure cs = cs.
Proof.
  induction 1 as [|c cs [m Hm] _ IH]; [reflexivity|].
  cbn [until_failure]. now rewrite Hm, IH.
Qed.

Lemma until_failure_first (cs : list Call) (c : Call) (cs' : list Call) :
  Forall (fun c => is_Some (outcome_of c)) cs -> outcome_of c = None ->
  until_failure (cs ++ c :: cs') = cs ++ [c].
Proof.
  intros Hcs Hc. induction Hcs as [|c0 cs [m Hm] _ IH].
  - cbn [app until_failure]. now rewrite Hc.
  - cbn [app until_failure]. now rewrite Hm, IH.
Qed.

End ScheduleUntilFailure.

(** C8 (amended).  In shutter mode the walk of [transformRegion] calls the
    effect at the start of the shutter range, then at each
    [t <- floor(4t+1)/4] as long as that time is below the end of the
    range, and, once such a step reaches the end of the range, a last time
    exactly at the end of the range.  In directional-blur mode it makes no
    call when the effect reports identity; otherwise, with a non-zero
    motion blur, it calls the effect nine times, at the fractions
    [1 - k/8] for [k = 0 .. 8] (a first iteration and eight advances), and
    with a zero motion blur once, at the fraction [1].  In both modes the
    walk ends with the first call that fails: the calls made are those of
    the schedule up to and including that one. *)
Theorem region_walk_schedule {support : Support} {effect : Effect}
    (rectFrom : OfxRectD) (time : double) (invert : bool) (motionblur : double)
    (amountFrom amountTo shutter : double)
    (shutteroffset_i : Z) (shuttercustomoffset : double) (identity : bool) (budget : nat) :
  (forall t, next_quarter_frame t
             = (Double.floor (t * Double.of_Z 4 + Double.of_Z 1) / Double.of_Z 4)%D) /\
  (forall n,
     let range := shutterRange time shutter shutteroffset_i shuttercustomoffset in
     let times :=
       range_min range :: map (quarter_frame range) (seq 1 n) ++ [range_max range] in
     let amount := (amountFrom + Double.one * (amountTo - amountFrom))%D in
     (shutter !=? Double.zero)%D = true ->
     (motionblur !=? Double.zero)%D = true ->
     (forall j, (1 <= j <= n)%nat ->
        (quarter_frame range j >=? range_max range)%D = false) ->
     (quarter_frame range (S n) >=? range_max range)%D = true ->
     (S n < budget)%nat ->
     snd <$> transformRegion budget rectFrom time invert motionblur false
               amountFrom amountTo shutter shutteroffset_i shuttercustomoffset identity
     = Some (until_failure (map (fun t => mkCall t amount invert) times))) /\
  (let amount k :=
     (amountFrom +
      (Double.one - Double.of_nat k / Double.of_Z 8) * (amountTo - amountFrom))%D in
   (8 < budget)%nat ->
   (identity = true ->
    transformRegion budget rectFrom time invert motionblur true
      amountFrom amountTo shutter shutteroffset_i shuttercustomoffset identity
    = Some (rectFrom, [])) /\
   (identity = false -> (motionblur !=? Double.zero)%D = true ->
    snd <$> transformRegion budget rectFrom time invert motionblur true
              amountFrom amountTo shutter shutteroffset_i shuttercustomoffset identity
    = Some (until_failure (map (fun k => mkCall time (amount k) invert) (seq 0 9)))) /\
   (identity = false -> (motionblur !=? Double.zero)%D = false ->
    snd <$> transformRegion budget rectFrom time invert motionblur true
              amountFrom amountTo shutter shutteroffset_i shuttercustomoffset identity
    = Some [mkCall time (amountFrom + Double.one * (amountTo - amountFrom))%D invert])) /\
  (forall cs, Forall (fun c => is_Some (outcome_of c)) cs -> until_failure cs = cs) /\
  (forall cs c cs',
     Forall (fun c => is_Some (outcome_of c)) cs -> outcome_of c = None ->
     until_failure (cs ++ c :: cs') = cs ++ [c]).
Proof.
  split; [reflexivity|]. split; [|split; [|split]].
  - intros n range times amount Hsh Hmb Hbelow Hreach Hb.
    assert (Hhas : hasMotionBlur shutter motionblur false = true)
      by (unfold hasMotionBlur; now rewrite Hsh, Hmb).
    pose proof (transformRegion_calls_until_failure rectFrom time invert motionblur false
                  amountFrom amountTo shutter shutteroffset_i shuttercustomoffset identity
                  (S n) budget) as H.
    cbv zeta in H. unfold region_range in H. rewrite Hhas in H. cbn [negb andb orb] in H.
    fold range in H. rewrite (shutter_calls invert amountFrom amountTo range n Hbelow Hreach) in H.
    apply H; [reflexivity|now apply shutter_stops|exact Hb].
  - intros amount Hb. split; [|split].
    + intros ->. unfold transformRegion. cbn [negb andb]. now rewrite andb_false_r.
    + intros -> Hmb.
      assert (Hhas : hasMotionBlur shutter motionblur true = true)
        by (unfold hasMotionBlur; now rewrite Hmb, orb_true_r).
      pose proof (transformRegion_calls_until_failure rectFrom time invert motionblur true
                    amountFrom amountTo shutter shutteroffset_i shuttercustomoffset false
                    8 budget) as H.
      cbv zeta in H. unfold region_range in H. rewrite Hhas in H. cbn [negb andb orb] in H.
      rewrite (directional_calls invert amountFrom amountTo) in H. cbn [range_min] in H.
      apply H; [reflexivity|apply directional_stops|exact Hb].
    + intros -> Hmb.
      assert (Hhas : hasMotionBlur shutter motionblur true = false)
        by (unfold hasMotionBlur; now rewrite Hmb, andb_false_r).
      pose proof (transformRegion_calls_until_failure rectFrom time invert motionblur true
                    amountFrom amountTo shutter shutteroffset_i shuttercustomoffset false
                    0 budget) as H.
      cbv zeta in H. unfold region_range in H. rewrite Hhas in H. cbn [negb andb orb] in H.
      rewrite H; [|reflexivity|apply single_stops|lia].
      unfold cursors. cbn [seq map until_failure].
      now destruct (outcome_of _).
  - apply until_failure_all.
  - apply until_failure_first.
Qed.

Lemma region_walk_schedule_witness :
  snd <$> @transformRegion Reference.support (Reference.until (Double.of_Z 42 / Double.of_Z 4)%D) 5
            (Reference.rect 0 0 100 100) (Double.of_Z 10) false Double.one false
            Double.zero Double.one Double.one 1%Z Double.zero true
  = Some (map (fun t => mkCall t Double.one false)
            [ Double.of_Z 10; (Double.of_Z 41 / Double.of_Z 4)%D;
              (Double.of_Z 42 / Double.of_Z 4)%D ]) /\
  snd <$> @transformRegion Reference.support Reference.moving 9
            (Reference.rect 0 0 100 100) (Double.of_Z 10) false Double.one true
            Double.zero Double.one Double.one 1%Z Double.zero false
  = Some (map (fun k => mkCall (Double.of_Z 10)
                          (Double.one - Double.of_nat k / Double.of_Z 8)%D false) (seq 0 9)) /\
  snd <$> @transformRegion Reference.support ReferenceActions.fading 9
            (Reference.rect 0 0 100 100) (Double.of_Z 10) false Double.one true
            Double.one Double.zero Double.one 1%Z Double.zero false
  = Some (map (fun k => mkCall (Double.of_Z 10) (Double.of_nat k / Double.of_Z 8)%D false)
            (seq 0 6)).
Proof.
  split; [|split].
  - destruct (@region_walk_schedule Reference.support
                (Reference.until (Double.of_Z 42 / Double.of_Z 4)%D)
                (Reference.rect 0 0 100 100) (Double.of_Z 10) false Double.one
                Double.zero Double.one Double.one 1%Z Double.zero true 5) as (_ & Hshutter & _).
    rewrite (Hshutter 3%nat).
    + vm_compute. reflexivity.
    + vm_compute. reflexivity.
    + vm_compute. reflexivity.
    + intros j Hj. do 4 (destruct j as [|j]; [try (vm_compute; reflexivity); lia|]). lia.
    + vm_compute. reflexivity.
    + apply Nat.lt_succ_diag_r.
  - destruct (@region_walk_schedule Reference.support Reference.moving
                (Reference.rect 0 0 100 100) (Double.of_Z 10) false Double.one
                Double.zero Double.one Double.one 1%Z Double.zero false 9)
      as (_ & _ & Hdir & _).
    destruct (Hdir (Nat.lt_succ_diag_r 8)) as (_ & Hnine & _).
    rewrite Hnine.
    + vm_compute. reflexivity.
    + reflexivity.
    + vm_compute. reflexivity.
  - destruct (@region_walk_schedule Reference.support ReferenceActions.fading
                (Reference.rect 0 0 100 100) (Double.of_Z 10) false Double.one
                Double.one Double.zero Double.one 1%Z Double.zero false 9)
      as (_ & _ & Hdir & _).
    destruct (Hdir (Nat.lt_succ_diag_r 8)) as (_ & Hnine & _).
    rewrite Hnine.
    + vm_compute. reflexivity.
    + reflexivity.
    + vm_compute. reflexivity.
Defined.

(** The shutter walk needs a quarter frame that reaches the end of the
    range.  From frame 2^53 on, [4t + 1] rounds back to [4t], the time no
    longer advances, and with a shutter of two frames the walk never
    reaches the end of its range. *)
Lemma shutter_walk_can_stall (budget : nat) :
  @transformRegion Reference.support Reference.moving budget
    (Reference.rect 0 0 100 100) (Double.of_Z (2 ^ 53)) false Double.one false
    Double.zero Double.one (Double.of_Z 2) 1%Z Double.zero false
  = None.
Proof.
  unfold transformRegion.
  change (hasMotionBlur (Double.of_Z 2) Double.one false && negb false) with true.
  cbv iota.
  apply (@loop_stalls Reference.support Reference.moving); try reflexivity.
  vm_compute. eauto.
Qed.

(** C8, as stated, fails: in directional-blur mode the walk runs its body
    nine times, not eight. *)
Lemma region_walk_schedule_counterexample :
  (length ∘ snd) <$> @transformRegion Reference.support Reference.moving 50
            (Reference.rect 0 0 100 100) (Double.of_Z 10) false Double.one true
            Double.zero Double.one Double.one 1%Z Double.zero false
  = Some 9%nat.
Proof. reflexivity. Qed.

(** ** The [invert] flag on the three paths *)

Section InvertFlag.

Context {support : Support} {effect : Effect}.

Lemma transformRegion_calls_invert budget rectFrom time invert motionblur directionalBlur
    amountFrom amountTo shutter shutteroffset_i shuttercustomoffset identity rectTo calls :
  transformRegion budget rectFrom time invert motionblur directionalBlur amountFrom amountTo
    shutter shutteroffset_i shuttercustomoffset identity = Some (rectTo, calls) ->
  Forall (fun c => call_invert c = invert) calls.
Proof.
  unfold transformRegion.
  destruct (hasMotionBlur _ _ _ && negb directionalBlur).
  - apply loop_calls_invert. constructor.
  - destruct identity; [now intros [= _ <-]|].
    apply loop_calls_invert. constructor.
Qed.

Lemma getRegionOfDefinition_calls_invert budget P args rod calls :
  getRegionOfDefinition budget P args = Some (rod, calls) ->
  Forall (fun c => call_invert c = negb (getValueAtTime (_invert P) (rod_time args) false))
    calls.
Proof.
  unfold getRegionOfDefinition.
  destruct (_srcClip P) as [srcClip|]; [|now intros [= _ <-]].
  destruct (rectIsInfinite _); [now intros [= _ <-]|].
  destruct (_ && _ && _); [now intros [= _ <-]|].
  destruct (regionParams P (rod_time args)) as [[[[[[mb dir] from] to] sh] so] sc].
  destruct (transformRegion _ _ _ _ _ _ _ _ _ _ _ _) as [[r cs]|] eqn:E; [|discriminate].
  intros [= _ <-]. exact (transformRegion_calls_invert _ _ _ _ _ _ _ _ _ _ _ _ _ _ E).
Qed.

Lemma getRegionsOfInterest_calls_invert budget P args roi calls :
  getRegionsOfInterest budget P args = Some (roi, calls) ->
  Forall (fun c => call_invert c = getValueAtTime (_invert P) (roi_time args) false) calls.
Proof.
  unfold getRegionsOfInterest.
  destruct (_srcClip P) as [srcClip|]; [|now intros [= _ <-]].
  destruct (roi_dereferences_null P (roi_time args)); [discriminate|].
  destruct (_ && _); [now intros [= _ <-]|].
  destruct (regionParams P (roi_time args)) as [[[[[[mb dir] from] to] sh] so] sc].
  destruct (transformRegion _ _ _ _ _ _ _ _ _ _ _ _) as [[r cs]|] eqn:E; [|discriminate].
  intros [= _ <-]. exact (transformRegion_calls_invert _ _ _ _ _ _ _ _ _ _ _ _ _ _ E).
Qed.

Lemma Forall_calls_map {A} (f : A -> Call) (invert : bool) (l : list A) :
  (forall a, call_invert (f a) = invert) ->
  Forall (fun c => call_invert c = invert) (map f l).
Proof.
  intros H. apply (proj2 (List.Forall_map f (fun c => call_invert c = invert) l)).
  apply List.Forall_forall. intros a _. apply H.
Qed.

Lemma setupAndProcess_calls_invert P args src :
  Forall (fun c => call_invert c = getValueAtTime (_invert P) (ra_time args) false)
    (snd (setupAndProcess P args src)).
Proof.
  unfold setupAndProcess.
  destruct (amountRange P (ra_time args)) as [amountFrom amountTo].
  destruct src as [src|]; [|constructor].
  destruct (src_sameDepthAndComponents src); [|constructor]. cbn [negb].
  set (invert := getValueAtTime (_invert P) (ra_time args) false).
  destruct (_ && _).
  - pose proof (getInverseTransforms_spec (ra_time args) (ra_renderScale args)
                  (ra_fielded args) (src_pixelAspectRatio src) invert
                  (if negb (getValueAtTime (_directionalBlur P) (ra_time args)
                              (isNull (_directionalBlur P)))
                   then getValueAtTime (_shutter P) (ra_time args) Double.zero
                   else Double.zero)
                  (getValueAtTime (_shutteroffset P) (ra_time args) 0%Z)
                  (getValueAtTime (_shuttercustomoffset P) (ra_time args) Double.zero)
                  (replicate kTransform3x3MotionBlurCount Matrix3x3_default)
                  kTransform3x3MotionBlurCount) as H.
    cbv zeta in H.
    destruct (getInverseTransforms _ _ _ _ _ _ _ _ _ _) as [[inv size] calls].
    cbn [snd]. destruct H as (_ & _ & _ & _ & ->).
    + apply Nat.eq_le_incl. symmetry. apply length_replicate.
    + now apply Forall_calls_map.
  - destruct (getValueAtTime (_directionalBlur P) _ _).
    + pose proof (getInverseTransformsBlur_spec (ra_time args) (ra_renderScale args)
                    (ra_fielded args) (src_pixelAspectRatio src) invert amountFrom amountTo
                    (replicate kTransform3x3MotionBlurCount Matrix3x3_default)
                    (Some (replicate kTransform3x3MotionBlurCount Double.zero))
                    kTransform3x3MotionBlurCount) as H.
      cbv zeta in H.
      destruct (getInverseTransformsBlur _ _ _ _ _ _ _ _ _ _) as [[[inv alpha] size] calls].
      cbn [snd]. destruct H as (_ & _ & _ & ->).
      * apply Nat.eq_le_incl. symmetry. apply length_replicate.
      * intros a Ha.
        assert (Ea : a = replicate kTransform3x3MotionBlurCount Double.zero) by congruence.
        rewrite Ea. apply Nat.eq_le_incl. symmetry. apply length_replicate.
      * now apply Forall_calls_map.
    + cbn [snd]. now repeat constructor.
Qed.

End InvertFlag.

Section InvertFlagCalls.

Context {support : Support} {effect : Effect}.

(** The loop only adds calls, and adds one unless it has finished. *)
Lemma loop_calls_extend rectFrom invert directionalBlur amountFrom amountTo range budget :
  forall st rectTo calls,
  transformRegion_loop budget rectFrom invert directionalBlur amountFrom amountTo range st
    = Some (rectTo, calls) ->
  exists more, calls = rs_calls st ++ more /\ (rs_finished st = false -> more <> []).
Proof.
  induction budget as [|budget IH]; intros st rectTo calls; cbn [transformRegion_loop].
  - destruct (rs_finished st); [|discriminate].
    intros [= _ <-]. exists []. split; [now rewrite app_nil_r|discriminate].
  - destruct (rs_finished st).
    { intros [= _ <-]. exists []. split; [now rewrite app_nil_r|discriminate]. }
    destruct (sample_at rectFrom invert amountFrom amountTo (rs_cursor st))
      as [[p r]|] eqn:Hs.
    + rewrite (body_success rectFrom invert directionalBlur amountFrom amountTo range st p r Hs).
      intros H. destruct (IH _ _ _ H) as (more & -> & _).
      cbn [rs_calls]. rewrite <- app_assoc.
      eexists. split; [reflexivity|]. discriminate.
    + rewrite (body_failure rectFrom invert directionalBlur amountFrom amountTo range st Hs).
      intros [= _ <-]. eexists. split; [reflexivity|]. discriminate.
Qed.

(** Region propagation calls the effect at least once, unless it takes
    the identity shortcut, and then it makes no call. *)
Lemma transformRegion_makes_a_call budget rectFrom time invert motionblur directionalBlur
    amountFrom amountTo shutter shutteroffset_i shuttercustomoffset identity rectTo calls :
  transformRegion budget rectFrom time invert motionblur directionalBlur amountFrom amountTo
    shutter shutteroffset_i shuttercustomoffset identity = Some (rectTo, calls) ->
  if negb (hasMotionBlur shutter motionblur directionalBlur && negb directionalBlur) && identity
  then calls = []
  else exists c rest, calls = c :: rest.
Proof.
  unfold transformRegion.
  destruct (hasMotionBlur _ _ _ && negb directionalBlur); cbn [negb andb].
  - intros H. destruct (loop_calls_extend _ _ _ _ _ _ _ _ _ _ H) as (more & -> & Hne).
    cbn [transformRegion_init rs_calls rs_finished app] in *.
    destruct more as [|c rest]; [now destruct (Hne eq_refl)|eauto].
  - destruct identity; [now intros [= _ <-]|].
    intros H. destruct (loop_calls_extend _ _ _ _ _ _ _ _ _ _ H) as (more & -> & Hne).
    cbn [transformRegion_init rs_calls rs_finished app] in *.
    destruct more as [|c rest]; [now destruct (Hne eq_refl)|eauto].
Qed.

(** With a source image of the depth and components of the destination,
    the render action calls the effect at least once. *)
Lemma setupAndProcess_makes_a_call P args src :
  src_sameDepthAndComponents src = true ->
  snd (setupAndProcess P args (Some src)) <> [].
Proof.
  intros Hsame. unfold setupAndProcess.
  destruct (amountRange P (ra_time args)) as [amountFrom amountTo].
  rewrite Hsame. cbn [negb].
  set (invert := getValueAtTime (_invert P) (ra_time args) false).
  assert (Hpos : forall (f : nat -> Call),
            map f (seq 0 kTransform3x3MotionBlurCount) <> []).
  { intros f E. apply (f_equal (@length Call)) in E.
    rewrite length_map, length_seq in E. discriminate E. }
  destruct (_ && _).
  - pose proof (getInverseTransforms_spec (ra_time args) (ra_renderScale args)
                  (ra_fielded args) (src_pixelAspectRatio src) invert
                  (if negb (getValueAtTime (_directionalBlur P) (ra_time args)
                              (isNull (_directionalBlur P)))
                   then getValueAtTime (_shutter P) (ra_time args) Double.zero
                   else Double.zero)
                  (getValueAtTime (_shutteroffset P) (ra_time args) 0%Z)
                  (getValueAtTime (_shuttercustomoffset P) (ra_time args) Double.zero)
                  (replicate kTransform3x3MotionBlurCount Matrix3x3_default)
                  kTransform3x3MotionBlurCount) as H.
    cbv zeta in H.
    destruct (getInverseTransforms _ _ _ _ _ _ _ _ _ _) as [[inv size] calls].
    cbn [snd]. destruct H as (_ & _ & _ & _ & ->).
    + apply Nat.eq_le_incl. symmetry. apply length_replicate.
    + apply Hpos.
  - destruct (getValueAtTime (_directionalBlur P) _ _).
    + pose proof (getInverseTransformsBlur_spec (ra_time args) (ra_renderScale args)
                    (ra_fielded args) (src_pixelAspectRatio src) invert amountFrom amountTo
                    (replicate kTransform3x3MotionBlurCount Matrix3x3_default)
                    (Some (replicate kTransform3x3MotionBlurCount Double.zero))
                    kTransform3x3MotionBlurCount) as H.
      cbv zeta in H.
      destruct (getInverseTransformsBlur _ _ _ _ _ _ _ _ _ _) as [[[inv alpha] size] calls].
      cbn [snd]. destruct H as (_ & _ & _ & ->).
      * apply Nat.eq_le_incl. symmetry. apply length_replicate.
      * intros a Ha.
        assert (Ea : a = replicate kTransform3x3MotionBlurCount Double.zero) by congruence.
        rewrite Ea. apply Nat.eq_le_incl. symmetry. apply length_replicate.
      * apply Hpos.
    + cbn [snd]. discriminate.
Qed.

(** Past their early exits, both region actions make the calls of region
    propagation: on the region of definition of the source with the
    negated flag, on the region of interest with the flag itself. *)
Lemma getRegionOfDefinition_propagates budget P args rod calls srcClip :
  getRegionOfDefinition budget P args = Some (rod, calls) ->
  _srcClip P = Some srcClip ->
  rectIsInfinite (getRegionOfDefinition_clip srcClip (rod_time args)) = false ->
  doMasking P (rod_time args) && negb (isNull (_mix P)) &&
    (getValueAtTime (_mix P) (rod_time args) Double.one ==? Double.zero)%D = false ->
  snd <$> region_propagation budget P (getRegionOfDefinition_clip srcClip (rod_time args))
            (rod_time args) (negb (getValueAtTime (_invert P) (rod_time args) false))
  = Some calls.
Proof.
  unfold getRegionOfDefinition, region_propagation. intros H Hsrc Hinf Hmix.
  rewrite Hsrc in H. rewrite Hinf in H.
  replace (doMasking P (rod_time args) && negb (isNull (_mix P)) &&
           ((if doMasking P (rod_time args)
             then getValueAtTime (_mix P) (rod_time args) Double.one
             else Double.one) ==? Double.zero)%D) with false in H
    by (destruct (doMasking P (rod_time args)); [now rewrite Hmix|reflexivity]).
  destruct (regionParams P (rod_time args)) as [[[[[[mb dir] from] to] sh] so] sc].
  destruct (transformRegion _ _ _ _ _ _ _ _ _ _ _ _) as [[r cs]|]; [|discriminate].
  injection H as _ <-. reflexivity.
Qed.

Lemma getRegionsOfInterest_propagates budget P args roi calls srcClip :
  getRegionsOfInterest budget P args = Some (roi, calls) ->
  _srcClip P = Some srcClip ->
  doMasking P (roi_time args) &&
    (getValueAtTime (_mix P) (roi_time args) Double.one ==? Double.zero)%D = false ->
  snd <$> region_propagation budget P (regionOfInterest args) (roi_time args)
            (getValueAtTime (_invert P) (roi_time args) false)
  = Some calls.
Proof.
  unfold getRegionsOfInterest, region_propagation. intros H Hsrc Hmix.
  rewrite Hsrc in H.
  destruct (roi_dereferences_null P (roi_time args)); [discriminate|].
  replace (doMasking P (roi_time args) &&
           ((if doMasking P (roi_time args)
             then getValueAtTime (_mix P) (roi_time args) Double.one
             else Double.one) ==? Double.zero)%D) with false in H
    by (destruct (doMasking P (roi_time args)); [now rewrite Hmix|reflexivity]).
  destruct (regionParams P (roi_time args)) as [[[[[[mb dir] from] to] sh] so] sc].
  destruct (transformRegion _ _ _ _ _ _ _ _ _ _ _ _) as [[r cs]|]; [|discriminate].
  injection H as _ <-. reflexivity.
Qed.

Lemma region_propagation_calls budget P rect time flag r calls :
  region_propagation budget P rect time flag = Some (r, calls) ->
  Forall (fun c => call_invert c = flag) calls /\
  if negb (region_shutter_sampling P time) && isIdentity time
  then calls = []
  else exists c rest, calls = c :: rest.
Proof.
  unfold region_propagation, region_shutter_sampling.
  destruct (regionParams P time) as [[[[[[mb dir] from] to] sh] so] sc].
  intros H. split.
  - exact (transformRegion_calls_invert _ _ _ _ _ _ _ _ _ _ _ _ _ _ H).
  - exact (transformRegion_makes_a_call _ _ _ _ _ _ _ _ _ _ _ _ _ _ H).
Qed.

End InvertFlagCalls.

(** C9.  The region-of-definition action hands region propagation the
    negation of the evaluated [invert] parameter ([false] when the
    parameter is absent), the region-of-interest action the evaluated value
    itself, and the calls of each action are those of that propagation.
    Region propagation calls the effect with the flag it was handed, at
    least once unless it takes the identity shortcut.  The render action,
    on a source image of the depth and components of the destination, calls
    the effect at least once, with the evaluated value itself.  So every
    call of the first path carries the negated value, every call of the
    two others the value, and at one time a call on the first path and a
    call on the second carry opposite flags. *)
Theorem invert_flag_conventions {support : Support} {effect : Effect}
    (P : Params) (budget : nat)
    (rodArgs : RegionOfDefinitionArguments) (roiArgs : RegionsOfInterestArguments)
    (renderArgs : RenderArguments) (src : SrcImage)
    (rod roi : option OfxRectD) (callsRoD callsRoI : list Call) :
  getRegionOfDefinition budget P rodArgs = Some (rod, callsRoD) ->
  getRegionsOfInterest budget P roiArgs = Some (roi, callsRoI) ->
  src_sameDepthAndComponents src = true ->
  let invert t := match _invert P with Some param => param t | None => false end in
  Forall (fun c => call_invert c = negb (invert (rod_time rodArgs))) callsRoD /\
  Forall (fun c => call_invert c = invert (roi_time roiArgs)) callsRoI /\
  (snd (setupAndProcess P renderArgs (Some src)) <> [] /\
   forall image : option SrcImage,
     Forall (fun c => call_invert c = invert (ra_time renderArgs))
       (snd (setupAndProcess P renderArgs image))) /\
  (rod_time rodArgs = roi_time roiArgs ->
   forall c c', In c callsRoD -> In c' callsRoI -> call_invert c = negb (call_invert c')) /\
  (forall srcClip, _srcClip P = Some srcClip ->
     let time := rod_time rodArgs in
     let srcRoD := getRegionOfDefinition_clip srcClip time in
     rectIsInfinite srcRoD = false ->
     doMasking P time && negb (isNull (_mix P)) &&
       (getValueAtTime (_mix P) time Double.one ==? Double.zero)%D = false ->
     snd <$> region_propagation budget P srcRoD time (negb (invert time)) = Some callsRoD) /\
  (forall srcClip, _srcClip P = Some srcClip ->
     let time := roi_time roiArgs in
     doMasking P time &&
       (getValueAtTime (_mix P) time Double.one ==? Double.zero)%D = false ->
     snd <$> region_propagation budget P (regionOfInterest roiArgs) time (invert time)
       = Some callsRoI) /\
  (forall rect time flag r calls,
     region_propagation budget P rect time flag = Some (r, calls) ->
     Forall (fun c => call_invert c = flag) calls /\
     if negb (region_shutter_sampling P time) && isIdentity time
     then calls = []
     else exists c rest, calls = c :: rest).
Proof.
  intros Hrod Hroi Hsame invert.
  assert (Hinvert : forall t, invert t = getValueAtTime (_invert P) t false) by reflexivity.
  pose proof (getRegionOfDefinition_calls_invert budget P rodArgs rod callsRoD Hrod) as H1.
  pose proof (getRegionsOfInterest_calls_invert budget P roiArgs roi callsRoI Hroi) as H2.
  split; [exact H1|]. split; [exact H2|].
  split; [split; [now apply setupAndProcess_makes_a_call
                 |intros image; apply setupAndProcess_calls_invert]|].
  split; [|split; [|split]].
  - intros Ht c c' Hc Hc'.
    rewrite (proj1 (List.Forall_forall _ _) H1 c Hc), (proj1 (List.Forall_forall _ _) H2 c' Hc').
    now rewrite Ht.
  - intros srcClip Hsrc time srcRoD Hinf Hmix.
    exact (getRegionOfDefinition_propagates budget P rodArgs rod callsRoD srcClip
             Hrod Hsrc Hinf Hmix).
  - intros srcClip Hsrc time Hmix.
    exact (getRegionsOfInterest_propagates budget P roiArgs roi callsRoI srcClip
             Hroi Hsrc Hmix).
  - intros rect time flag r calls. apply region_propagation_calls.
Qed.

Lemma invert_flag_conventions_witness :
  let P := Reference.motionBlurPlugin false false Double.zero Double.zero in
  let time := Double.of_Z 10 in
  let rect := Reference.rect 0 0 100 100 in
  exists rod roi callsRoD callsRoI,
    @getRegionOfDefinition Reference.support Reference.moving 1 P
      (mkRoDArgs time Reference.unitScale) = Some (rod, callsRoD) /\
    @getRegionsOfInterest Reference.support Reference.moving 1 P
      (mkRoIArgs time Reference.unitScale rect) = Some (roi, callsRoI) /\
    Forall (fun c => call_invert c = true) callsRoD /\
    Forall (fun c => call_invert c = false) callsRoI /\
    (exists c, In c (snd (@setupAndProcess Reference.support Reference.moving P
                            (Reference.renderArguments time) (Some Reference.srcImage))) /\
               call_invert c = false) /\
    (forall c c', In c callsRoD -> In c' callsRoI -> call_invert c = negb (call_invert c')) /\
    snd <$> @region_propagation Reference.support Reference.moving 1 P rect time true
      = Some callsRoD /\
    snd <$> @region_propagation Reference.support Reference.moving 1 P rect time false
      = Some callsRoI /\
    (exists c rest, callsRoD = c :: rest /\ call_invert c = true) /\
    (exists c rest, callsRoI = c :: rest /\ call_invert c = false).
Proof.
  intros P time rect.
  eassert (Erod : @getRegionOfDefinition Reference.support Reference.moving 1 P
                    (mkRoDArgs time Reference.unitScale) = Some (_, _))
    by (vm_compute; reflexivity).
  eassert (Eroi : @getRegionsOfInterest Reference.support Reference.moving 1 P
                    (mkRoIArgs time Reference.unitScale rect) = Some (_, _))
    by (vm_compute; reflexivity).
  destruct (@invert_flag_conventions Reference.support Reference.moving P 1
              (mkRoDArgs time Reference.unitScale)
              (mkRoIArgs time Reference.unitScale rect)
              (Reference.renderArguments time) Reference.srcImage
              _ _ _ _ Erod Eroi eq_refl)
    as (H1 & H2 & (Hne & H3) & Hopp & Hprod & Hproi & Hflag).
  match type of Erod with
  | _ = Some (_, ?cs) =>
      assert (Erp : snd <$> @region_propagation Reference.support Reference.moving 1 P rect
                              time true = Some cs)
        by exact (Hprod _ eq_refl eq_refl eq_refl)
  end.
  match type of Eroi with
  | _ = Some (_, ?cs) =>
      assert (Eip : snd <$> @region_propagation Reference.support Reference.moving 1 P rect
                              time false = Some cs)
        by exact (Hproi _ eq_refl eq_refl)
  end.
  eexists _, _, _, _. split; [exact Erod|]. split; [exact Eroi|].
  split; [exact H1|]. split; [exact H2|]. split; [|split; [|split; [|split; [|split]]]].
  - destruct (snd (@setupAndProcess Reference.support Reference.moving P
                     (Reference.renderArguments time) (Some Reference.srcImage)))
      as [|c rest] eqn:E; [now destruct Hne|].
    exists c. split; [now left|].
    pose proof (H3 (Some Reference.srcImage)) as Hc. rewrite E in Hc. now inversion Hc.
  - exact (Hopp eq_refl).
  - exact Erp.
  - exact Eip.
  - destruct (@region_propagation Reference.support Reference.moving 1 P rect time true)
      as [[r calls]|] eqn:E;
      [|cbv [fmap option_fmap option_map] in Erp; discriminate Erp].
    destruct (Hflag _ _ _ _ _ E) as [Hall Hsome].
    cbn [fmap option_fmap option_map snd] in Erp. injection Erp as <-.
    change (negb (region_shutter_sampling P time) && isIdentity time) with false in Hsome.
    destruct Hsome as (c & rest & Hc). exists c, rest. split; [exact Hc|].
    rewrite Hc in Hall. now inversion Hall.
  - destruct (@region_propagation Reference.support Reference.moving 1 P rect time false)
      as [[r calls]|] eqn:E;
      [|cbv [fmap option_fmap option_map] in Eip; discriminate Eip].
    destruct (Hflag _ _ _ _ _ E) as [Hall Hsome].
    cbn [fmap option_fmap option_map snd] in Eip. injection Eip as <-.
    change (negb (region_shutter_sampling P time) && isIdentity time) with false in Hsome.
    destruct Hsome as (c & rest & Hc). exists c, rest. split; [exact Hc|].
    rewrite Hc in Hall. now inversion Hall.
Defined.

(** * Further properties of the code *)

(** ** The assertion on the bounding box, in full *)

Section BoundingBoxAssertion.

Import Double DoubleFacts.

Lemma fold_min_from_nan l : fold_left min l nan = nan.
Proof. induction l as [|b l IH]; [reflexivity|]. simpl. now destruct b as [[]|[]| |[] ? ?]. Qed.

Lemma fold_max_from_nan l : fold_left max l nan = nan.
Proof. induction l as [|b l IH]; [reflexivity|]. simpl. now destruct b as [[]|[]| |[] ? ?]. Qed.

(** On one axis the bounds are ordered exactly when the first value is
    not a NaN. *)
Lemma axis_bounds_ordered l a :
  leb (fold_left min l a) (fold_left max l a) = negb (is_nan a).
Proof.
  destruct (is_nan a) eqn:Ha.
  - destruct a; try discriminate. now rewrite fold_min_from_nan.
  - cbn [negb]. apply (leb_trans _ a).
    + apply fold_min_le_init; [exact Ha | now apply leb_refl].
    + apply fold_max_ge_init; [exact Ha | now apply leb_refl].
Qed.

End BoundingBoxAssertion.

(** X1.  The assertion [rod.x1 <= rod.x2 && rod.y1 <= rod.y2] that ends
    [ofxsTransformRegionFromPoints] holds exactly when the four [z] are not
    all of one sign, or neither coordinate of the first quotient is a NaN:
    a NaN in a later quotient is skipped by the comparisons, a NaN in the
    first one stays in both bounds. *)
Theorem rod_assertion_characterised (p : Array4 Point3D) :
  rod_assertion (ofxsTransformRegionFromPoints p) =
    negb (sameSignZ p) ||
    (negb (Double.is_nan (pt_x (dehomogenize (at0 p)))) &&
     negb (Double.is_nan (pt_y (dehomogenize (at0 p))))).
Proof.
  destruct (sameSignZ p) eqn:E; cbn [negb orb].
  - rewrite (regionFromPoints_sameSign p E).
    unfold rod_assertion, boundingBoxOf, min4, max4. cbn [x1 x2 y1 y2 map4 at0 at1 at2 at3].
    now rewrite !axis_bounds_ordered.
  - now rewrite (regionFromPoints_mixed p E).
Qed.

(** ** The motion-blur margin *)

Section Margin.

Import Double DoubleFacts.

Lemma sub_zero_eq a : is_nan a = false -> eqb (sub a zero) a = true.
Proof.
  destruct a as [[]|[]| |[] ma ea]; try discriminate; intros _; cbn; try reflexivity;
    unfold eqb, SFeqb, SFcompare; rewrite Z.compare_refl;
    change (Pos.compare_cont Eq ma ma) with (Pos.compare ma ma);
    now rewrite Pos.compare_refl.
Qed.

Lemma add_zero_eq a : is_nan a = false -> eqb (add a zero) a = true.
Proof.
  destruct a as [[]|[]| |[] ma ea]; try discriminate; intros _; cbn; try reflexivity;
    unfold eqb, SFeqb, SFcompare; rewrite Z.compare_refl;
    change (Pos.compare_cont Eq ma ma) with (Pos.compare ma ma);
    now rewrite Pos.compare_refl.
Qed.

End Margin.

(** X2.  The margin [expand] of [transformRegion] starts at [0.] and is
    only ever replaced by a [std::max] with a [std::fabs]: after any number
    of iterations it is not a NaN and not negative, it never decreases from
    one iteration to the next, and it is at least every displacement that
    is not a NaN (a NaN displacement is skipped). *)
Theorem expand_margin (expand : double) (p_prev p : Array4 Point3D)
    (ps : list (Array4 Point3D)) :
  (Double.is_nan expand = false ->
   Double.is_nan (update_expand expand p_prev p) = false /\
   (expand <=? update_expand expand p_prev p)%D = true /\
   (forall d, In d (corner_displacements p_prev p) -> Double.is_nan d = false ->
      (d <=? update_expand expand p_prev p)%D = true)) /\
  Double.is_nan (max_displacement ps) = false /\
  (Double.zero <=? max_displacement ps)%D = true /\
  (forall d, In d (consecutive_displacements ps) -> Double.is_nan d = false ->
     (d <=? max_displacement ps)%D = true).
Proof.
  unfold update_expand, max_displacement.
  split; [intros Hn; split; [|split]|split; [|split]].
  - now apply DoubleFacts.fold_max_not_nan.
  - apply DoubleFacts.fold_max_ge_init; [exact Hn | now apply DoubleFacts.leb_refl].
  - intros d Hd Hdn. now apply DoubleFacts.fold_max_ge.
  - now apply DoubleFacts.fold_max_not_nan.
  - now apply DoubleFacts.fold_max_ge_init.
  - intros d Hd Hdn. now apply DoubleFacts.fold_max_ge.
Qed.

Lemma expand_margin_witness :
  let o := mkPoint3D Double.zero Double.zero Double.one in
  let q := mkPoint3D (Double.of_Z 3) Double.nan Double.one in
  (Double.zero <=? update_expand Double.zero (mkArray4 o o o o) (mkArray4 q o o o))%D = true /\
  (Double.of_Z 3 <=? update_expand Double.zero (mkArray4 o o o o) (mkArray4 q o o o))%D = true.
Proof.
  intros o q.
  destruct (expand_margin Double.zero (mkArray4 o o o o) (mkArray4 q o o o) [])
    as [H _].
  destruct (H eq_refl) as (_ & H0 & Hd). split; [exact H0|].
  apply Hd; [|reflexivity]. vm_compute. left. reflexivity.
Defined.

(** ** The shutter sampler *)

(** X3.  [getInverseTransforms] calls the effect once per slot of the
    array, in slot order, always with amount [1.] and the [invert] it was
    given, the first time exactly at the start of the shutter range; it
    leaves the array's length and the slots beyond the capacity as they
    were; and the size it returns is never 0: it is 1 or the capacity (1
    even for a capacity of 0). *)
Theorem shutter_sampler_calls {support : Support} {effect : Effect}
    (time : double) (renderscale : OfxPointD) (fielded : bool) (par : double) (invert : bool)
    (shutter : double) (shutteroffset : Z) (shuttercustomoffset : double)
    (invtransform : list Matrix3x3) (alloc : nat)
    (inv : list Matrix3x3) (size : nat) (calls : list Call) :
  (alloc <= length invtransform)%nat ->
  getInverseTransforms time renderscale fielded par invert shutter shutteroffset
    shuttercustomoffset invtransform alloc = (inv, size, calls) ->
  let range := shutterRange time shutter shutteroffset shuttercustomoffset in
  length calls = alloc /\
  (forall i, (i < alloc)%nat ->
     calls !! i =
       Some (mkCall (shutter_sample_time (range_min range) (range_max range) alloc i)
               Double.one invert)) /\
  (forall c, calls !! 0%nat = Some c -> call_time c = range_min range) /\
  length inv = length invtransform /\
  (forall i, (alloc <= i)%nat -> inv !! i = invtransform !! i) /\
  (1 <= size)%nat /\ (size = 1%nat \/ size = alloc).
Proof.
  intros Hlen E range.
  pose proof (getInverseTransforms_spec time renderscale fielded par invert shutter
                shutteroffset shuttercustomoffset invtransform alloc Hlen) as H.
  cbv zeta in H. rewrite E in H. destruct H as (Hl & _ & Hge & Hsize & Hcalls).
  fold range in Hcalls.
  assert (Hi : forall i, (i < alloc)%nat ->
            calls !! i = Some (shutter_call range invert alloc i)).
  { intros i Hi. rewrite Hcalls, list_lookup_fmap.
    rewrite (lookup_seq_lt 0 alloc i Hi). reflexivity. }
  split; [now rewrite Hcalls, length_map, length_seq|].
  split; [exact Hi|]. split; [|split; [exact Hl|split; [exact Hge|]]].
  - intros c Hc. destruct alloc as [|alloc].
    + rewrite Hcalls in Hc. discriminate.
    + rewrite (Hi 0%nat) in Hc by lia. now injection Hc as <-.
  - rewrite Hsize. destruct (allEqualToFirst alloc inv) eqn:Heq; [split; [lia|now left]|].
    split; [|now right]. destruct alloc; [discriminate|lia].
Qed.

Lemma shutter_sampler_calls_witness :
  length
    (@getInverseTransforms Reference.support Reference.moving
       (Double.of_Z 10) Reference.unitScale false Double.one false (Double.of_Z 2) 0%Z
       Double.zero (replicate 3 identityMatrix) 3).2 = 3%nat.
Proof.
  eassert (E : @getInverseTransforms Reference.support Reference.moving
                 (Double.of_Z 10) Reference.unitScale false Double.one false (Double.of_Z 2)
                 0%Z Double.zero (replicate 3 identityMatrix) 3 = (_, _, _))
    by (vm_compute; reflexivity).
  destruct (@shutter_sampler_calls Reference.support Reference.moving
              (Double.of_Z 10) Reference.unitScale false Double.one false (Double.of_Z 2)
              0%Z Double.zero (replicate 3 identityMatrix) 3 _ _ _
              ltac:(simpl; lia) E) as (Hlen & _).
  rewrite E. exact Hlen.
Defined.

(** ** The walk of [transformRegion] *)

Section RegionWalk.

Context {support : Support} {effect : Effect}.

(** Two runs of the loop from states at the same cursor: as long as the
    effect answers the calls of both alike, they visit the same times and
    amounts, whatever the rectangles and whatever the flags. *)
Lemma loop_sample_points (directionalBlur : bool) (amountFrom amountTo : double)
    (range : OfxRangeD) (r1 r2 : OfxRectD) (v1 v2 : bool) :
  (forall t a, is_Some (getInverseTransformCanonical t a v1) <->
               is_Some (getInverseTransformCanonical t a v2)) ->
  forall budget st1 st2,
    rs_cursor st1 = rs_cursor st2 ->
    rs_finished st1 = rs_finished st2 ->
    map sample_point (rs_calls st1) = map sample_point (rs_calls st2) ->
    (map sample_point ∘ snd) <$>
      transformRegion_loop budget r1 v1 directionalBlur amountFrom amountTo range st1 =
    (map sample_point ∘ snd) <$>
      transformRegion_loop budget r2 v2 directionalBlur amountFrom amountTo range st2.
Proof.
  intros Hcb. induction budget as [|budget IH]; intros st1 st2 Hc Hf Hcalls;
    cbn [transformRegion_loop]; rewrite <- Hf; destruct (rs_finished st1) eqn:Hfin.
  - cbv [fmap option_fmap option_map compose snd]. now rewrite Hcalls.
  - reflexivity.
  - cbv [fmap option_fmap option_map compose snd]. now rewrite Hcalls.
  - unfold transformRegion_body. rewrite <- Hc.
    cbn [call_at call_time call_amount call_invert].
    set (t := c_t (rs_cursor st1)).
    set (a := region_amount amountFrom amountTo (c_amount (rs_cursor st1))).
    assert (Hcalls' : map sample_point (rs_calls st1 ++ [mkCall t a v1]) =
                      map sample_point (rs_calls st2 ++ [mkCall t a v2])).
    { rewrite !map_app, Hcalls. reflexivity. }
    pose proof (Hcb t a) as Hta.
    destruct (getInverseTransformCanonical t a v1) as [m1|] eqn:E1,
             (getInverseTransformCanonical t a v2) as [m2|] eqn:E2.
    + destruct (ofxsTransformRegionFromRoD r1 m1) as [p1 b1].
      destruct (ofxsTransformRegionFromRoD r2 m2) as [p2 b2].
      destruct (c_last (rs_cursor st1)); apply IH; cbn; auto.
    + destruct (proj1 Hta (ex_intro _ m1 eq_refl)) as [? ?]. discriminate.
    + destruct (proj2 Hta (ex_intro _ m2 eq_refl)) as [? ?]. discriminate.
    + cbv [fmap option_fmap option_map compose snd]. f_equal. exact Hcalls'.
Qed.

(** On a walk, the loop returns after at most one call per cursor. *)
Lemma loop_calls_bound (rectFrom : OfxRectD) (invert directionalBlur : bool)
    (amountFrom amountTo : double) (range : OfxRangeD) rest : forall st budget,
  rs_finished st = false ->
  is_walk directionalBlur range (rs_cursor st) rest ->
  (length rest < budget)%nat ->
  exists rectTo calls,
    transformRegion_loop budget rectFrom invert directionalBlur amountFrom amountTo range st
    = Some (rectTo, calls) /\
    (length (rs_calls st) < length calls <= length (rs_calls st) + S (length rest))%nat.
Proof.
  induction rest as [|c' rest IH]; intros st budget Hfin Hwalk Hb;
    (destruct budget as [|budget]; [simpl in Hb; lia|]);
    cbn [transformRegion_loop]; rewrite Hfin;
    (destruct (sample_at rectFrom invert amountFrom amountTo (rs_cursor st))
       as [[p r]|] eqn:Hs;
       [rewrite (body_success rectFrom invert directionalBlur amountFrom amountTo range
                   st p r Hs)
       |rewrite (body_failure rectFrom invert directionalBlur amountFrom amountTo range
                   st Hs);
        eexists _, _; split; [reflexivity|]; rewrite length_app; simpl; lia]).
  - cbn [is_walk] in Hwalk. rewrite Hwalk.
    eexists _, _. split; [destruct budget; reflexivity|].
    cbn [rs_calls]. rewrite length_app. simpl. lia.
  - cbn [is_walk] in Hwalk. destruct Hwalk as (Hlast & -> & Hwalk). rewrite Hlast.
    match goal with
    | |- context [transformRegion_loop budget _ _ _ _ _ _ ?st'] =>
        destruct (IH st' budget) as (rectTo & calls & E & Hl);
          [reflexivity | exact Hwalk | simpl in Hb; lia |]
    end.
    exists rectTo, calls. split; [exact E|].
    cbn [rs_calls] in Hl. rewrite length_app in Hl. simpl in *. lia.
Qed.

End RegionWalk.

(** X4.  Without motion blur ([hasmotionblur] false) and outside the
    identity shortcut, [transformRegion] makes one call, at the frame time
    and at the amount [amountFrom + 1.*(amountTo - amountFrom)]; it returns
    the unbounded rectangle when that call fails, and otherwise the bounding
    box of the transformed rectangle expanded by a margin of [0.]: each
    side of the result that is not a NaN compares equal to that side of
    the box. *)
Theorem region_without_motion_blur {support : Support} {effect : Effect}
    (budget : nat) (rectFrom : OfxRectD) (time : double) (invert : bool)
    (motionblur : double) (directionalBlur : bool) (amountFrom amountTo shutter : double)
    (shutteroffset_i : Z) (shuttercustomoffset : double) :
  hasMotionBlur shutter motionblur directionalBlur = false ->
  (0 < budget)%nat ->
  let amount := (amountFrom + Double.one * (amountTo - amountFrom))%D in
  let box transform :=
    rectBoundingBox superEmptyRect (snd (ofxsTransformRegionFromRoD rectFrom transform)) in
  transformRegion budget rectFrom time invert motionblur directionalBlur amountFrom amountTo
    shutter shutteroffset_i shuttercustomoffset false =
    Some (match getInverseTransformCanonical time amount invert with
          | None => infiniteRect
          | Some transform => expandRegion (box transform) Double.zero
          end, [mkCall time amount invert]) /\
  forall r : OfxRectD,
    (Double.is_nan (x1 r) = false -> (x1 (expandRegion r Double.zero) ==? x1 r)%D = true) /\
    (Double.is_nan (y1 r) = false -> (y1 (expandRegion r Double.zero) ==? y1 r)%D = true) /\
    (Double.is_nan (x2 r) = false -> (x2 (expandRegion r Double.zero) ==? x2 r)%D = true) /\
    (Double.is_nan (y2 r) = false -> (y2 (expandRegion r Double.zero) ==? y2 r)%D = true).
Proof.
  intros Hmb Hb amount box. split.
  - unfold transformRegion. rewrite Hmb. cbn [andb negb].
    destruct budget as [|budget]; [lia|].
    subst amount box.
    cbv [transformRegion_loop transformRegion_init transformRegion_body rs_finished
         rs_cursor initial_cursor call_at c_t c_amount c_last call_time call_amount
         call_invert range_min negb rs_calls app rs_first rs_expand rs_rectTo
         region_amount].
    destruct (getInverseTransformCanonical time _ invert) as [m|]; [|reflexivity].
    destruct (ofxsTransformRegionFromRoD rectFrom m) as [p b].
    destruct budget; reflexivity.
  - intros r. unfold expandRegion. cbn [x1 y1 x2 y2].
    repeat split; intros Hnan;
      match goal with
      | |- context [if ?c then _ else _] => destruct c
      end;
      auto using sub_zero_eq, add_zero_eq, DoubleFacts.eqb_refl.
Qed.

Lemma region_without_motion_blur_witness :
  @transformRegion Reference.support Reference.moving 1
    (Reference.rect 0 0 100 100) (Double.of_Z 10) false Double.zero false
    (Double.of_Z 2) (Double.of_Z 5) Double.zero 0%Z Double.zero false
  = Some (Reference.rect 50 0 150 100, [mkCall (Double.of_Z 10) (Double.of_Z 5) false]).
Proof.
  destruct (@region_without_motion_blur Reference.support Reference.moving 1
              (Reference.rect 0 0 100 100) (Double.of_Z 10) false Double.zero false
              (Double.of_Z 2) (Double.of_Z 5) Double.zero 0%Z Double.zero
              eq_refl ltac:(lia)) as [E _].
  rewrite E. vm_compute. reflexivity.
Defined.

(** X5.  The samples that [transformRegion] asks of the effect do not
    depend on the rectangle it transforms; and for an effect whose calls
    succeed or fail regardless of [invert], the times and amounts of the
    calls do not depend on [invert] either: the region-of-definition and the
    region-of-interest actions, which differ in the rectangle and in the
    flag, walk the same samples. *)
Theorem region_samples_independent_of_rectangle {support : Support} {effect : Effect}
    (budget : nat) (r1 r2 : OfxRectD) (time : double) (invert : bool)
    (motionblur : double) (directionalBlur : bool) (amountFrom amountTo shutter : double)
    (shutteroffset_i : Z) (shuttercustomoffset : double) (identity : bool) :
  snd <$> transformRegion budget r1 time invert motionblur directionalBlur amountFrom
            amountTo shutter shutteroffset_i shuttercustomoffset identity =
  snd <$> transformRegion budget r2 time invert motionblur directionalBlur amountFrom
            amountTo shutter shutteroffset_i shuttercustomoffset identity /\
  ((forall t a, is_Some (getInverseTransformCanonical t a true) <->
                is_Some (getInverseTransformCanonical t a false)) ->
   (map sample_point ∘ snd) <$>
     transformRegion budget r1 time (negb invert) motionblur directionalBlur amountFrom
       amountTo shutter shutteroffset_i shuttercustomoffset identity =
   (map sample_point ∘ snd) <$>
     transformRegion budget r2 time invert motionblur directionalBlur amountFrom
       amountTo shutter shutteroffset_i shuttercustomoffset identity).
Proof.
  split.
  - pose proof (fun range st =>
                  loop_sample_points directionalBlur amountFrom amountTo range r1 r2
                    invert invert (fun t a => iff_refl _) budget st st eq_refl eq_refl eq_refl)
      as Hloop.
    assert (Hcalls : forall o1 o2 : option (OfxRectD * list Call),
              (map sample_point ∘ snd) <$> o1 = (map sample_point ∘ snd) <$> o2 ->
              (forall r c, o1 = Some (r, c) -> Forall (fun x => call_invert x = invert) c) ->
              (forall r c, o2 = Some (r, c) -> Forall (fun x => call_invert x = invert) c) ->
              snd <$> o1 = snd <$> o2).
    { intros [[ra ca]|] [[rb cb]|]; cbn; try discriminate; [|reflexivity].
      intros [= Hm] Ha Hb. f_equal.
      specialize (Ha _ _ eq_refl). specialize (Hb _ _ eq_refl).
      revert cb Hm Hb. induction Ha as [|x ca Hx _ IH]; intros [|y cb]; cbn;
        try discriminate; [reflexivity|].
      intros [= Ht Hamt Hm] Hb. inversion Hb as [|? ? Hy Hb']; subst.
      f_equal; [|now apply IH].
      destruct x, y; cbn in *; congruence. }
    apply Hcalls.
    + unfold transformRegion.
      destruct (hasMotionBlur _ _ _ && negb directionalBlur); [apply Hloop|].
      destruct identity; [reflexivity|apply Hloop].
    + intros r c. apply transformRegion_calls_invert.
    + intros r c. apply transformRegion_calls_invert.
  - intros Hcb.
    assert (Hcb' : forall t a, is_Some (getInverseTransformCanonical t a (negb invert)) <->
                               is_Some (getInverseTransformCanonical t a invert)).
    { intros t a. destruct invert; cbn [negb]; [symmetry|]; apply Hcb. }
    pose proof (fun range st =>
                  loop_sample_points directionalBlur amountFrom amountTo range r1 r2
                    (negb invert) invert Hcb' budget st st eq_refl eq_refl eq_refl)
      as Hloop.
    unfold transformRegion.
    destruct (hasMotionBlur _ _ _ && negb directionalBlur); [apply Hloop|].
    destruct identity; [reflexivity|apply Hloop].
Qed.

Lemma region_samples_independent_of_rectangle_witness :
  (map sample_point ∘ snd) <$>
    @transformRegion Reference.support Reference.moving 20
      (Reference.rect 0 0 100 100) (Double.of_Z 10) true Double.one true
      Double.zero Double.one Double.zero 0%Z Double.zero false =
  (map sample_point ∘ snd) <$>
    @transformRegion Reference.support Reference.moving 20
      (Reference.rect 5 5 7 7) (Double.of_Z 10) false Double.one true
      Double.zero Double.one Double.zero 0%Z Double.zero false.
Proof.
  destruct (@region_samples_independent_of_rectangle Reference.support Reference.moving 20
              (Reference.rect 0 0 100 100) (Reference.rect 5 5 7 7) (Double.of_Z 10) false
              Double.one true Double.zero Double.one Double.zero 0%Z Double.zero false)
    as [_ H].
  apply H. intros t a. split; intros _; eexists; reflexivity.
Defined.

Section RegionEnds.

Context {support : Support} {effect : Effect}.

(** Outside shutter sampling [transformRegion] returns, after at most nine
    calls, and without any on the identity shortcut. *)
Lemma transformRegion_ends
    (budget : nat) (rectFrom : OfxRectD) (time : double) (invert : bool)
    (motionblur : double) (directionalBlur : bool) (amountFrom amountTo shutter : double)
    (shutteroffset_i : Z) (shuttercustomoffset : double) (identity : bool) :
  hasMotionBlur shutter motionblur directionalBlur && negb directionalBlur = false ->
  (8 < budget)%nat ->
  exists rectTo calls,
    transformRegion budget rectFrom time invert motionblur directionalBlur amountFrom
      amountTo shutter shutteroffset_i shuttercustomoffset identity = Some (rectTo, calls) /\
    (length calls <= 9)%nat /\
    (hasMotionBlur shutter motionblur directionalBlur = false -> (length calls <= 1)%nat) /\
    (identity = true -> rectTo = rectFrom /\ calls = []).
Proof.
  intros Hmode Hb. unfold transformRegion. rewrite Hmode.
  destruct identity.
  { exists rectFrom, []. split; [reflexivity|]. simpl. repeat split; lia. }
  set (range := {| range_min := time; range_max := time |}).
  destruct (hasMotionBlur shutter motionblur directionalBlur) eqn:Hmb.
  - destruct directionalBlur; [|discriminate].
    destruct (loop_calls_bound rectFrom invert true amountFrom amountTo range
                (map (fun j => cursor_at true range true j) (seq 1 8))
                (transformRegion_init range true) budget eq_refl
                (stops_at_walk true range true 8 (directional_stops range))
                ltac:(rewrite length_map, length_seq; exact Hb))
      as (rectTo & calls & E & Hl).
    exists rectTo, calls. split; [exact E|].
    rewrite length_map, length_seq in Hl. cbn in Hl.
    split; [lia|]. split; discriminate.
  - destruct (loop_calls_bound rectFrom invert directionalBlur amountFrom amountTo range
                [] (transformRegion_init range false) budget eq_refl eq_refl
                ltac:(simpl; lia))
      as (rectTo & calls & E & Hl).
    exists rectTo, calls. split; [exact E|]. cbn in Hl.
    split; [lia|]. split; [intros; lia|discriminate].
Qed.

End RegionEnds.

(** X6.  Outside shutter sampling the loop of [transformRegion] always
    ends: it returns a rectangle after at most nine calls of the effect
    (nine in directional-blur mode, one without motion blur, none on the
    identity shortcut, which returns the rectangle it was given), whatever
    the effect answers.  So does the region-of-definition action, with at
    most nine calls and none when the effect is the identity at the frame.
    The region-of-interest action reads [_mix] under masking without
    testing it: with a source clip, under masking and with a null [_mix]
    it does not return; in every other case it returns as the
    region-of-definition action does.  The constructor leaves [_mix] null
    on a masked plugin exactly when the effect has no [invert]
    parameter. *)
Theorem region_walk_ends_without_shutter {support : Support} {effect : Effect} {host : Host}
    (budget : nat) (rectFrom : OfxRectD) (time : double) (invert : bool)
    (motionblur : double) (directionalBlur : bool) (amountFrom amountTo shutter : double)
    (shutteroffset_i : Z) (shuttercustomoffset : double) (identity : bool)
    (P : Params) (rodArgs : RegionOfDefinitionArguments)
    (roiArgs : RegionsOfInterestArguments)
    (masked : bool) (paramsType : Transform3x3ParamsTypeEnum) :
  (8 < budget)%nat ->
  (hasMotionBlur shutter motionblur directionalBlur && negb directionalBlur = false ->
   exists rectTo calls,
     transformRegion budget rectFrom time invert motionblur directionalBlur amountFrom
       amountTo shutter shutteroffset_i shuttercustomoffset identity = Some (rectTo, calls) /\
     (length calls <= 9)%nat /\
     (hasMotionBlur shutter motionblur directionalBlur = false -> (length calls <= 1)%nat) /\
     (identity = true -> rectTo = rectFrom /\ calls = [])) /\
  (region_shutter_sampling P (rod_time rodArgs) = false ->
   exists rod calls,
     getRegionOfDefinition budget P rodArgs = Some (rod, calls) /\
     (length calls <= 9)%nat /\
     (isIdentity (rod_time rodArgs) = true -> calls = [])) /\
  (is_Some (_srcClip P) -> doMasking P (roi_time roiArgs) = true -> _mix P = None ->
   getRegionsOfInterest budget P roiArgs = None) /\
  (region_shutter_sampling P (roi_time roiArgs) = false ->
   _srcClip P = None \/ doMasking P (roi_time roiArgs) = false \/ is_Some (_mix P) ->
   exists roi calls,
     getRegionsOfInterest budget P roiArgs = Some (roi, calls) /\
     (length calls <= 9)%nat /\
     (isIdentity (roi_time roiArgs) = true -> calls = [])) /\
  (let constructed := ip_params (Transform3x3Plugin masked paramsType) in
   forall t, doMasking constructed t = true ->
     (_mix constructed = None <-> paramExists kParamTransform3x3Invert = false)).
Proof.
  intros Hb. split; [|split; [|split; [|split]]].
  - intros Hmode. now apply transformRegion_ends.
  - unfold region_shutter_sampling, getRegionOfDefinition. intros Hmode.
    destruct (_srcClip P) as [srcClip|];
      [|eexists _, _; split; [reflexivity|split; [simpl; lia|reflexivity]]].
    destruct (rectIsInfinite _);
      [eexists _, _; split; [reflexivity|split; [simpl; lia|reflexivity]]|].
    destruct (_ && _ && _);
      [eexists _, _; split; [reflexivity|split; [simpl; lia|reflexivity]]|].
    destruct (regionParams P (rod_time rodArgs)) as [[[[[[mb dir] from] to] sh] so] sc].
    destruct (transformRegion_ends budget (getRegionOfDefinition_clip srcClip (rod_time rodArgs))
                (rod_time rodArgs)
                (negb (getValueAtTime (_invert P) (rod_time rodArgs) false))
                mb dir from to sh so sc (isIdentity (rod_time rodArgs)) Hmode Hb)
      as (r & calls & -> & Hl & _ & Hid).
    eexists _, _. split; [reflexivity|]. split; [exact Hl|].
    intros H. now destruct (Hid H).
  - intros [srcClip Hsrc] Hmask Hmix. unfold getRegionsOfInterest, roi_dereferences_null.
    now rewrite Hsrc, Hmask, Hmix.
  - unfold region_shutter_sampling, getRegionsOfInterest, roi_dereferences_null.
    intros Hmode Hcase.
    destruct (_srcClip P) as [srcClip|];
      [|eexists _, _; split; [reflexivity|split; [simpl; lia|reflexivity]]].
    assert (Hnull : doMasking P (roi_time roiArgs) && isNull (_mix P) = false).
    { destruct Hcase as [H|[H|[mix H]]]; [discriminate|now rewrite H|].
      rewrite H. apply andb_false_r. }
    destruct (doMasking P (roi_time roiArgs) && isNull (_mix P)); [discriminate Hnull|].
    destruct (doMasking P (roi_time roiArgs) && _);
      [eexists _, _; split; [reflexivity|split; [simpl; lia|reflexivity]]|].
    destruct (regionParams P (roi_time roiArgs)) as [[[[[[mb dir] from] to] sh] so] sc].
    destruct (transformRegion_ends budget (regionOfInterest roiArgs) (roi_time roiArgs)
                (getValueAtTime (_invert P) (roi_time roiArgs) false)
                mb dir from to sh so sc (isIdentity (roi_time roiArgs)) Hmode Hb)
      as (r & calls & -> & Hl & _ & Hid).
    eexists _, _. split; [reflexivity|]. split; [exact Hl|].
    intros H. now destruct (Hid H).
  - intros constructed t. unfold constructed, doMasking, Transform3x3Plugin.
    cbn [ip_params _maskClip _maskApply _mix isNull orb].
    destruct masked; [|discriminate]. intros _.
    rewrite andb_true_r. destruct (paramExists kParamTransform3x3Invert); split; congruence.
Qed.

Lemma region_walk_ends_without_shutter_witness :
  let rodArgs := mkRoDArgs (Double.of_Z 10) Reference.unitScale in
  let roiArgs := mkRoIArgs (Double.of_Z 10) Reference.unitScale (Reference.rect 0 0 100 100) in
  (exists rod calls,
     @getRegionOfDefinition Reference.support Reference.failing 9
       (Reference.dirBlurPlugin Double.one false) rodArgs = Some (rod, calls) /\
     (length calls <= 9)%nat) /\
  (exists roi,
     @getRegionsOfInterest ReferenceActions.support ReferenceActions.still 9
       (Reference.dirBlurPlugin Double.one false) roiArgs = Some (roi, [])) /\
  @getRegionsOfInterest Reference.support Reference.moving 9
    (ip_params (@Transform3x3Plugin ReferenceActions.bareHost true eTransform3x3ParamsTypeNone))
    roiArgs = None.
Proof.
  intros rodArgs roiArgs. split; [|split].
  - destruct (@region_walk_ends_without_shutter Reference.support Reference.failing
                ReferenceActions.host 9
                (Reference.rect 0 0 100 100) (Double.of_Z 10) false Double.one true
                Double.zero Double.one Double.zero 0%Z Double.zero false
                (Reference.dirBlurPlugin Double.one false) rodArgs roiArgs
                true eTransform3x3ParamsTypeNone
                ltac:(lia)) as (_ & H & _).
    destruct (H eq_refl) as (rod & calls & E & Hl & _). eauto.
  - destruct (@region_walk_ends_without_shutter ReferenceActions.support ReferenceActions.still
                ReferenceActions.host 9
                (Reference.rect 0 0 100 100) (Double.of_Z 10) false Double.one true
                Double.zero Double.one Double.zero 0%Z Double.zero false
                (Reference.dirBlurPlugin Double.one false) rodArgs roiArgs
                true eTransform3x3ParamsTypeNone
                ltac:(lia)) as (_ & _ & _ & H & _).
    destruct (H eq_refl (or_intror (or_introl eq_refl))) as (roi & calls & E & _ & Hid).
    exists roi. rewrite E, (Hid eq_refl). reflexivity.
  - destruct (@region_walk_ends_without_shutter Reference.support Reference.moving
                ReferenceActions.bareHost 9
                (Reference.rect 0 0 100 100) (Double.of_Z 10) false Double.one true
                Double.zero Double.one Double.zero 0%Z Double.zero false
                (ip_params (@Transform3x3Plugin ReferenceActions.bareHost true
                              eTransform3x3ParamsTypeNone)) rodArgs roiArgs
                true eTransform3x3ParamsTypeNone
                ltac:(lia)) as (_ & _ & Hnull & _ & Hmix).
    apply Hnull; [eexists; reflexivity|reflexivity|].
    apply (Hmix (Double.of_Z 10)); reflexivity.
Defined.

(** X7.  In shutter mode the loop of [transformRegion] does not end when
    the start of the shutter range is its own next quarter frame
    ([floor(4t + 1)/4] gives [t] back, as it does from 2^53 on) and lies
    below the end of the range, and the effect has a transform there: no
    number of iterations gives a result. *)
Theorem shutter_walk_stalls {support : Support} {effect : Effect}
    (budget : nat) (rectFrom : OfxRectD) (time : double) (invert : bool)
    (motionblur amountFrom amountTo shutter : double)
    (shutteroffset_i : Z) (shuttercustomoffset : double) (identity : bool) :
  let range := shutterRange time shutter shutteroffset_i shuttercustomoffset in
  hasMotionBlur shutter motionblur false = true ->
  next_quarter_frame (range_min range) = range_min range ->
  (range_min range >=? range_max range)%D = false ->
  is_Some (getInverseTransformCanonical (range_min range)
             (region_amount amountFrom amountTo Double.one) invert) ->
  transformRegion budget rectFrom time invert motionblur false amountFrom amountTo
    shutter shutteroffset_i shuttercustomoffset identity = None.
Proof.
  intros range Hmb Hfix Hbelow [m Hm]. unfold transformRegion. rewrite Hmb. cbn [andb negb].
  fold range. apply loop_stalls; try reflexivity; try assumption.
  unfold sample_at.
  cbn [transformRegion_init rs_cursor initial_cursor call_at c_t c_amount call_time
       call_amount].
  rewrite Hm. eauto.
Qed.

Lemma shutter_walk_stalls_witness :
  @transformRegion Reference.support Reference.moving 100
    (Reference.rect 0 0 100 100) (Double.of_Z (2 ^ 53)) false Double.one false
    Double.zero Double.one (Double.of_Z 2) 1%Z Double.zero false
  = None.
Proof.
  apply (@shutter_walk_stalls Reference.support Reference.moving 100
           (Reference.rect 0 0 100 100) (Double.of_Z (2 ^ 53)) false Double.one
           Double.zero Double.one (Double.of_Z 2) 1%Z Double.zero false).
  - reflexivity.
  - vm_compute. reflexivity.
  - vm_compute. reflexivity.
  - vm_compute. eauto.
Defined.

(** ** The render action *)

Section Render.

Context {support : Support} {effect : Effect}.

Variables (P : Params) (args : RenderArguments) (src : SrcImage).

Local Abbreviation time := (ra_time args).
Local Abbreviation invert := (getValueAtTime (_invert P) time false).
Local Abbreviation motionblur := (getValueAtTime (_motionblur P) time Double.zero).
Local Abbreviation shutter := (getValueAtTime (_shutter P) time Double.zero).
Local Abbreviation amountFrom := (fst (amountRange P time)).
Local Abbreviation amountTo := (snd (amountRange P time)).
Local Abbreviation blackOutside := (getValueAtTime (_blackOutside P) time false).
Local Abbreviation mix :=
  (if _masked P then getValueAtTime (_mix P) time Double.one else Double.one).
Local Abbreviation count := kTransform3x3MotionBlurCount.

(** What [setupAndProcess] hands over, once the transforms are known. *)
Local Abbreviation handed inv alpha size :=
  {| pv_invtransform := composeWithSrcTransform src size inv;
     pv_invtransformalpha := alpha;
     pv_invtransformsize := size;
     pv_blackOutside := blackOutside;
     pv_motionblur := if Nat.eqb size 1 then Double.zero else motionblur;
     pv_mix := mix |}.

(** [setupAndProcess] on a source image of the right depth, mode by
    mode. *)
Lemma setupAndProcess_cases :
  src_sameDepthAndComponents src = true ->
  match render_mode P time with
  | ShutterMode =>
      let '(inv, size, calls) :=
        getInverseTransforms time (ra_renderScale args) (ra_fielded args)
          (src_pixelAspectRatio src) invert shutter
          (getValueAtTime (_shutteroffset P) time 0%Z)
          (getValueAtTime (_shuttercustomoffset P) time Double.zero)
          (replicate count Matrix3x3_default) count in
      setupAndProcess P args (Some src) = (Some (handed inv [] size), calls)
  | DirectionalMode =>
      let '(inv, alpha, size, calls) :=
        getInverseTransformsBlur time (ra_renderScale args) (ra_fielded args)
          (src_pixelAspectRatio src) invert amountFrom amountTo
          (replicate count Matrix3x3_default) (Some (replicate count Double.zero)) count in
      setupAndProcess P args (Some src) =
        (Some (handed inv
                 (normalizeAlpha (getValueAtTime (_fading P) time Double.zero) amountTo
                    (default [] alpha))
                 size), calls)
  | SingleMode =>
      setupAndProcess P args (Some src) =
        (Some (handed [stored_for (ra_renderScale args) (ra_fielded args)
                         (src_pixelAspectRatio src)
                         (getInverseTransformCanonical time Double.one invert)] [] 1%nat),
         [mkCall time Double.one invert])
  end.
Proof.
  intros Hsame. unfold render_mode, setupAndProcess.
  destruct (amountRange P time) as [from to]. cbn [fst snd].
  rewrite Hsame. cbn [negb].
  destruct (getValueAtTime (_directionalBlur P) time (isNull (_directionalBlur P))).
  - cbn [negb]. change ((Double.zero !=? Double.zero)%D) with false. cbn [andb].
    destruct (getInverseTransformsBlur _ _ _ _ _ _ _ _ _ _) as [[[inv alpha] size] calls].
    reflexivity.
  - cbn [negb]. destruct (_ && _).
    + destruct (getInverseTransforms _ _ _ _ _ _ _ _ _ _) as [[inv size] calls].
      reflexivity.
    + unfold stored_for, toPixel.
      destruct (getInverseTransformCanonical time Double.one invert); reflexivity.
Qed.

(** "compose with the input transform" keeps the length of the array. *)
Lemma composeWithSrcTransform_length size (inv : list Matrix3x3) :
  length (composeWithSrcTransform src size inv) = length inv.
Proof.
  unfold composeWithSrcTransform.
  destruct (src_transformIsIdentity src); [reflexivity|].
  destruct (_ !=? _)%D; [|reflexivity].
  revert inv. induction (seq 0 size) as [|i l IH]; intros inv; [reflexivity|].
  cbn [fold_left]. rewrite IH. apply length_insert.
Qed.

(** The array of a directional-blur run keeps its length, and the
    returned size is 0 exactly when no call succeeded. *)
Lemma blur_run_size inv alpha size calls :
  getInverseTransformsBlur time (ra_renderScale args) (ra_fielded args)
    (src_pixelAspectRatio src) invert amountFrom amountTo
    (replicate count Matrix3x3_default) (Some (replicate count Double.zero)) count
  = (inv, alpha, size, calls) ->
  length inv = count /\
  (exists a, alpha = Some a /\
             filled_by (blur_successes time invert amountFrom amountTo count)
               (blur_amount amountFrom amountTo count) (replicate count Double.zero) a) /\
  (size = 0%nat <-> blur_successes time invert amountFrom amountTo count = []) /\
  calls = map (blur_call time invert amountFrom amountTo count) (seq 0 count).
Proof.
  intros E.
  pose proof (getInverseTransformsBlur_spec time (ra_renderScale args) (ra_fielded args)
                (src_pixelAspectRatio src) invert amountFrom amountTo
                (replicate count Matrix3x3_default)
                (Some (replicate count Double.zero)) count) as H.
  cbv zeta in H. rewrite E in H.
  destruct H as ((Hl & _) & Ha & Hsize & Hcalls).
  - apply Nat.eq_le_incl. symmetry. apply length_replicate.
  - intros a Ha.
    assert (Ea : a = replicate count Double.zero) by congruence.
    rewrite Ea. apply Nat.eq_le_incl. symmetry. apply length_replicate.
  - split; [rewrite Hl; apply length_replicate|].
    split; [destruct alpha as [a|]; [eauto|contradiction]|].
    split; [|exact Hcalls].
    destruct Hsize as [-> | [-> Hne]].
    + split; [apply length_zero_iff_nil | now intros ->].
    + split; [discriminate | contradiction].
Qed.

(** The array of a shutter run keeps its length, and the returned size is
    1 or the capacity. *)
Lemma shutter_run_size inv size calls :
  getInverseTransforms time (ra_renderScale args) (ra_fielded args)
    (src_pixelAspectRatio src) invert shutter
    (getValueAtTime (_shutteroffset P) time 0%Z)
    (getValueAtTime (_shuttercustomoffset P) time Double.zero)
    (replicate count Matrix3x3_default) count
  = (inv, size, calls) ->
  length inv = count /\
  size = (if allEqualToFirst count inv then 1 else count)%nat /\
  (forall i, (i < count)%nat ->
     inv !! i =
       Some (stored_for (ra_renderScale args) (ra_fielded args) (src_pixelAspectRatio src)
               (outcome_of
                  (shutter_call
                     (shutterRange time shutter (getValueAtTime (_shutteroffset P) time 0%Z)
                        (getValueAtTime (_shuttercustomoffset P) time Double.zero))
                     invert count i)))) /\
  calls =
    map (shutter_call
           (shutterRange time shutter (getValueAtTime (_shutteroffset P) time 0%Z)
              (getValueAtTime (_shuttercustomoffset P) time Double.zero))
           invert count)
      (seq 0 count).
Proof.
  intros E.
  pose proof (getInverseTransforms_spec time (ra_renderScale args) (ra_fielded args)
                (src_pixelAspectRatio src) invert shutter
                (getValueAtTime (_shutteroffset P) time 0%Z)
                (getValueAtTime (_shuttercustomoffset P) time Double.zero)
                (replicate count Matrix3x3_default) count) as H.
  cbv zeta in H. rewrite E in H.
  destruct H as (Hl & Hlt & _ & Hsize & Hcalls).
  - apply Nat.eq_le_incl. symmetry. apply length_replicate.
  - split; [rewrite Hl; apply length_replicate|]. auto.
Qed.

End Render.

(** X8.  Which calls the render action makes.  Without a source image, or
    when the source image has another depth or other components (the call
    then throws), it makes none.  Otherwise directional blur comes first:
    if the evaluated [directionalBlur] is set the action makes the 1000
    calls of the directional-blur sampler, all at the frame time, whatever
    the motion blur and the shutter are; if not and both the shutter and the
    motion blur are not [0.], the 1000 calls of the shutter sampler; in
    every other case one call at the frame time with amount [1.]. *)
Theorem render_calls_by_mode {support : Support} {effect : Effect}
    (P : Params) (args : RenderArguments) (src : SrcImage) :
  let time := ra_time args in
  let invert := getValueAtTime (_invert P) time false in
  setupAndProcess P args None =
    (Some {| pv_invtransform := [dummyTransform]; pv_invtransformalpha := [];
             pv_invtransformsize := 1; pv_blackOutside := false;
             pv_motionblur := Double.zero; pv_mix := Double.one |}, []) /\
  (src_sameDepthAndComponents src = false -> setupAndProcess P args (Some src) = (None, [])) /\
  (src_sameDepthAndComponents src = true ->
   is_Some (fst (setupAndProcess P args (Some src))) /\
   snd (setupAndProcess P args (Some src)) =
     match render_mode P time with
     | DirectionalMode =>
         map (blur_call time invert (fst (amountRange P time)) (snd (amountRange P time))
                kTransform3x3MotionBlurCount)
           (seq 0 kTransform3x3MotionBlurCount)
     | ShutterMode =>
         map (shutter_call
                (shutterRange time (getValueAtTime (_shutter P) time Double.zero)
                   (getValueAtTime (_shutteroffset P) time 0%Z)
                   (getValueAtTime (_shuttercustomoffset P) time Double.zero))
                invert kTransform3x3MotionBlurCount)
           (seq 0 kTransform3x3MotionBlurCount)
     | SingleMode => [mkCall time Double.one invert]
     end).
Proof.
  intros time invert. split; [|split].
  - unfold setupAndProcess. now destruct (amountRange P (ra_time args)).
  - intros Hsame. unfold setupAndProcess. destruct (amountRange P (ra_time args)).
    now rewrite Hsame.
  - intros Hsame. pose proof (setupAndProcess_cases P args src Hsame) as H.
    fold time in H. destruct (render_mode P time).
    + destruct (getInverseTransforms _ _ _ _ _ _ _ _ _ _) as [[inv size] calls] eqn:E.
      rewrite H. split; [cbn; eauto|]. cbn [snd].
      exact (proj2 (proj2 (proj2 (shutter_run_size P args src inv size calls E)))).
    + destruct (getInverseTransformsBlur _ _ _ _ _ _ _ _ _ _)
        as [[[inv alpha] size] calls] eqn:E.
      rewrite H. split; [cbn; eauto|]. cbn [snd].
      exact (proj2 (proj2 (proj2 (blur_run_size P args src inv alpha size calls E)))).
    + rewrite H. split; [cbn; eauto|reflexivity].
Qed.

Lemma render_calls_by_mode_witness :
  length (snd (@setupAndProcess Reference.support Reference.moving
                 (Reference.motionBlurPlugin false true Double.zero Double.one)
                 (Reference.renderArguments (Double.of_Z 10)) (Some Reference.srcImage)))
  = 1000%nat.
Proof.
  destruct (@render_calls_by_mode Reference.support Reference.moving
              (Reference.motionBlurPlugin false true Double.zero Double.one)
              (Reference.renderArguments (Double.of_Z 10)) Reference.srcImage)
    as (_ & _ & H).
  destruct (H eq_refl) as [_ E]. rewrite E.
  change (render_mode _ _) with DirectionalMode. cbv iota.
  rewrite length_map. apply length_seq.
Defined.

(** X9.  The motion blur that the render action hands to the processor is
    [0.] whenever the set of transforms has size 1, and the value of the
    parameter otherwise.  For an effect that returns one and the same
    matrix at every time and amount, whose image in pixel coordinates
    compares equal to itself, the set has size 1 in each of the three
    modes, so that the processor is run without motion blur. *)
Theorem render_of_static_transform {support : Support} {effect : Effect}
    (P : Params) (args : RenderArguments) (src : option SrcImage)
    (pv : ProcessorValues) (calls : list Call) :
  setupAndProcess P args src = (Some pv, calls) ->
  (pv_invtransformsize pv = 1%nat -> pv_motionblur pv = Double.zero) /\
  (pv_invtransformsize pv <> 1%nat ->
   pv_motionblur pv = getValueAtTime (_motionblur P) (ra_time args) Double.zero) /\
  (forall (srcImg : SrcImage) (m : Matrix3x3),
     src = Some srcImg ->
     (forall t a v, getInverseTransformCanonical t a v = Some m) ->
     coeffs_eq (toPixel (ra_renderScale args) (ra_fielded args) (src_pixelAspectRatio srcImg) m)
               (toPixel (ra_renderScale args) (ra_fielded args) (src_pixelAspectRatio srcImg) m)
     = true ->
     pv_invtransformsize pv = 1%nat /\ pv_motionblur pv = Double.zero).
Proof.
  intros E.
  assert (Hmb : pv_motionblur pv =
                if Nat.eqb (pv_invtransformsize pv) 1 then Double.zero
                else getValueAtTime (_motionblur P) (ra_time args) Double.zero).
  { destruct src as [srcImg|].
    - destruct (src_sameDepthAndComponents srcImg) eqn:Hsame.
      + pose proof (setupAndProcess_cases P args srcImg Hsame) as H.
        destruct (render_mode P (ra_time args)).
        * destruct (getInverseTransforms _ _ _ _ _ _ _ _ _ _) as [[inv size] cs].
          rewrite H in E. injection E as <- _. reflexivity.
        * destruct (getInverseTransformsBlur _ _ _ _ _ _ _ _ _ _) as [[[inv alpha] size] cs].
          rewrite H in E. injection E as <- _. reflexivity.
        * rewrite H in E. injection E as <- _. reflexivity.
      + unfold setupAndProcess in E. destruct (amountRange P (ra_time args)).
        rewrite Hsame in E. discriminate.
    - unfold setupAndProcess in E. destruct (amountRange P (ra_time args)).
      injection E as <- _. reflexivity. }
  split; [intros H1; now rewrite Hmb, H1|].
  split; [intros H1; rewrite Hmb; now destruct (Nat.eqb_spec (pv_invtransformsize pv) 1)|].
  intros srcImg m -> Hconst HR.
  assert (Hsize : pv_invtransformsize pv = 1%nat); [|split; [exact Hsize|now rewrite Hmb, Hsize]].
  destruct (src_sameDepthAndComponents srcImg) eqn:Hsame.
  - pose proof (setupAndProcess_cases P args srcImg Hsame) as H.
    destruct (render_mode P (ra_time args)).
    + destruct (getInverseTransforms _ _ _ _ _ _ _ _ _ _) as [[inv size] cs] eqn:Es.
      rewrite H in E. injection E as <- _. cbn [pv_invtransformsize].
      destruct (shutter_run_size P args srcImg inv size cs Es) as (_ & -> & Hlt & _).
      rewrite (allEqualToFirst_constant inv kTransform3x3MotionBlurCount
                 (toPixel (ra_renderScale args) (ra_fielded args)
                    (src_pixelAspectRatio srcImg) m)); [reflexivity| |exact HR].
      intros i Hi. rewrite (Hlt i Hi). unfold outcome_of. now rewrite Hconst.
    + destruct (getInverseTransformsBlur _ _ _ _ _ _ _ _ _ _)
        as [[[inv alpha] size] cs] eqn:Eb.
      rewrite H in E. injection E as <- _. cbn [pv_invtransformsize].
      set (time := ra_time args) in *.
      set (invert := getValueAtTime (_invert P) time false) in *.
      set (from := fst (amountRange P time)) in *.
      set (to := snd (amountRange P time)) in *.
      assert (Hnone : blur_failures time invert from to kTransform3x3MotionBlurCount = []).
      { unfold blur_failures.
        induction (seq 0 kTransform3x3MotionBlurCount) as [|i l IH]; [reflexivity|].
        rewrite filter_cons_False by (rewrite Hconst; discriminate). exact IH. }
      pose proof (getInverseTransformsBlur_no_failure time (ra_renderScale args)
                    (ra_fielded args) (src_pixelAspectRatio srcImg) invert from to
                    (replicate kTransform3x3MotionBlurCount Matrix3x3_default)
                    (Some (replicate kTransform3x3MotionBlurCount Double.zero))
                    kTransform3x3MotionBlurCount
                    ltac:(apply Nat.eq_le_incl; symmetry; apply length_replicate) Hnone) as Hb.
      rewrite Eb in Hb. destruct Hb as [Hlt ->].
      rewrite (allEqualToFirst_constant inv kTransform3x3MotionBlurCount
                 (toPixel (ra_renderScale args) (ra_fielded args)
                    (src_pixelAspectRatio srcImg) m)); [reflexivity| |exact HR].
      intros i Hi. rewrite (Hlt i Hi). unfold outcome_of. now rewrite Hconst.
    + rewrite H in E. injection E as <- _. reflexivity.
  - unfold setupAndProcess in E. destruct (amountRange P (ra_time args)).
    rewrite Hsame in E. discriminate.
Qed.

Lemma render_of_static_transform_witness :
  exists pv calls,
    @setupAndProcess Reference.support
      (Reference.constant (Reference.translation (Double.of_Z 3) Double.one false))
      (Reference.motionBlurPlugin false false Double.one Double.one)
      (Reference.renderArguments (Double.of_Z 10)) (Some Reference.srcImage)
    = (Some pv, calls) /\
    pv_invtransformsize pv = 1%nat /\ pv_motionblur pv = Double.zero.
Proof.
  destruct (@setupAndProcess Reference.support
              (Reference.constant (Reference.translation (Double.of_Z 3) Double.one false))
              (Reference.motionBlurPlugin false false Double.one Double.one)
              (Reference.renderArguments (Double.of_Z 10)) (Some Reference.srcImage))
    as [[pv|] calls] eqn:E.
  - destruct (@render_of_static_transform Reference.support
                (Reference.constant (Reference.translation (Double.of_Z 3) Double.one false))
                (Reference.motionBlurPlugin false false Double.one Double.one)
                (Reference.renderArguments (Double.of_Z 10)) (Some Reference.srcImage)
                pv calls E) as (_ & _ & H).
    exists pv, calls. split; [reflexivity|].
    apply (H Reference.srcImage (Reference.translation (Double.of_Z 3) Double.one false)
             eq_refl); [reflexivity|]. vm_compute. reflexivity.
  - exfalso.
    pose proof (@setupAndProcess_cases Reference.support
                  (Reference.constant (Reference.translation (Double.of_Z 3) Double.one false))
                  (Reference.motionBlurPlugin false false Double.one Double.one)
                  (Reference.renderArguments (Double.of_Z 10)) Reference.srcImage eq_refl) as H.
    change (render_mode _ _) with ShutterMode in H. cbv iota in H.
    destruct (getInverseTransforms _ _ _ _ _ _ _ _ _ _) as [[inv size] cs].
    rewrite H in E. pose proof (f_equal fst E) as E1. cbn [fst] in E1. discriminate E1.
Defined.

(** X10.  What the render action hands to [processor.setValues] and the
    assertion [invtransform.size() && invtransformsize] before it.  The
    array of transforms is never empty.  The size is 0, and the assertion
    fails, in exactly one case: directional-blur mode when none of the 1000
    calls succeeds.  In every other case the size is at least 1 and at most
    the length of the array. *)
Theorem render_size_assertion {support : Support} {effect : Effect}
    (P : Params) (args : RenderArguments) (src : option SrcImage)
    (pv : ProcessorValues) (calls : list Call) :
  setupAndProcess P args src = (Some pv, calls) ->
  let time := ra_time args in
  let no_sample :=
    render_mode P time = DirectionalMode /\
    blur_successes time (getValueAtTime (_invert P) time false)
      (fst (amountRange P time)) (snd (amountRange P time)) kTransform3x3MotionBlurCount = [] in
  (0 < length (pv_invtransform pv))%nat /\
  (pv_invtransformsize pv <= length (pv_invtransform pv))%nat /\
  (pv_invtransformsize pv = 0%nat <-> is_Some src /\ no_sample) /\
  (setValues_assertion pv = false <-> is_Some src /\ no_sample).
Proof.
  intros E time no_sample.
  assert (H : (0 < length (pv_invtransform pv))%nat /\
              (pv_invtransformsize pv <= length (pv_invtransform pv))%nat /\
              (pv_invtransformsize pv = 0%nat <-> is_Some src /\ no_sample)).
  { destruct src as [srcImg|].
    - destruct (src_sameDepthAndComponents srcImg) eqn:Hsame.
      + pose proof (setupAndProcess_cases P args srcImg Hsame) as H.
        subst no_sample. fold time in H |- *.
        destruct (render_mode P time).
        * destruct (getInverseTransforms _ _ _ _ _ _ _ _ _ _) as [[inv size] cs] eqn:Es.
          rewrite H in E. injection E as <- _.
          cbn [pv_invtransform pv_invtransformsize].
          rewrite composeWithSrcTransform_length.
          destruct (shutter_run_size P args srcImg inv size cs Es) as (-> & -> & _).
          unfold kTransform3x3MotionBlurCount at 1 2 4.
          destruct (allEqualToFirst _ _).
          -- split; [lia|]. split; [lia|]. split; [discriminate|]. now intros [_ [? _]].
          -- unfold kTransform3x3MotionBlurCount.
             split; [lia|]. split; [lia|]. split; [discriminate|]. now intros [_ [? _]].
        * destruct (getInverseTransformsBlur _ _ _ _ _ _ _ _ _ _)
            as [[[inv alpha] size] cs] eqn:Eb.
          rewrite H in E. injection E as <- _.
          cbn [pv_invtransform pv_invtransformsize].
          rewrite composeWithSrcTransform_length.
          destruct (blur_run_size P args srcImg inv alpha size cs Eb) as (Hl & _ & Hz & _).
          fold time in Hz.
          pose proof (getInverseTransformsBlur_spec time (ra_renderScale args)
                        (ra_fielded args) (src_pixelAspectRatio srcImg)
                        (getValueAtTime (_invert P) time false)
                        (fst (amountRange P time)) (snd (amountRange P time))
                        (replicate kTransform3x3MotionBlurCount Matrix3x3_default)
                        (Some (replicate kTransform3x3MotionBlurCount Double.zero))
                        kTransform3x3MotionBlurCount) as Hs.
          cbv zeta in Hs. fold time in Eb. rewrite Eb in Hs.
          destruct Hs as (_ & _ & Hsize & _).
          { apply Nat.eq_le_incl. symmetry. apply length_replicate. }
          { intros a Ha.
            assert (Ea : a = replicate kTransform3x3MotionBlurCount Double.zero) by congruence.
            rewrite Ea. apply Nat.eq_le_incl. symmetry. apply length_replicate. }
          rewrite Hl. split; [unfold kTransform3x3MotionBlurCount; lia|].
          split.
          -- destruct Hsize as [-> | [-> _]];
               [|unfold kTransform3x3MotionBlurCount; lia].
             pose proof (succs_length time (getValueAtTime (_invert P) time false)
                           (fst (amountRange P time)) (snd (amountRange P time))
                           kTransform3x3MotionBlurCount kTransform3x3MotionBlurCount) as Hle.
             exact Hle.
          -- rewrite Hz. split; [intros Hn; split; [eauto|split; [reflexivity|exact Hn]]|].
             now intros [_ [_ Hn]].
        * rewrite H in E. injection E as <- _.
          cbn [pv_invtransform pv_invtransformsize].
          rewrite composeWithSrcTransform_length. cbn [length].
          split; [lia|]. split; [lia|]. split; [discriminate|]. now intros [_ [? _]].
      + unfold setupAndProcess in E. destruct (amountRange P (ra_time args)).
        rewrite Hsame in E. discriminate.
    - unfold setupAndProcess in E. destruct (amountRange P (ra_time args)).
      injection E as <- _. cbn [pv_invtransform pv_invtransformsize length].
      split; [lia|]. split; [lia|]. split; [discriminate|].
      intros [[? ?] _]. discriminate. }
  destruct H as (Hlen & Hle & Hz). split; [exact Hlen|]. split; [exact Hle|].
  split; [exact Hz|]. rewrite <- Hz. unfold setValues_assertion.
  destruct (length (pv_invtransform pv)) as [|n]; [lia|].
  destruct (pv_invtransformsize pv); cbn; split; congruence.
Qed.

Lemma render_size_assertion_witness :
  exists pv calls,
    @setupAndProcess Reference.support Reference.failing
      (Reference.dirBlurPlugin Double.one false)
      (Reference.renderArguments (Double.of_Z 10)) (Some Reference.srcImage)
    = (Some pv, calls) /\
    setValues_assertion pv = false.
Proof.
  destruct (@setupAndProcess Reference.support Reference.failing
              (Reference.dirBlurPlugin Double.one false)
              (Reference.renderArguments (Double.of_Z 10)) (Some Reference.srcImage))
    as [[pv|] calls] eqn:E.
  - exists pv, calls. split; [reflexivity|].
    destruct (@render_size_assertion Reference.support Reference.failing
                (Reference.dirBlurPlugin Double.one false)
                (Reference.renderArguments (Double.of_Z 10)) (Some Reference.srcImage)
                pv calls E) as (_ & _ & _ & H).
    apply H. split; [eauto|]. split; [reflexivity|].
    unfold blur_successes.
    induction (seq 0 kTransform3x3MotionBlurCount) as [|i l IH]; [reflexivity|].
    rewrite filter_cons_False; [exact IH|]. intros [? ?]. discriminate.
  - exfalso.
    pose proof (@setupAndProcess_cases Reference.support Reference.failing
                  (Reference.dirBlurPlugin Double.one false)
                  (Reference.renderArguments (Double.of_Z 10)) Reference.srcImage eq_refl) as H.
    change (render_mode _ _) with DirectionalMode in H. cbv iota in H.
    destruct (getInverseTransformsBlur _ _ _ _ _ _ _ _ _ _) as [[[inv alpha] size] cs].
    rewrite H in E. pose proof (f_equal fst E) as E1. cbn [fst] in E1. discriminate E1.
Defined.

(** X11.  "compose with the input transform".  The array keeps its
    length.  When the source image says that its transform is the identity,
    or when the determinant of that transform compares equal to [0.], the
    array is left as it is.  Otherwise (a NaN determinant included) each of
    the first [invtransformsize] entries is multiplied on the left by the
    inverse of the source transform, and the entries from
    [invtransformsize] on are left as they are. *)
Theorem compose_with_source_transform {support : Support}
    (src : SrcImage) (invtransformsize : nat) (invtransform : list Matrix3x3) :
  let det := ofxsMatDeterminant (src_transform src) in
  let out := composeWithSrcTransform src invtransformsize invtransform in
  length out = length invtransform /\
  (src_transformIsIdentity src = true \/ (det ==? Double.zero)%D = true -> out = invtransform) /\
  (src_transformIsIdentity src = false -> (det ==? Double.zero)%D = false ->
   forall i m, (i < invtransformsize)%nat -> invtransform !! i = Some m ->
     out !! i = Some (mat_mul (ofxsMatInverse (src_transform src) det) m)) /\
  (forall i, (invtransformsize <= i)%nat -> out !! i = invtransform !! i).
Proof.
  intros det out. split; [apply composeWithSrcTransform_length|].
  subst out. unfold composeWithSrcTransform. fold det.
  unfold Double.neb. change (SFeqb det Double.zero) with (det ==? Double.zero)%D.
  split; [|split].
  - intros [-> | ->]; [reflexivity|]. now destruct (src_transformIsIdentity src).
  - intros -> ->. cbn [negb].
    set (T := ofxsMatInverse (src_transform src) det).
    assert (H : forall n inv,
              let r := fold_left (fun inv i => <[i := mat_mul T (inv !!! i)]> inv) (seq 0 n) inv in
              length r = length inv /\
              (forall i m, (i < n)%nat -> inv !! i = Some m -> r !! i = Some (mat_mul T m)) /\
              (forall i, (n <= i)%nat -> r !! i = inv !! i)).
    { induction n as [|n IH]; intros inv.
      - cbn. split; [reflexivity|]. split; [intros; lia|reflexivity].
      - cbv zeta. rewrite fold_left_seq_S.
        destruct (IH inv) as (Hl & Hlt & Hge). cbv zeta in Hl, Hlt, Hge.
        set (r := fold_left _ (seq 0 n) inv) in *.
        split; [now rewrite length_insert|]. split.
        + intros i m Hi Hm. destruct (Nat.eq_dec i n) as [->|Hne].
          * assert (Hr : r !! n = Some m) by (rewrite Hge by lia; exact Hm).
            rewrite (list_lookup_total_correct r n m Hr).
            apply list_lookup_insert_eq. apply lookup_lt_Some in Hr. exact Hr.
          * rewrite list_lookup_insert_ne by congruence. apply Hlt; [lia|exact Hm].
        + intros i Hi. rewrite list_lookup_insert_ne by lia. apply Hge. lia. }
    intros i m Hi Hm. exact (proj1 (proj2 (H invtransformsize invtransform)) i m Hi Hm).
  - intros i Hi. destruct (src_transformIsIdentity src); [reflexivity|].
    destruct (det ==? Double.zero)%D; [reflexivity|]. cbn [negb].
    revert invtransform.
    assert (H : forall l (inv : list Matrix3x3), Forall (fun j => (j < i)%nat) l ->
              fold_left
                (fun inv j => <[j := mat_mul (ofxsMatInverse (src_transform src) det)
                                       (inv !!! j)]> inv) l inv !! i = inv !! i).
    { induction l as [|j l IH]; intros inv Hl; [reflexivity|].
      inversion Hl as [|? ? Hj Hl']; subst. cbn [fold_left].
      rewrite IH by exact Hl'. apply list_lookup_insert_ne. lia. }
    intros inv. apply H. apply List.Forall_forall. intros j Hj. apply in_seq in Hj. lia.
Qed.

Lemma compose_with_source_transform_witness :
  @composeWithSrcTransform ReferenceActions.support ReferenceActions.scaledSrcImage 1
    [identityMatrix; identityMatrix] !! 0%nat
  = Some (Reference.scale Reference.half Reference.half).
Proof.
  destruct (@compose_with_source_transform ReferenceActions.support
              ReferenceActions.scaledSrcImage 1 [identityMatrix; identityMatrix])
    as (_ & _ & H & _).
  rewrite (H eq_refl eq_refl 0%nat identityMatrix ltac:(lia) eq_refl).
  vm_compute. reflexivity.
Defined.

(** X12.  The alpha weights that the render action hands to the processor.
    Outside directional-blur mode there are none.  In directional-blur mode
    the array has 1000 entries; when the fading is [<= 0.] every entry is
    [1.]; otherwise (a NaN fading included) the entry of the [j]-th
    successful call is [pow(1. - |amt|/amountTo, fading)] for the amount
    [amt] of that call, and every entry after the last successful call is
    [pow(1. - |0.|/amountTo, fading)]. *)
Theorem render_alpha_weights {support : Support} {effect : Effect}
    (P : Params) (args : RenderArguments) (src : SrcImage)
    (pv : ProcessorValues) (calls : list Call) :
  setupAndProcess P args (Some src) = (Some pv, calls) ->
  let time := ra_time args in
  let amountFrom := fst (amountRange P time) in
  let amountTo := snd (amountRange P time) in
  let fading := getValueAtTime (_fading P) time Double.zero in
  let succs :=
    blur_successes time (getValueAtTime (_invert P) time false) amountFrom amountTo
      kTransform3x3MotionBlurCount in
  let weight amt := pow (Double.one - Double.fabs amt / amountTo)%D fading in
  (render_mode P time <> DirectionalMode -> pv_invtransformalpha pv = []) /\
  (render_mode P time = DirectionalMode ->
   length (pv_invtransformalpha pv) = kTransform3x3MotionBlurCount /\
   ((fading <=? Double.zero)%D = true ->
    forall j, (j < kTransform3x3MotionBlurCount)%nat ->
      pv_invtransformalpha pv !! j = Some Double.one) /\
   ((fading <=? Double.zero)%D = false ->
    (forall j i, succs !! j = Some i ->
       pv_invtransformalpha pv !! j =
         Some (weight (blur_amount amountFrom amountTo kTransform3x3MotionBlurCount i))) /\
    (forall j, (length succs <= j < kTransform3x3MotionBlurCount)%nat ->
       pv_invtransformalpha pv !! j = Some (weight Double.zero)))).
Proof.
  intros E time amountFrom amountTo fading succs weight.
  assert (Hsame : src_sameDepthAndComponents src = true).
  { destruct (src_sameDepthAndComponents src) eqn:Hsame; [reflexivity|].
    unfold setupAndProcess in E. destruct (amountRange P (ra_time args)).
    rewrite Hsame in E. discriminate. }
  pose proof (setupAndProcess_cases P args src Hsame) as H. fold time in H.
  destruct (render_mode P time).
  - destruct (getInverseTransforms _ _ _ _ _ _ _ _ _ _) as [[inv size] cs].
    rewrite H in E. injection E as <- _. split; [reflexivity|discriminate].
  - destruct (getInverseTransformsBlur _ _ _ _ _ _ _ _ _ _)
      as [[[inv alpha] size] cs] eqn:Eb.
    rewrite H in E. injection E as <- _. split; [congruence|]. intros _.
    cbn [pv_invtransformalpha].
    destruct (blur_run_size P args src inv alpha size cs Eb)
      as (_ & (a & -> & Hl & Hs & Hr) & _).
    fold time amountFrom amountTo succs in Hs, Hr. fold fading amountTo.
    change (default [] (Some a)) with a. rewrite length_replicate in Hl.
    unfold normalizeAlpha. split; [|split].
    + destruct (fading <=? Double.zero)%D; now rewrite length_map.
    + intros ->. intros j Hj.
      destruct (lookup_lt_is_Some_2 a j ltac:(rewrite Hl; exact Hj)) as [x Hx].
      now rewrite list_lookup_fmap, Hx.
    + intros ->. split.
      * intros j i Hji. now rewrite list_lookup_fmap, (Hs j i Hji).
      * intros j [Hj1 Hj2]. rewrite list_lookup_fmap, (Hr j Hj1).
        now rewrite (lookup_replicate_2 kTransform3x3MotionBlurCount Double.zero j Hj2).
  - rewrite H in E. injection E as <- _. split; [reflexivity|discriminate].
Qed.

Lemma render_alpha_weights_witness :
  exists pv calls,
    @setupAndProcess Reference.support Reference.moving
      (Reference.dirBlurPlugin Double.one false)
      (Reference.renderArguments (Double.of_Z 10)) (Some Reference.srcImage)
    = (Some pv, calls) /\
    pv_invtransformalpha pv !! 999%nat = Some Double.one.
Proof.
  destruct (@setupAndProcess Reference.support Reference.moving
              (Reference.dirBlurPlugin Double.one false)
              (Reference.renderArguments (Double.of_Z 10)) (Some Reference.srcImage))
    as [[pv|] calls] eqn:E.
  - exists pv, calls. split; [reflexivity|].
    destruct (@render_alpha_weights Reference.support Reference.moving
                (Reference.dirBlurPlugin Double.one false)
                (Reference.renderArguments (Double.of_Z 10)) Reference.srcImage
                pv calls E) as (_ & H).
    destruct (H eq_refl) as (_ & H1 & _).
    apply H1; [reflexivity|]. unfold kTransform3x3MotionBlurCount. lia.
  - exfalso.
    pose proof (@setupAndProcess_cases Reference.support Reference.moving
                  (Reference.dirBlurPlugin Double.one false)
                  (Reference.renderArguments (Double.of_Z 10)) Reference.srcImage eq_refl) as H.
    change (render_mode _ _) with DirectionalMode in H. cbv iota in H.
    destruct (getInverseTransformsBlur _ _ _ _ _ _ _ _ _ _) as [[[inv alpha] size] cs].
    rewrite H in E. pose proof (f_equal fst E) as E1. cbn [fst] in E1. discriminate E1.
Defined.

(** ** The region actions on an identity transform *)

Section IdentityRegions.

Context {support : Support} {effect : Effect}.

(** The region of definition when the effect is the identity and the walk
    is not over a shutter range. *)
Lemma getRegionOfDefinition_identity (budget : nat) (P : Params)
    (args : RegionOfDefinitionArguments) (srcClip : Clip) :
  let time := rod_time args in
  let srcRoD := getRegionOfDefinition_clip srcClip time in
  _srcClip P = Some srcClip ->
  rectIsInfinite srcRoD = false ->
  isIdentity time = true ->
  region_shutter_sampling P time = false ->
  getRegionOfDefinition budget P args =
    Some (Some (if doMasking P time then
                  if negb (isNull (_mix P)) &&
                     (getValueAtTime (_mix P) time Double.one ==? Double.zero)%D
                  then srcRoD
                  else rectBoundingBox srcRoD srcRoD
                else srcRoD), []).
Proof.
  intros time srcRoD Hsrc Hfin Hid Hsamp.
  unfold getRegionOfDefinition. rewrite Hsrc. fold time. fold srcRoD. rewrite Hfin.
  unfold region_shutter_sampling in Hsamp. rewrite Hid.
  destruct (regionParams P time) as [[[[[[mb dir] from] to] sh] so] sc].
  rewrite (transformRegion_shortcut srcRoD time (negb (getValueAtTime (_invert P) time false))
             mb dir from to sh so sc true budget Hsamp eq_refl).
  cbn [negb].
  destruct (doMasking P time) eqn:Hmask; cbn [andb]; [|reflexivity].
  destruct (negb (isNull (_mix P)) && _); [reflexivity|].
  unfold doMasking in Hmask. apply andb_true_iff in Hmask. destruct Hmask as [_ Hconn].
  rewrite Hconn. now rewrite orb_true_r.
Qed.

End IdentityRegions.

(** X13.  When the effect is the identity at the frame and the walk is not
    over a shutter range, neither region action calls the effect.  The
    region of definition is then the region of definition of the source
    itself, without the expansion for the filter and black outside (under
    masking, its union with itself, unless the mix is [0.]); the region of
    interest, without masking, is the requested region after the expansion
    for the filter and the clamp to the project. *)
Theorem regions_of_identity {support : Support} {effect : Effect}
    (budget : nat) (P : Params) (srcClip : Clip)
    (rodArgs : RegionOfDefinitionArguments) (roiArgs : RegionsOfInterestArguments) :
  _srcClip P = Some srcClip ->
  (let time := rod_time rodArgs in
   let srcRoD := getRegionOfDefinition_clip srcClip time in
   rectIsInfinite srcRoD = false ->
   isIdentity time = true ->
   region_shutter_sampling P time = false ->
   getRegionOfDefinition budget P rodArgs =
     Some (Some (if doMasking P time then
                   if negb (isNull (_mix P)) &&
                      (getValueAtTime (_mix P) time Double.one ==? Double.zero)%D
                   then srcRoD
                   else rectBoundingBox srcRoD srcRoD
                 else srcRoD), [])) /\
  (let time := roi_time roiArgs in
   let roi := regionOfInterest roiArgs in
   isIdentity time = true ->
   region_shutter_sampling P time = false ->
   doMasking P time = false ->
   getRegionsOfInterest budget P roiArgs =
     Some (Some (clampToProject
                   (ofxsFilterExpandRoI roi (getPixelAspectRatio srcClip)
                      (roi_renderScale roiArgs)
                      (getValueAtTime (_filter P) time eFilterCubic) false Double.one roi)),
           [])).
Proof.
  intros Hsrc. split.
  - now apply getRegionOfDefinition_identity.
  - intros time roi Hid Hsamp Hmask.
    unfold getRegionsOfInterest, roi_dereferences_null. rewrite Hsrc. fold time. fold roi.
    rewrite Hmask, Hid. cbn [andb]. unfold region_shutter_sampling in Hsamp.
    destruct (regionParams P time) as [[[[[[mb dir] from] to] sh] so] sc].
    rewrite (transformRegion_shortcut roi time (getValueAtTime (_invert P) time false)
               mb dir from to sh so sc true budget Hsamp eq_refl).
    change ((Double.one !=? Double.one)%D) with false. now rewrite andb_false_r.
Qed.

Lemma regions_of_identity_witness :
  @getRegionOfDefinition ReferenceActions.support ReferenceActions.still 0
    (Reference.motionBlurPlugin false false Double.zero Double.one)
    (mkRoDArgs (Double.of_Z 10) Reference.unitScale)
  = Some (Some (Reference.rect 0 0 100 100), []).
Proof.
  destruct (@regions_of_identity ReferenceActions.support ReferenceActions.still 0
              (Reference.motionBlurPlugin false false Double.zero Double.one)
              (Reference.clip (Reference.rect 0 0 100 100))
              (mkRoDArgs (Double.of_Z 10) Reference.unitScale)
              (mkRoIArgs (Double.of_Z 10) Reference.unitScale (Reference.rect 0 0 100 100))
              eq_refl) as [H _].
  rewrite H; reflexivity.
Defined.

(** ** The transform handed to the host *)

(** X14.  [getTransform] makes no call and returns [false] on a masked
    plugin; otherwise it makes exactly one call, at the frame time, with
    amount [1.] and the evaluated [invert] as it is, which is the call of
    the render action in its single-sample mode.  It returns [true] exactly
    when the plugin is not masked, that call succeeds and the determinant of
    its matrix does not compare equal to [0.]; the clip it names is then the
    source clip and the matrix is canonical-to-pixel times the inverse of
    the matrix of the effect times pixel-to-canonical, for the pixel aspect
    ratio of the source clip, or [1.] without a source clip. *)
Theorem getTransform_result {support : Support} {effect : Effect}
    (P : Params) (args : TransformArguments) :
  let time := ta_time args in
  let invert := getValueAtTime (_invert P) time false in
  let par :=
    match _srcClip P with Some c => getPixelAspectRatio c | None => Double.one end in
  (_masked P = true -> getTransform P args = (None, [])) /\
  (_masked P = false -> snd (getTransform P args) = [mkCall time Double.one invert]) /\
  (forall clip M,
     fst (getTransform P args) = Some (clip, M) <->
     _masked P = false /\ clip = _srcClip P /\
     exists inv,
       getInverseTransformCanonical time Double.one invert = Some inv /\
       (ofxsMatDeterminant inv ==? Double.zero)%D = false /\
       M = toPixel (ta_renderScale args) (ta_fielded args) par
             (ofxsMatInverse inv (ofxsMatDeterminant inv))) /\
  (forall (src : SrcImage) (renderArgs : RenderArguments),
     _masked P = false ->
     ra_time renderArgs = time ->
     src_sameDepthAndComponents src = true ->
     render_mode P time = SingleMode ->
     snd (setupAndProcess P renderArgs (Some src)) = snd (getTransform P args)).
Proof.
  intros time invert par.
  assert (Hcalls : _masked P = false ->
                   snd (getTransform P args) = [mkCall time Double.one invert]).
  { intros Hm. unfold getTransform. rewrite Hm. fold time invert.
    destruct (getInverseTransformCanonical time Double.one invert); [|reflexivity].
    now destruct (_ ==? _)%D. }
  split; [|split; [exact Hcalls|split]].
  - intros Hm. unfold getTransform. now rewrite Hm.
  - intros clip M. unfold getTransform. fold time invert par.
    destruct (_masked P).
    { split; [discriminate|]. now intros [? _]. }
    destruct (getInverseTransformCanonical time Double.one invert) as [inv|].
    + destruct (ofxsMatDeterminant inv ==? Double.zero)%D eqn:Hdet; cbn [fst].
      * split; [discriminate|]. intros (_ & _ & inv' & [= <-] & Hdet' & _). congruence.
      * split.
        -- intros [= <- <-]. split; [reflexivity|]. split; [reflexivity|].
           exists inv. auto.
        -- intros (_ & -> & inv' & [= <-] & _ & ->). reflexivity.
    + cbn [fst]. split; [discriminate|]. now intros (_ & _ & inv' & ? & _).
  - intros src renderArgs Hm Ht Hsame Hmode. rewrite (Hcalls Hm).
    pose proof (setupAndProcess_cases P renderArgs src Hsame) as H.
    rewrite Ht, Hmode in H. now rewrite H.
Qed.

Lemma getTransform_result_witness :
  fst (@getTransform ReferenceActions.support Reference.moving
         (Reference.motionBlurPlugin false false Double.zero Double.zero)
         (mkTransformArguments (Double.of_Z 10) Reference.unitScale false))
  = Some (Some (Reference.clip (Reference.rect 0 0 100 100)),
          mkMatrix3x3 Double.one Double.zero (Double.of_Z (-10))
                      Double.zero Double.one Double.zero
                      Double.zero Double.zero Double.one).
Proof.
  destruct (@getTransform_result ReferenceActions.support Reference.moving
              (Reference.motionBlurPlugin false false Double.zero Double.zero)
              (mkTransformArguments (Double.of_Z 10) Reference.unitScale false))
    as (_ & _ & H & _).
  apply H. split; [reflexivity|]. split; [reflexivity|].
  eexists. split; [reflexivity|]. split; vm_compute; reflexivity.
Defined.

(** ** Construction, and the identity action *)

(** X15.  The handles of a constructed plugin.  [_maskApply] is never
    fetched: it is null, so that masking depends on the mask clip alone.
    The shutter parameters are fetched exactly together with
    [_directionalBlur], and [_centered] and [_fading] together with
    [_amount]; [_amount] and [_directionalBlur] are never both present.
    Every parameter is fetched only if the [invert] parameter exists, and
    then [_filter], [_clamp] and [_blackOutside] are.  The mask clip is
    fetched exactly for a masked plugin, so that masking happens only on a
    masked plugin; [_mix] and [_maskInvert] are fetched exactly for a masked
    plugin that has the [invert] parameter, so that on such a plugin the
    reads of [_mix] and [_maskInvert] that the actions perform under masking
    without testing the handle are on handles that are not null. *)
Theorem constructed_handles {host : Host} (masked : bool)
    (paramsType : Transform3x3ParamsTypeEnum) :
  let IP := @Transform3x3Plugin host masked paramsType in
  let P := ip_params IP in
  _maskApply P = None /\
  (isNull (_shutter P) = isNull (_directionalBlur P) /\
   isNull (_shutteroffset P) = isNull (_directionalBlur P) /\
   isNull (_shuttercustomoffset P) = isNull (_directionalBlur P)) /\
  (isNull (_centered P) = isNull (_amount P) /\ isNull (_fading P) = isNull (_amount P)) /\
  (isNull (_amount P) = false -> isNull (_directionalBlur P) = true) /\
  (isNull (_filter P) = isNull (_invert P) /\
   isNull (_clamp IP) = isNull (_invert P) /\
   isNull (_blackOutside P) = isNull (_invert P)) /\
  (isNull (_invert P) = true ->
   isNull (_motionblur P) = true /\ isNull (_amount P) = true /\
   isNull (_directionalBlur P) = true /\ isNull (_mix P) = true) /\
  (_masked P = masked /\ isNull (_maskClip P) = negb masked /\
   forall time, doMasking P time = true -> _masked P = true) /\
  (isNull (_mix P) = negb (paramExists kParamTransform3x3Invert && masked) /\
   isNull (_maskInvert IP) = isNull (_mix P) /\
   (paramExists kParamTransform3x3Invert = true ->
    forall time, doMasking P time = true ->
      isNull (_mix P) = false /\ isNull (_maskInvert IP) = false)).
Proof.
  intros IP P. subst P IP. unfold Transform3x3Plugin, doMasking.
  cbn [ip_params _maskApply _shutter _directionalBlur _shutteroffset _shuttercustomoffset
       _centered _amount _fading _filter _invert _clamp _blackOutside _motionblur _mix
       _masked _maskClip _maskInvert].
  destruct (paramExists kParamTransform3x3Invert), masked, paramsType;
    cbn [andb negb isNull]; repeat split; try reflexivity; try discriminate;
    try (destruct (paramExists kParamTransform3x3MotionBlur); reflexivity);
    intros time; cbn; now rewrite ?andb_false_r.
Qed.

Lemma constructed_handles_witness :
  let P := ip_params (@Transform3x3Plugin ReferenceActions.host false
                         eTransform3x3ParamsTypeDirBlur) in
  isNull (_amount P) = false /\ isNull (_directionalBlur P) = true.
Proof.
  intros P.
  destruct (@constructed_handles ReferenceActions.host false eTransform3x3ParamsTypeDirBlur)
    as (_ & _ & _ & H & _).
  split; [reflexivity|]. apply H. reflexivity.
Defined.

Section IdentityAction.

Context {support : Support} {effect : Effect} {coords : CoordsSupport} {host : Host}.

(** The handles of a constructed plugin that decide the mode of the
    region walk. *)
Lemma constructed_blur_handles (masked : bool) (paramsType : Transform3x3ParamsTypeEnum) :
  let P := ip_params (Transform3x3Plugin masked paramsType) in
  (isNull (_amount P) = false -> isNull (_directionalBlur P) = true) /\
  (isNull (_directionalBlur P) = false -> isNull (_invert P) = false).
Proof.
  unfold Transform3x3Plugin. cbn [ip_params _amount _directionalBlur _invert].
  destruct (paramExists kParamTransform3x3Invert), paramsType; cbn; auto.
Qed.

(** An identity action that does not answer [false] excludes a walk of
    the region actions over a shutter range, on handles as the constructor
    leaves them. *)
Lemma identity_excludes_shutter_sampling (IP : IdentityParams) (args : IsIdentityArguments) :
  (isNull (_amount (ip_params IP)) = false ->
   isNull (_directionalBlur (ip_params IP)) = true) ->
  (isNull (_directionalBlur (ip_params IP)) = false ->
   isNull (_invert (ip_params IP)) = false) ->
  isIdentity_action IP args <> NotIdentity ->
  region_shutter_sampling (ip_params IP) (ia_time args) = false.
Proof.
  set (P := ip_params IP). set (time := ia_time args).
  intros Hamount Hinvert Hans.
  unfold region_shutter_sampling, regionParams.
  destruct (amountRange P time) as [from to].
  destruct (_directionalBlur P) as [d|] eqn:Hd; cbn [isNull getValueAtTime];
    [|apply andb_false_r].
  destruct (d time); [apply andb_false_r|]. rewrite andb_true_r.
  unfold isIdentity_action in Hans. fold P time in Hans.
  destruct (_amount P) as [amount|]; [now specialize (Hamount eq_refl)|].
  unfold identity_hasmotionblur in Hans. rewrite (Hinvert eq_refl) in Hans.
  unfold hasMotionBlur. rewrite orb_false_r.
  destruct (_ && _); [now contradiction Hans|reflexivity].
Qed.

End IdentityAction.

(** X16.  On a constructed plugin the identity action and the region of
    definition agree: when the identity action does not answer [false] at a
    frame where the effect's own identity test holds, and the source's
    region of definition is not infinite, [getRegionOfDefinition] makes no
    call and returns the source's region of definition (under masking, that
    region or its union with itself). *)
Theorem identity_action_agrees_with_region {support : Support} {effect : Effect}
    {coords : CoordsSupport} {host : Host}
    (masked : bool) (paramsType : Transform3x3ParamsTypeEnum) (budget : nat)
    (idArgs : IsIdentityArguments) (rodArgs : RegionOfDefinitionArguments)
    (srcClip : Clip) :
  let IP := Transform3x3Plugin masked paramsType in
  let P := ip_params IP in
  let time := ia_time idArgs in
  let srcRoD := getRegionOfDefinition_clip srcClip time in
  rod_time rodArgs = time ->
  _srcClip P = Some srcClip ->
  rectIsInfinite srcRoD = false ->
  isIdentity time = true ->
  isIdentity_action IP idArgs <> NotIdentity ->
  exists rod,
    getRegionOfDefinition budget P rodArgs = Some (Some rod, []) /\
    (masked = false -> rod = srcRoD) /\
    (rod = srcRoD \/ rod = rectBoundingBox srcRoD srcRoD).
Proof.
  intros IP P time srcRoD Ht Hsrc Hfin Hid Hans.
  destruct (constructed_blur_handles masked paramsType) as [Hamount Hinvert].
  pose proof (identity_excludes_shutter_sampling IP idArgs Hamount Hinvert Hans) as Hsamp.
  fold P time in Hsamp.
  pose proof (getRegionOfDefinition_identity budget P rodArgs srcClip) as H.
  cbv zeta in H. rewrite Ht in H. specialize (H Hsrc Hfin Hid Hsamp). fold srcRoD in H.
  eexists. split; [exact H|]. split.
  - intros ->. reflexivity.
  - destruct (doMasking P time); [|now left].
    destruct (_ && _); [now left|now right].
Qed.

Lemma identity_action_agrees_with_region_witness :
  @getRegionOfDefinition ReferenceActions.support ReferenceActions.still 0
    (ip_params (@Transform3x3Plugin ReferenceActions.host false
                  eTransform3x3ParamsTypeMotionBlur))
    (mkRoDArgs (Double.of_Z 10) Reference.unitScale)
  = Some (Some (Reference.rect 0 0 100 100), []).
Proof.
  destruct (@identity_action_agrees_with_region ReferenceActions.support
              ReferenceActions.still ReferenceActions.coords ReferenceActions.host
              false eTransform3x3ParamsTypeMotionBlur 0
              (mkIsIdentityArguments (Double.of_Z 10) Reference.unitScale (mkRectI 0 0 10 10))
              (mkRoDArgs (Double.of_Z 10) Reference.unitScale)
              (Reference.clip (Reference.rect 0 0 100 100))
              eq_refl eq_refl eq_refl eq_refl ltac:(discriminate))
    as (rod & E & Hrod & _).
  rewrite E, (Hrod eq_refl). reflexivity.
Defined.

(** X17.  The answers of the identity action.  An answer [true] always
    names the source clip, and sets the identity time to the frame time
    except on the last path (a masked plugin whose mask does not meet the
    render window), where it leaves the time unwritten.  An amount of [0.]
    gives [true] before anything else is looked at.  Otherwise motion blur
    (a shutter and a motion blur both not [0.]) or clamping gives [false]
    whatever the effect is.  On a plugin that is not masked the answer is
    [true] exactly when the amount is [0.], or there is no motion blur, no
    clamping, and the effect's own identity test holds. *)
Theorem identity_action_answers {effect : Effect} {coords : CoordsSupport}
    (IP : IdentityParams) (args : IsIdentityArguments) :
  let P := ip_params IP in
  let time := ia_time args in
  let amountIsZero :=
    match _amount P with
    | Some amount => (amount time ==? Double.zero)%D
    | None => false
    end in
  let clamp := getValueAtTime (_clamp IP) time false in
  (forall clip t, isIdentity_action IP args = Identity clip t ->
     clip = _srcClip P /\
     (t = Some time \/
      t = None /\ _masked P = true /\ doMasking P time = true /\
      getValueAtTime (_maskInvert IP) time false = false)) /\
  (amountIsZero = true -> isIdentity_action IP args = Identity (_srcClip P) (Some time)) /\
  (amountIsZero = false -> identity_hasmotionblur P time || clamp = true ->
   isIdentity_action IP args = NotIdentity) /\
  (_masked P = false ->
   (isIdentity_action IP args <> NotIdentity <->
    amountIsZero = true \/
    identity_hasmotionblur P time = false /\ clamp = false /\ isIdentity time = true)).
Proof.
  intros P time amountIsZero clamp. unfold isIdentity_action.
  fold P time amountIsZero clamp.
  split; [|split; [|split]].
  - intros clip t.
    destruct amountIsZero; [intros [= <- <-]; auto|].
    destruct (identity_hasmotionblur P time); [discriminate|].
    destruct clamp; [discriminate|].
    destruct (isIdentity time); [intros [= <- <-]; auto|].
    destruct (_masked P); [|discriminate].
    destruct (_ ==? _)%D; [intros [= <- <-]; auto|].
    destruct (doMasking P time); [|discriminate].
    destruct (_maskInvert IP) as [maskInvert|]; [|discriminate].
    cbn [getValueAtTime].
    destruct (maskInvert time); [discriminate|]. cbn [negb].
    destruct (_maskClip P) as [maskClip|]; [|discriminate].
    destruct (negb _); [|discriminate].
    intros [= <- <-]. auto 6.
  - now intros ->.
  - intros -> H. destruct (identity_hasmotionblur P time); [reflexivity|].
    cbn [orb] in H. now rewrite H.
  - intros ->. destruct amountIsZero; [split; [now left|discriminate]|].
    destruct (identity_hasmotionblur P time).
    { split; [congruence|]. intros [?|[? _]]; discriminate. }
    destruct clamp.
    { split; [congruence|]. intros [?|(_ & ? & _)]; discriminate. }
    destruct (isIdentity time).
    + split; [auto|discriminate].
    + split; [congruence|]. intros [?|(_ & _ & ?)]; discriminate.
Qed.

Lemma identity_action_answers_witness :
  @isIdentity_action ReferenceActions.still ReferenceActions.coords
    (@Transform3x3Plugin ReferenceActions.host false eTransform3x3ParamsTypeDirBlur)
    (mkIsIdentityArguments (Double.of_Z 10) Reference.unitScale (mkRectI 0 0 10 10))
  <> NotIdentity.
Proof.
  destruct (@identity_action_answers ReferenceActions.still ReferenceActions.coords
              (@Transform3x3Plugin ReferenceActions.host false eTransform3x3ParamsTypeDirBlur)
              (mkIsIdentityArguments (Double.of_Z 10) Reference.unitScale (mkRectI 0 0 10 10)))
    as (_ & _ & _ & H).
  apply (H eq_refl). right. repeat split; reflexivity.
Defined.

(** ** The clamp of the region of interest to the project *)

(** X18.  "RoI cannot be infinite".  Provided [rectIsInfinite] answers
    [true] for every rectangle with a side at or beyond its sentinel, and
    the project extent itself lies strictly within the sentinels, the
    rectangle after the clamp of [getRegionsOfInterest] has no side at or
    beyond a sentinel, and a rectangle that had none is left as it was.  As
    a consequence the region that [getRegionsOfInterest] sets on the source
    clip, when no masking takes place, has no side at or beyond a
    sentinel, even when the transform of the effect is not available. *)
Theorem clamp_to_project {support : Support} {effect : Effect} (srcRoI : OfxRectD)
    (budget : nat) (P : Params) (args : RegionsOfInterestArguments)
    (roi : OfxRectD) (calls : list Call) :
  (forall r, at_sentinel r = true -> rectIsInfinite r = true) ->
  at_sentinel
    {| x1 := pt_x getProjectOffset; y1 := pt_y getProjectOffset;
       x2 := (pt_x getProjectOffset + pt_x getProjectSize)%D;
       y2 := (pt_y getProjectOffset + pt_y getProjectSize)%D |} = false ->
  at_sentinel (clampToProject srcRoI) = false /\
  (at_sentinel srcRoI = false -> clampToProject srcRoI = srcRoI) /\
  (doMasking P (roi_time args) = false ->
   getRegionsOfInterest budget P args = Some (Some roi, calls) ->
   at_sentinel roi = false).
Proof.
  intros Hinf Hproject.
  assert (Hclamp : forall r, at_sentinel (clampToProject r) = false /\
                             (at_sentinel r = false -> clampToProject r = r)).
  { intros r. unfold at_sentinel in Hproject. cbn [x1 y1 x2 y2] in Hproject.
    apply orb_false_iff in Hproject. destruct Hproject as [Hproject Hy2].
    apply orb_false_iff in Hproject. destruct Hproject as [Hproject Hy1].
    apply orb_false_iff in Hproject. destruct Hproject as [Hx1 Hx2].
    unfold clampToProject.
    destruct (rectIsInfinite r) eqn:Hr.
    - split.
      + unfold at_sentinel. cbn [x1 y1 x2 y2].
        destruct (x1 r <=? kOfxFlagInfiniteMin)%D eqn:E1,
                 (x2 r >=? kOfxFlagInfiniteMax)%D eqn:E2,
                 (y1 r <=? kOfxFlagInfiniteMin)%D eqn:E3,
                 (y2 r >=? kOfxFlagInfiniteMax)%D eqn:E4;
          now rewrite ?Hx1, ?Hx2, ?Hy1, ?Hy2, ?E1, ?E2, ?E3, ?E4.
      + unfold at_sentinel. intros H.
        apply orb_false_iff in H. destruct H as [H E4].
        apply orb_false_iff in H. destruct H as [H E3].
        apply orb_false_iff in H. destruct H as [E1 E2].
        rewrite E1, E2, E3, E4. now destruct r.
    - split; [|reflexivity].
      destruct (at_sentinel r) eqn:Hs; [|reflexivity].
      rewrite (Hinf r Hs) in Hr. discriminate. }
  split; [apply Hclamp|]. split; [apply Hclamp|].
  intros Hmask. unfold getRegionsOfInterest, roi_dereferences_null.
  destruct (_srcClip P) as [srcClip|]; [|discriminate].
  rewrite Hmask. cbn [andb].
  destruct (regionParams P (roi_time args)) as [[[[[[mb dir] from] to] sh] so] sc].
  destruct (transformRegion _ _ _ _ _ _ _ _ _ _ _ _) as [[r cs]|]; [|discriminate].
  change ((Double.one !=? Double.one)%D) with false. rewrite andb_false_r.
  intros [= <- _]. apply Hclamp.
Qed.

Lemma clamp_to_project_witness :
  @clampToProject Reference.support infiniteRect = Reference.rect 0 0 0 0 /\
  at_sentinel (@clampToProject Reference.support infiniteRect) = false.
Proof.
  destruct (@clamp_to_project Reference.support Reference.failing infiniteRect 1
              (Reference.dirBlurPlugin Double.one false)
              (mkRoIArgs (Double.of_Z 10) Reference.unitScale (Reference.rect 0 0 100 100))
              infiniteRect []
              ltac:(intros r H; exact H) ltac:(vm_compute; reflexivity)) as (H & _).
  split; [vm_compute; reflexivity | exact H].
Defined.
